(** * Streaming code-generation route: extraction, fault detection and repair

    A shallow embedding of the streaming part of
    [app/api/generate-ai-code-stream/route.ts] (the body of [POST] from the call
    of [streamText] to the closing of the writer), with the JavaScript string
    methods and regular expressions it relies on.

    Strings are Rocq strings read as sequences of code units below 256
    (Latin-1); the route never inspects a code unit above that range except
    through the whitespace class and the letter case.

    A session is the sequence of chunks of the provider's text stream, the
    error the stream may end with, and the answers of the follow-up calls made
    for repair. The repair loop is embedded for any outcome of these calls;
    [FollowUp] then gives the outcome the call expression of the route has,
    which reads two names the module does not declare and so throws each time.
    Writing to the response is taken to succeed, and the bookkeeping of the
    conversation history after the complete event sends nothing: neither is
    part of a session.

    What [POST] does around the stream comes after the sessions used as
    examples: the history of the conversation with [analyzeUserPreferences],
    the context built from it, the keyword search of an edit and the choice
    of the provider. *)

From Stdlib Require Import String Ascii List Bool Arith Lia DecimalString.
Import ListNotations.
Open Scope string_scope.

(** [++] joins strings; [+++] joins lists. *)
Infix "+++" := (@List.app _) (right associativity, at level 60).

(** The double quote, written by its code so that no literal has to escape it. *)
Definition dquote : ascii := ascii_of_nat 34.
Definition DQ : string := String dquote "".
Definition newline : ascii := ascii_of_nat 10.
Definition NL : string := String newline "".

(** ** String.prototype *)
Module JS.

(** [s.startsWith(w)]. *)
Fixpoint startsWith (w s : string) : bool :=
  match w with
  | "" => true
  | String a w' =>
      match s with
      | "" => false
      | String b s' => Ascii.eqb a b && startsWith w' s'
      end
  end.

(** [s.indexOf(w)], [None] standing for -1. *)
Fixpoint indexOf (w s : string) : option nat :=
  if startsWith w s then Some 0
  else match s with
       | "" => None
       | String _ s' => option_map S (indexOf w s')
       end.

(** [s.includes(w)]. *)
Definition includes (w s : string) : bool :=
  match indexOf w s with Some _ => true | None => false end.

(** [s.substring(n)] and [s.substring(0, n)]. *)
Fixpoint drop (n : nat) (s : string) : string :=
  match n, s with
  | S n', String _ s' => drop n' s'
  | _, _ => s
  end.

Fixpoint take (n : nat) (s : string) : string :=
  match n, s with
  | S n', String c s' => String c (take n' s')
  | _, _ => ""
  end.

(** [s.endsWith(w)]. *)
Definition endsWith (w s : string) : bool :=
  Nat.leb (String.length w) (String.length s)
  && String.eqb (drop (String.length s - String.length w) s) w.

(** White space and line terminators below 256: TAB, LF, VT, FF, CR, SP, NBSP. *)
Definition isSpace (c : ascii) : bool :=
  let n := nat_of_ascii c in
  (Nat.leb 9 n && Nat.leb n 13) || Nat.eqb n 32 || Nat.eqb n 160.

Fixpoint trimStart (s : string) : string :=
  match s with
  | "" => ""
  | String c s' => if isSpace c then trimStart s' else s
  end.

Fixpoint trimEnd (s : string) : string :=
  match s with
  | "" => ""
  | String c s' =>
      match trimEnd s' with
      | "" => if isSpace c then "" else String c ""
      | t => String c t
      end
  end.

(** [s.trim()]. *)
Definition trim (s : string) : string := trimEnd (trimStart s).

(** A string is falsy exactly when it is empty. *)
Definition truthy (s : string) : bool :=
  match s with "" => false | _ => true end.

(** [s.split(c)] for a one-character separator: never an empty array. *)
Fixpoint split (sep : ascii) (s : string) : list string :=
  match s with
  | "" => [""]
  | String c s' =>
      if Ascii.eqb c sep then "" :: split sep s'
      else match split sep s' with
           | [] => [String c ""]
           | p :: ps => String c p :: ps
           end
  end.

(** [s.split(/[...]+/)] for a class of separator characters: a run of
    separators splits once. *)
Fixpoint splitRuns (isSep : ascii -> bool) (inRun : bool) (s : string)
  : list string :=
  match s with
  | "" => [""]
  | String c s' =>
      if isSep c then
        if inRun then splitRuns isSep true s'
        else "" :: splitRuns isSep true s'
      else match splitRuns isSep false s' with
           | [] => [String c ""]
           | p :: ps => String c p :: ps
           end
  end.

(** [a.join(sep)]. *)
Fixpoint join (sep : string) (l : list string) : string :=
  match l with
  | [] => ""
  | [x] => x
  | x :: rest => x ++ sep ++ join sep rest
  end.

(** [s.replace(w, '')] for a string pattern: the first occurrence only. *)
Fixpoint removeFirst (w s : string) : string :=
  if startsWith w s then drop (String.length w) s
  else match s with
       | "" => ""
       | String c s' => String c (removeFirst w s')
       end.

(** Number of occurrences of one character: [(s.match(/c/g) || []).length]. *)
Fixpoint countChar (c : ascii) (s : string) : nat :=
  match s with
  | "" => 0
  | String a s' => (if Ascii.eqb a c then 1 else 0) + countChar c s'
  end.

(** A number inside a template literal. *)
Definition ofNat (n : nat) : string := NilZero.string_of_uint (Nat.to_uint n).

(** [a.includes(x)] on an array of strings. *)
Fixpoint arrayIncludes (x : string) (a : list string) : bool :=
  match a with
  | [] => false
  | y :: a' => String.eqb y x || arrayIncludes x a'
  end.

(** Concatenation of a list of chunks. *)
Fixpoint concat (l : list string) : string :=
  match l with
  | [] => ""
  | x :: l' => x ++ concat l'
  end.

End JS.

(** ** Regular expressions

    A backtracking matcher with the priorities of ECMAScript: alternatives are
    tried left to right, a greedy star tries one more iteration first, a lazy
    star tries to stop first, and an iteration that consumes nothing is
    refused. *)
Module Regex.

Inductive regex : Type :=
| Empty
| Chr (p : ascii -> bool)
| Seq (r1 r2 : regex)
| Alt (r1 r2 : regex)
| Star (greedy : bool) (r : regex)
| Group (i : nat) (r : regex)
| WordBoundary
| EndOfInput.

Definition captures := list (nat * string).

Fixpoint capture (i : nat) (caps : captures) : option string :=
  match caps with
  | [] => None
  | (j, v) :: rest => if Nat.eqb j i then Some v else capture i rest
  end.

(** [\w]. *)
Definition isWord (c : ascii) : bool :=
  let n := nat_of_ascii c in
  (Nat.leb 48 n && Nat.leb n 57) || (Nat.leb 65 n && Nat.leb n 90)
  || (Nat.leb 97 n && Nat.leb n 122) || Nat.eqb n 95.

(** [[a-zA-Z0-9]]. *)
Definition isAlnum (c : ascii) : bool :=
  let n := nat_of_ascii c in
  (Nat.leb 48 n && Nat.leb n 57) || (Nat.leb 65 n && Nat.leb n 90)
  || (Nat.leb 97 n && Nat.leb n 122).

Definition isWordOpt (c : option ascii) : bool :=
  match c with Some a => isWord a | None => false end.

Definition headIsWord (s : string) : bool :=
  match s with String a _ => isWord a | "" => false end.

(** What a match leaves: the rest of the input and the groups. *)
Definition result := option (string * captures).
Definition cont := option ascii -> string -> captures -> result.

(** The iterations of a star whose body is matched by [body]: at most [fuel]
    of them, each consuming at least one character. *)
Fixpoint starLoop (body : option ascii -> string -> captures -> cont -> result)
  (greedy : bool) (k : cont) (fuel : nat) (prev : option ascii) (s : string)
  (caps : captures) {struct fuel} : result :=
  match fuel with
  | 0 => k prev s caps
  | S fuel' =>
      let again : cont :=
        fun prev' s' caps' =>
          if Nat.ltb (String.length s') (String.length s)
          then starLoop body greedy k fuel' prev' s' caps' else None in
      if greedy then
        match body prev s caps again with
        | Some x => Some x
        | None => k prev s caps
        end
      else
        match k prev s caps with
        | Some x => Some x
        | None => body prev s caps again
        end
  end.

(** [matchR r prev s caps k]: match [r] at the front of [s], [prev] being the
    character before it, then continue with [k]. A star never needs more
    iterations than there are characters left. *)
Fixpoint matchR (r : regex) (prev : option ascii) (s : string)
  (caps : captures) (k : cont) {struct r} : result :=
  match r with
  | Empty => k prev s caps
  | Chr p =>
      match s with
      | "" => None
      | String c s' => if p c then k (Some c) s' caps else None
      end
  | Seq r1 r2 =>
      matchR r1 prev s caps (fun prev' s' caps' => matchR r2 prev' s' caps' k)
  | Alt r1 r2 =>
      match matchR r1 prev s caps k with
      | Some x => Some x
      | None => matchR r2 prev s caps k
      end
  | Star greedy r1 =>
      starLoop (matchR r1) greedy k (String.length s) prev s caps
  | Group i r1 =>
      matchR r1 prev s caps
        (fun prev' s' caps' =>
           k prev' s'
             ((i, JS.take (String.length s - String.length s') s) :: caps'))
  | WordBoundary =>
      if xorb (isWordOpt prev) (headIsWord s) then k prev s caps else None
  | EndOfInput =>
      match s with
      | "" => k prev s caps
      | _ => None
      end
  end.

(** The continuation that accepts: what is left, and the groups. *)
Definition accept : cont := fun _ s caps => Some (s, caps).

(** The pattern anchored at the front of [s]. *)
Definition matchAt (r : regex) (prev : option ascii) (s : string) : result :=
  matchR r prev s [] accept.

(** The array [exec] returns, with the text around the match. *)
Record Match : Type := mkMatch {
  before : string;
  matched : string;
  groups : captures;
  after : string
}.

Definition index (m : Match) : nat := String.length (before m).
Definition group (i : nat) (m : Match) : string :=
  match capture i (groups m) with Some v => v | None => "" end.

Definition mkMatchAt (bef s rest : string) (caps : captures) : Match :=
  mkMatch bef (JS.take (String.length s - String.length rest) s) caps rest.

(** [s.match(r)] and [r.exec(s)] without the [g] flag: the leftmost match. *)
Fixpoint searchFrom (r : regex) (bef : string) (prev : option ascii)
  (s : string) : option Match :=
  match matchAt r prev s with
  | Some (rest, caps) => Some (mkMatchAt bef s rest caps)
  | None =>
      match s with
      | "" => None
      | String c s' => searchFrom r (bef ++ String c "") (Some c) s'
      end
  end.

Definition search (r : regex) (s : string) : option Match :=
  searchFrom r "" None s.

(** [r.test(s)]. *)
Definition test (r : regex) (s : string) : bool :=
  match search r s with Some _ => true | None => false end.

(** The matches a [while ((m = r.exec(s)) !== null)] loop visits with the [g]
    flag: leftmost first, each search resuming where the previous match
    ended. [skip] counts the characters of the last match still to pass.
    Every pattern the route iterates over starts with a literal, so no match
    is empty and the loop advances (see [execAll_nonempty]). *)
Fixpoint execAllFrom (r : regex) (bef : string) (prev : option ascii)
  (s : string) (skip : nat) : list Match :=
  match skip with
  | S n =>
      match s with
      | "" => []
      | String c s' => execAllFrom r (bef ++ String c "") (Some c) s' n
      end
  | 0 =>
      match matchAt r prev s with
      | Some (rest, caps) =>
          mkMatchAt bef s rest caps ::
            match s with
            | "" => []
            | String c s' =>
                execAllFrom r (bef ++ String c "") (Some c) s'
                  (String.length s - String.length rest - 1)
            end
      | None =>
          match s with
          | "" => []
          | String c s' => execAllFrom r (bef ++ String c "") (Some c) s' 0
          end
      end
  end.

Definition execAll (r : regex) (s : string) : list Match :=
  execAllFrom r "" None s 0.

(** The replacement patterns of [String.prototype.replace] that are live when
    the pattern has no capturing group: [$$], [$&], [$`] and [$']. *)
Fixpoint expand (repl : string) (m : Match) : string :=
  match repl with
  | "" => ""
  | String c rest =>
      if Ascii.eqb c "$" then
        match rest with
        | String d rest' =>
            if Ascii.eqb d "$" then String "$" (expand rest' m)
            else if Ascii.eqb d "&" then matched m ++ expand rest' m
            else if Ascii.eqb d "`" then before m ++ expand rest' m
            else if Ascii.eqb d "'" then after m ++ expand rest' m
            else String c (expand rest m)
        | "" => String c ""
        end
      else String c (expand rest m)
  end.

(** [s.replace(r, repl)] with the [g] flag and a string replacement. *)
Fixpoint replaceAllFrom (r : regex) (repl : string) (bef : string)
  (prev : option ascii) (s : string) (skip : nat) : string :=
  match skip with
  | S n =>
      match s with
      | "" => ""
      | String c s' => replaceAllFrom r repl (bef ++ String c "") (Some c) s' n
      end
  | 0 =>
      match matchAt r prev s with
      | Some (rest, caps) =>
          expand repl (mkMatchAt bef s rest caps) ++
            match s with
            | "" => ""
            | String c s' =>
                match String.length s - String.length rest with
                | 0 => String c (replaceAllFrom r repl (bef ++ String c "") (Some c) s' 0)
                | S n => replaceAllFrom r repl (bef ++ String c "") (Some c) s' n
                end
            end
      | None =>
          match s with
          | "" => ""
          | String c s' =>
              String c (replaceAllFrom r repl (bef ++ String c "") (Some c) s' 0)
          end
      end
  end.

Definition replaceAll (r : regex) (repl : string) (s : string) : string :=
  replaceAllFrom r repl "" None s 0.

(** *** Pattern syntax *)

(** A literal: each character matches itself. *)
Fixpoint lit (w : string) : regex :=
  match w with
  | "" => Empty
  | String c w' => Seq (Chr (Ascii.eqb c)) (lit w')
  end.

Definition oneOf (cs : string) : regex :=
  Chr (fun c => JS.includes (String c "") cs).
Definition noneOf (cs : string) : regex :=
  Chr (fun c => negb (JS.includes (String c "") cs)).
(** [[\s\S]]. *)
Definition anyChar : regex := Chr (fun _ => true).
Definition space : regex := Chr JS.isSpace.
Definition word : regex := Chr isWord.
Definition plus (r : regex) : regex := Seq r (Star true r).
Definition star (r : regex) : regex := Star true r.
Definition lazyStar (r : regex) : regex := Star false r.
Definition opt (r : regex) : regex := Alt r Empty.

Fixpoint seqs (rs : list regex) : regex :=
  match rs with
  | [] => Empty
  | [r] => r
  | r :: rs' => Seq r (seqs rs')
  end.

Fixpoint alts (rs : list regex) : regex :=
  match rs with
  | [] => Empty
  | [r] => r
  | r :: rs' => Alt r (alts rs')
  end.

(** *** Two readings used to reason about the matcher *)

(** The character before the position reached after reading [w]. *)
Fixpoint lastChar (prev : option ascii) (w : string) : option ascii :=
  match w with
  | "" => prev
  | String c w' => lastChar (Some c) w'
  end.

(** What a lazy [[\s\S]*?] followed by [k] does: try [k] here, else pass one
    character and try again. *)
Fixpoint lazyScan (k : cont) (prev : option ascii) (s : string)
  (caps : captures) : result :=
  match k prev s caps with
  | Some x => Some x
  | None =>
      match s with
      | "" => None
      | String c s' => lazyScan k (Some c) s' caps
      end
  end.

(** A pattern that reads at least one character whenever it matches. *)
Fixpoint consuming (r : regex) : bool :=
  match r with
  | Chr _ => true
  | Seq r1 r2 => consuming r1 || consuming r2
  | Alt r1 r2 => consuming r1 && consuming r2
  | Group _ r1 => consuming r1
  | _ => false
  end.

(** The result [x] comes from the continuation [k], called on a suffix of [s]
    that is shorter than [s] ([strict]) or no longer than [s]. *)
Definition Reaches (strict : bool) (k : cont) (s : string)
  (x : string * captures) : Prop :=
  exists p s' c,
    (if strict then String.length s' < String.length s
     else String.length s' <= String.length s)
    /\ k p s' c = Some x.

(** The shape [open([\s\S]*?)close]. *)
Definition blockRegex (open close : string) : regex :=
  seqs [lit open; Group 1 (lazyStar anyChar); lit close].

End Regex.


(** ** The route *)
Module Route.
Import Regex.

(** The objects handed to [sendProgress], by their [type] tag: conversation,
    stream, package, component, app, warning, info, complete, error. The
    [model] field of the complete event is left out. *)
Inductive ProgressEvent : Type :=
| EConversation (text : string)
| EStream (text : string)
| EPackage (name message : string)
| EComponent (name path : string) (index : nat)
| EApp (message path : string)
| EWarning (message : string) (warnings : option (list string))
| EInfo (message : string)
| EComplete (generatedCode explanation : string) (files components : nat)
    (packagesToInstall warnings : option (list string))
| EError (error : string).

(** The variables of the streaming loop. *)
Record StreamState : Type := mkState {
  generatedCode : string;
  currentFile : string;
  currentFilePath : string;
  componentCount : nat;
  isInFile : bool;
  isInTag : bool;
  conversationalBuffer : string;
  tagBuffer : string;
  packagesToInstall : list string
}.

Definition initialState : StreamState :=
  mkState "" "" "" 0 false false "" "" [].

(** *** The patterns, in the order the route writes them *)

Definition tagNames : regex :=
  Group 1 (alts [lit "file"; lit "package"; lit "packages"; lit "explanation";
                 lit "command"; lit "structure"; lit "template"]).
(** [<(file|package|...|template)\b] *)
Definition openTagRegex : regex := seqs [lit "<"; tagNames; WordBoundary].
(** [<\/(file|package|...|template)>] *)
Definition closeTagRegex : regex := seqs [lit "</"; tagNames; lit ">"].
(** [<package>([^<]+)<\/package>] *)
Definition packageRegex : regex :=
  seqs [lit "<package>"; Group 1 (plus (noneOf "<")); lit "</package>"].
(** The literal [<file path=DQ], DQ being the double quote. *)
Definition fileOpen : string := "<file path=" ++ DQ.
(** [<file path=DQ([^DQ]+)DQ] *)
Definition filePathRegex : regex :=
  seqs [lit fileOpen; Group 1 (plus (noneOf DQ)); lit DQ].
(** [<packages>([\s\S]*?)<\/packages>] *)
Definition packagesRegex : regex :=
  seqs [lit "<packages>"; Group 1 (lazyStar anyChar); lit "</packages>"].
(** [import\s+(?:(?:\{[^}]*\}|\*\s+as\s+\w+|\w+)
       (?:\s*,\s*(?:\{[^}]*\}|\*\s+as\s+\w+|\w+))*\s+from\s+)?[']([^']+)[']],
    each quote class holding the single and the double quote. *)
Definition importClause : regex :=
  alts [seqs [lit "{"; star (noneOf "}"); lit "}"];
        seqs [lit "*"; plus space; lit "as"; plus space; plus word];
        plus word].
Definition quotes : string := "'" ++ DQ.
Definition importRegex : regex :=
  seqs [lit "import"; plus space;
        opt (seqs [importClause;
                   star (seqs [star space; lit ","; star space; importClause]);
                   plus space; lit "from"; plus space]);
        oneOf quotes; Group 1 (plus (noneOf quotes)); oneOf quotes].
(** [<file path=DQ([^DQ]+)DQ>([\s\S]*?)<\/file>] *)
Definition fileRegex : regex :=
  seqs [lit fileOpen; Group 1 (plus (noneOf DQ)); lit (DQ ++ ">");
        Group 2 (lazyStar anyChar); lit "</file>"].
(** [<explanation>([\s\S]*?)<\/explanation>] *)
Definition explanationRegex : regex :=
  seqs [lit "<explanation>"; Group 1 (lazyStar anyChar); lit "</explanation>"].
(** [<file path=DQ([^DQ]+)DQ>([\s\S]*?)(?:<\/file>|$)] *)
Definition truncationCheckRegex : regex :=
  seqs [lit fileOpen; Group 1 (plus (noneOf DQ)); lit (DQ ++ ">");
        Group 2 (lazyStar anyChar); alts [lit "</file>"; EndOfInput]].
(** [\.(jsx?|tsx?)$] *)
Definition scriptExtensionRegex : regex :=
  seqs [lit ".";
        Group 1 (alts [seqs [lit "js"; opt (lit "x")];
                       seqs [lit "ts"; opt (lit "x")]]);
        EndOfInput].
(** [<\/[a-zA-Z0-9]+>] *)
Definition closingTagRegex : regex :=
  seqs [lit "</"; plus (Chr isAlnum); lit ">"].
(** Three backquotes, [[\w]*\n([\s\S]*?)], three backquotes. *)
Definition fenceRegex : regex :=
  seqs [lit "```"; star word; lit NL; Group 1 (lazyStar anyChar); lit "```"].

(** *** Dependency collection *)

(** The guarded push the three sources share:
    [if (!packagesToInstall.includes(name)) { push; sendProgress(package) }]. *)
Definition pushPackage (message : string)
  (acc : list string * list ProgressEvent) (name : string)
  : list string * list ProgressEvent :=
  if JS.arrayIncludes name (fst acc) then acc
  else (fst acc +++ [name], snd acc +++ [EPackage name (message ++ name)]).

(** The [packageRegex] loop over [searchText]; the third component is
    [lastIndex]. *)
Definition scanPackageTags (searchText : string) (pkgs : list string)
  : list string * list ProgressEvent * nat :=
  fold_left
    (fun acc m =>
       let packageName := JS.trim (group 1 m) in
       (if JS.truthy packageName
        then pushPackage "Package detected: " (fst acc) packageName
        else fst acc,
        index m + String.length (matched m)))
    (execAll packageRegex searchText) ((pkgs, []), 0).

Definition isListSeparator (c : ascii) : bool :=
  Ascii.eqb c newline || Ascii.eqb c ",".

(** The names of one [<packages>] block. *)
Definition packagesList (packagesContent : string) : list string :=
  filter (fun pkg => Nat.ltb 0 (String.length pkg))
    (map JS.trim (JS.splitRuns isListSeparator false packagesContent)).

(** The [packagesRegex] loop over the whole output. *)
Definition scanPackagesBlocks (code : string) (pkgs : list string)
  : list string * list ProgressEvent :=
  fold_left
    (fun acc m =>
       fold_left (pushPackage "Package detected: ")
         (packagesList (JS.trim (group 1 m))) acc)
    (execAll packagesRegex code) (pkgs, []).

Definition isExternalImport (importPath : string) : bool :=
  negb (JS.startsWith "." importPath) && negb (JS.startsWith "/" importPath)
  && negb (String.eqb importPath "react")
  && negb (String.eqb importPath "react-dom")
  && negb (JS.startsWith "@/" importPath).

Definition packageNameOf (importPath : string) : string :=
  if JS.startsWith "@" importPath
  then JS.join "/" (firstn 2 (JS.split "/" importPath))
  else hd "" (JS.split "/" importPath).

Definition extractPackagesFromCode (content : string) : list string :=
  fold_left
    (fun packages m =>
       let importPath := group 1 m in
       if isExternalImport importPath then
         let packageName := packageNameOf importPath in
         if JS.arrayIncludes packageName packages then packages
         else packages +++ [packageName]
       else packages)
    (execAll importRegex content) [].

(** The package events announcing [names], in order. *)
Definition packageEvents (message : string) (names : list string)
  : list ProgressEvent :=
  map (fun name => EPackage name (message ++ name)) names.

(** *** The streaming loop *)

(** [currentFilePath.split('/').pop()?.replace('.jsx', '') || 'Component'] *)
Definition componentNameOf (path : string) : string :=
  let base := JS.removeFirst ".jsx" (last (JS.split "/" path) "") in
  if JS.truthy base then base else "Component".

(** The paths that get a progress event: components, and the main file. *)
Definition isRecordPath (filePath : string) : bool :=
  JS.includes "components/" filePath || JS.includes "App.jsx" filePath.

(** The progress event of a file, sent in the same words when the streaming
    loop sees the file end and when the parse after the stream reaches it:
    component with the counter [index], or app, or nothing. *)
Definition recordEvent (index : nat) (filePath : string)
  : list ProgressEvent :=
  if JS.includes "components/" filePath then
    [EComponent (componentNameOf filePath) filePath index]
  else if JS.includes "App.jsx" filePath then
    [EApp "Generated main App.jsx" filePath]
  else [].

(** One iteration of [for await (const textPart of result.textStream)]. *)
Definition ingest (isEdit : bool) (st : StreamState) (text : string)
  : StreamState * list ProgressEvent :=
  let generatedCode' := generatedCode st ++ text in
  let currentFile1 := currentFile st ++ text in
  let searchText := tagBuffer st ++ text in
  let hasOpenTag := test openTagRegex text in
  let hasCloseTag := test closeTagRegex text in
  let flush :=
    hasOpenTag && JS.truthy (JS.trim (conversationalBuffer st))
    && negb (isInTag st) in
  let evConversation :=
    if flush then [EConversation (JS.trim (conversationalBuffer st))] else [] in
  let buffer1 := if flush then "" else conversationalBuffer st in
  let isInTag1 := if hasOpenTag then true else isInTag st in
  let isInTag2 := if hasCloseTag then false else isInTag1 in
  let buffer2 :=
    if negb isInTag2 && negb hasOpenTag then buffer1 ++ text else buffer1 in
  let scanned :=
    if isEdit then scanPackageTags searchText (packagesToInstall st)
    else ((packagesToInstall st, []), 0) in
  let lastIndex := snd scanned in
  (* [searchText.substring(Math.max(0, lastIndex - 50))]: the subtraction of
     natural numbers stops at 0 *)
  let tagBuffer' := JS.drop (lastIndex - 50) searchText in
  let opened :=
    if JS.includes fileOpen text then search filePathRegex text else None in
  let currentFilePath1 :=
    match opened with Some m => group 1 m | None => currentFilePath st end in
  let isInFile1 :=
    match opened with Some _ => true | None => isInFile st end in
  let currentFile2 :=
    match opened with Some _ => text | None => currentFile1 end in
  let closed := isInFile1 && JS.includes "</file>" currentFile2 in
  let isComponent := JS.includes "components/" currentFilePath1 in
  let componentCount' :=
    if closed && isComponent then S (componentCount st) else componentCount st in
  let evRecord :=
    if closed then recordEvent componentCount' currentFilePath1 else [] in
  (mkState generatedCode'
     (if closed then "" else currentFile2)
     (if closed then "" else currentFilePath1)
     componentCount'
     (if closed then false else isInFile1)
     isInTag2 buffer2 tagBuffer' (fst (fst scanned)),
   evConversation +++ [EStream text] +++ snd (fst scanned) +++ evRecord).

(** The whole loop over the chunks of the stream, in arrival order. *)
Fixpoint streamLoop (isEdit : bool) (chunks : list string) (st : StreamState)
  : StreamState * list ProgressEvent :=
  match chunks with
  | [] => (st, [])
  | text :: rest =>
      let step := ingest isEdit st text in
      let tail := streamLoop isEdit rest (fst step) in
      (fst tail, snd step +++ snd tail)
  end.

(** *** After the stream *)

(** [if (conversationalBuffer.trim()) sendProgress(conversation)] *)
Definition flushConversation (st : StreamState) : list ProgressEvent :=
  if JS.truthy (JS.trim (conversationalBuffer st))
  then [EConversation (JS.trim (conversationalBuffer st))] else [].

(** The state of the [fileRegex] loop: [files], [packagesToInstall] and the
    events sent so far. *)
Record ParseState : Type := mkParse {
  files : list (string * string);
  parsePackages : list string;
  parseEvents : list ProgressEvent
}.

(** The pair [{ path: match[1], content: match[2].trim() }]. *)
Definition pairOf (m : Match) : string * string :=
  (group 1 m, JS.trim (group 2 m)).

(** One iteration of [while ((match = fileRegex.exec(generatedCode)) !== null)]. *)
Definition parseFile (isEdit : bool) (componentCount : nat) (ps : ParseState)
  (m : Match) : ParseState :=
  let filePath := fst (pairOf m) in
  let content := snd (pairOf m) in
  let collected :=
    if isEdit then
      fold_left (pushPackage "Package detected from imports: ")
        (extractPackagesFromCode content) (parsePackages ps, [])
    else (parsePackages ps, []) in
  mkParse (files ps +++ [(filePath, content)])
    (fst collected)
    (parseEvents ps +++ snd collected +++ recordEvent componentCount filePath).

Definition parseFiles (isEdit : bool) (componentCount : nat) (code : string)
  (pkgs : list string) : ParseState :=
  fold_left (parseFile isEdit componentCount) (execAll fileRegex code)
    (mkParse [] pkgs []).

(** [explanationMatch ? explanationMatch[1].trim() : 'Code generated successfully!'] *)
Definition explanationOf (code : string) : string :=
  match search explanationRegex code with
  | Some m => JS.trim (group 1 m)
  | None => "Code generated successfully!"
  end.

(** *** Fault detection *)

(** [(s.match(r) || []).length] with the [g] flag. *)
Definition countMatches (r : regex) (s : string) : nat :=
  List.length (execAll r s).

Definition absDiff (a b : nat) : nat := (a - b) + (b - a).

Definition unclosedWarning (code : string) : list string :=
  let fileOpenCount := countMatches (lit fileOpen) code in
  let fileCloseCount := countMatches (lit "</file>") code in
  if Nat.eqb fileOpenCount fileCloseCount then []
  else ["Unclosed file tags detected: " ++ JS.ofNat fileOpenCount
        ++ " open, " ++ JS.ofNat fileCloseCount ++ " closed"].

(** The checks on one match of [truncationCheckRegex]. *)
Definition fileWarnings (m : Match) : list string :=
  let filePath := group 1 m in
  let content := group 2 m in
  ((if JS.endsWith "<" (JS.trim content) || JS.endsWith "</" (JS.trim content)
    then ["File " ++ filePath ++ " appears to have incomplete HTML tags"]
    else [])
   +++
   (if test scriptExtensionRegex filePath then
      let openBraces := JS.countChar "{" content in
      let closeBraces := JS.countChar "}" content in
      (if Nat.ltb 3 (absDiff openBraces closeBraces)
       then ["File " ++ filePath ++ " has severely unmatched braces ("
             ++ JS.ofNat openBraces ++ " open, " ++ JS.ofNat closeBraces
             ++ " closed)"]
       else [])
      +++
      (if Nat.ltb (String.length content) 20
          && JS.includes "function" content
          && negb (JS.includes "}" content)
       then ["File " ++ filePath ++ " appears severely truncated"]
       else [])
    else [])).

Definition truncationWarningsOf (code : string) : list string :=
  unclosedWarning code
  +++ flat_map fileWarnings (execAll truncationCheckRegex code).

(** *** Repair *)

Definition isTruncated (filePath content : string) : bool :=
  let hasEllipsis :=
    JS.includes "..." content && negb (JS.includes "...rest" content)
    && negb (JS.includes "...props" content)
    && negb (JS.includes "spread" content) in
  let endsAbruptly :=
    JS.endsWith "..." (JS.trim content) || JS.endsWith "," (JS.trim content)
    || JS.endsWith "(" (JS.trim content) in
  let hasUnclosedTags :=
    JS.includes "</" content && negb (test closingTagRegex content)
    && JS.includes "<" content in
  let tooShort :=
    Nat.ltb (String.length content) 50 && test scriptExtensionRegex filePath in
  let openBraceCount := JS.countChar "{" content in
  let closeBraceCount := JS.countChar "}" content in
  let hasUnmatchedBraces := Nat.ltb 1 (absDiff openBraceCount closeBraceCount) in
  (hasEllipsis && endsAbruptly) || hasUnclosedTags
  || (tooShort && negb (JS.includes "export" content))
  || hasUnmatchedBraces.

(** The paths the second [fileRegex] loop pushes to [truncatedFiles]. *)
Definition truncatedFilesOf (code : string) : list string :=
  map (group 1)
    (filter (fun m => isTruncated (group 1 m) (group 2 m))
       (execAll truncationCheckRegex code)).

(** The content of the first fenced block, when the answer has a fence. *)
Definition cleanContentOf (completedContent : string) : string :=
  if JS.includes "```" completedContent then
    match search fenceRegex completedContent with
    | Some m => group 1 m
    | None => completedContent
    end
  else completedContent.

(** [<file path=DQ filePath DQ>]: the open marker of one file. *)
Definition openMarker (filePath : string) : string :=
  fileOpen ++ filePath ++ DQ ++ ">".

(** [new RegExp(`<file path=DQ${escaped filePath}DQ>[\s\S]*?(?:</file>|$)`, 'g')]:
    the escaping makes every character of [filePath] stand for itself. *)
Definition filePattern (filePath : string) : regex :=
  seqs [lit (openMarker filePath); lazyStar anyChar;
        alts [lit "</file>"; EndOfInput]].

(** The replacement string [`<file path=DQ${filePath}DQ>\n${cleanContent}\n</file>`]. *)
Definition replacement (filePath cleanContent : string) : string :=
  openMarker filePath ++ NL ++ cleanContent ++ NL ++ "</file>".

Definition replaceFile (filePath cleanContent code : string) : string :=
  replaceAll (filePattern filePath) (replacement filePath cleanContent) code.

(** One iteration of [for (const filePath of truncatedFiles)]. [completed] is
    what the follow-up generation returned, [None] when the call threw: the
    [try] is left before [generatedCode] is assigned, and the [catch] sends the
    warning. *)
Definition repairFile (completed : option string) (filePath code : string)
  : string * list ProgressEvent :=
  match completed with
  | Some completedContent =>
      (replaceFile filePath (cleanContentOf completedContent) code,
       [EInfo ("Completing " ++ filePath ++ "...")])
  | None =>
      (code,
       [EInfo ("Completing " ++ filePath ++ "...");
        EWarning ("Could not auto-complete " ++ filePath
                  ++ ". Manual review may be needed.") None])
  end.

(** The follow-up generation: the answer to the [k]-th call, made for
    [filePath], or [None] when that call throws. The loop below is written for
    any such outcome; the outcome of the call as the route writes it is
    [FollowUp.followUp]. *)
Definition Completion : Type := nat -> string -> option string.

Fixpoint repairLoop (completion : Completion) (k : nat)
  (truncatedFiles : list string) (code : string)
  : string * list ProgressEvent :=
  match truncatedFiles with
  | [] => (code, [])
  | filePath :: rest =>
      let step := repairFile (completion k filePath) filePath code in
      let tail := repairLoop completion (S k) rest (fst step) in
      (fst tail, snd step +++ snd tail)
  end.

(** What the recovery block leaves: [generatedCode], [truncationWarnings] and
    the events it sent. *)
Definition recover (enableTruncationRecovery : bool) (completion : Completion)
  (code : string) (truncationWarnings : list string)
  : string * list string * list ProgressEvent :=
  match truncationWarnings with
  | [] => (code, truncationWarnings, [])
  | _ :: _ =>
      if enableTruncationRecovery then
        let notice :=
          EWarning "Detected incomplete code generation. Attempting to complete..."
            (Some truncationWarnings) in
        match truncatedFilesOf code with
        | [] => (code, truncationWarnings, [notice])
        | truncatedFiles =>
            let repaired := repairLoop completion 0 truncatedFiles code in
            (fst repaired, [],
             [notice] +++ snd repaired +++ [EInfo "Truncation recovery complete"])
        end
      else (code, truncationWarnings, [])
  end.

(** [a.length > 0 ? a : undefined] *)
Definition nonEmpty (a : list string) : option (list string) :=
  match a with [] => None | _ => Some a end.

(** The [<packages>] pass, made for edits only. *)
Definition blocksOf (isEdit : bool) (st : StreamState)
  : list string * list ProgressEvent :=
  if isEdit then scanPackagesBlocks (generatedCode st) (packagesToInstall st)
  else (packagesToInstall st, []).

Definition parsedOf (isEdit : bool) (st : StreamState) : ParseState :=
  parseFiles isEdit (componentCount st) (generatedCode st)
    (fst (blocksOf isEdit st)).

Definition recoveredOf (enableTruncationRecovery : bool)
  (completion : Completion) (st : StreamState)
  : string * list string * list ProgressEvent :=
  recover enableTruncationRecovery completion (generatedCode st)
    (truncationWarningsOf (generatedCode st)).

Definition completeEvent (isEdit enableTruncationRecovery : bool)
  (completion : Completion) (st : StreamState) : ProgressEvent :=
  let recovered := recoveredOf enableTruncationRecovery completion st in
  EComplete (fst (fst recovered)) (explanationOf (generatedCode st))
    (List.length (files (parsedOf isEdit st))) (componentCount st)
    (nonEmpty (parsePackages (parsedOf isEdit st)))
    (nonEmpty (snd (fst recovered))).

(** Everything between the end of the loop and the complete event. *)
Definition afterStream (isEdit enableTruncationRecovery : bool)
  (completion : Completion) (st : StreamState) : list ProgressEvent :=
  flushConversation st +++ snd (blocksOf isEdit st)
  +++ parseEvents (parsedOf isEdit st)
  +++ snd (recoveredOf enableTruncationRecovery completion st)
  +++ [completeEvent isEdit enableTruncationRecovery completion st].

(** The [catch] of the background task. *)
Definition onError (message : string) : list ProgressEvent :=
  if JS.includes "tool call validation failed" message then
    [EWarning
       "Package installation tool encountered an issue. Packages will be detected from imports instead."
       None]
  else [EError message].

(** One request: the flag and the provider's behaviour. [streamError] is the
    message of the error the text stream throws after its last chunk, if it
    throws; [enableTruncationRecovery] is the value of
    [appConfig.codeApplication.enableTruncationRecovery]. *)
Record Session : Type := mkSession {
  isEdit : bool;
  chunks : list string;
  streamError : option string;
  enableTruncationRecovery : bool;
  completion : Completion
}.

(** The state the streaming loop ends in, and its events. *)
Definition streamed (ses : Session) : StreamState * list ProgressEvent :=
  streamLoop (isEdit ses) (chunks ses) initialState.

(** The events sent once the loop over the stream is left. *)
Definition postStream (ses : Session) : list ProgressEvent :=
  match streamError ses with
  | Some message => onError message
  | None =>
      afterStream (isEdit ses) (enableTruncationRecovery ses) (completion ses)
        (fst (streamed ses))
  end.

(** The events of a session, from the first chunk to the closing of the writer. *)
Definition run (ses : Session) : list ProgressEvent :=
  snd (streamed ses) +++ postStream ses.

(** *** Observations on a session *)

(** The names of the package events, in the order sent. *)
Definition packageNames (evs : list ProgressEvent) : list string :=
  flat_map (fun e => match e with EPackage name _ => [name] | _ => [] end) evs.

(** The record-completion events: component and app. *)
Definition isRecordCompleted (e : ProgressEvent) : bool :=
  match e with EComponent _ _ _ | EApp _ _ => true | _ => false end.
Definition recordCompleted (evs : list ProgressEvent) : list ProgressEvent :=
  filter isRecordCompleted evs.

Definition isComponentEvent (e : ProgressEvent) : bool :=
  match e with EComponent _ _ _ => true | _ => false end.

(** The terminal events: complete and error. *)
Definition isTerminal (e : ProgressEvent) : bool :=
  match e with EComplete _ _ _ _ _ _ | EError _ => true | _ => false end.

(** The notices: warning and info. *)
Definition isNotice (e : ProgressEvent) : bool :=
  match e with EWarning _ _ | EInfo _ => true | _ => false end.

Definition conversationTexts (evs : list ProgressEvent) : list string :=
  flat_map (fun e => match e with EConversation t => [t] | _ => [] end) evs.

(** The (path, content) pairs of [files]. *)
Definition extracted (ses : Session) : list (string * string) :=
  files (parsedOf (isEdit ses) (fst (streamed ses))).

(** [packagesToInstall] when the writer is closed. *)
Definition collected (ses : Session) : list string :=
  match streamError ses with
  | Some _ => packagesToInstall (fst (streamed ses))
  | None => parsePackages (parsedOf (isEdit ses) (fst (streamed ses)))
  end.

(** The names each of the three sources hands to the guarded push: the
    [<package>] tags found in the look-back text of each chunk, the names of
    the [<packages>] blocks, and the imports of the parsed files. *)
Definition offeredByTags (searchText : string) : list string :=
  flat_map (fun m => let packageName := JS.trim (group 1 m) in
                     if JS.truthy packageName then [packageName] else [])
    (execAll packageRegex searchText).

Fixpoint offeredInStream (cs : list string) (st : StreamState) : list string :=
  match cs with
  | [] => []
  | text :: rest =>
      offeredByTags (tagBuffer st ++ text)
      +++ offeredInStream rest (fst (ingest true st text))
  end.

Definition offeredInBlocks (code : string) : list string :=
  flat_map (fun m => packagesList (JS.trim (group 1 m)))
    (execAll packagesRegex code).

Definition offeredInFiles (code : string) : list string :=
  flat_map (fun m => extractPackagesFromCode (snd (pairOf m)))
    (execAll fileRegex code).

(** What an edit session declares: the last two sources are read only when
    the stream ends without an error. *)
Definition offered (ses : Session) : list string :=
  offeredInStream (chunks ses) initialState
  +++ match streamError ses with
      | Some _ => []
      | None =>
          offeredInBlocks (JS.concat (chunks ses))
          +++ offeredInFiles (JS.concat (chunks ses))
      end.

(** [generatedCode] after the first [k] iterations of the repair loop. *)
Definition repairedAfter (ses : Session) (k : nat) : string :=
  fst (repairLoop (completion ses) 0
         (firstn k (truncatedFilesOf (JS.concat (chunks ses))))
         (JS.concat (chunks ses))).

(** *** The words of the claims, as definitions of their own *)

(** [s] cut around the first occurrence of [w]: what stands before it and what
    stands after it. *)
Fixpoint cut (w s : string) : option (string * string) :=
  if JS.startsWith w s then Some ("", JS.drop (String.length w) s)
  else match s with
       | "" => None
       | String c s' =>
           match cut w s' with
           | Some (a, b) => Some (String c a, b)
           | None => None
           end
       end.

(** The content of the first block [open ... close] of [s], if it has one:
    from the first [open] to the first [close] after it. *)
Definition firstBlock (open close s : string) : option string :=
  match cut open s with
  | Some (_, rest) =>
      match cut close rest with
      | Some (body, _) => Some body
      | None => None
      end
  | None => None
  end.

(** What follows the first [close] of [t]; nothing when there is none. *)
Definition afterClose (close t : string) : string :=
  match cut close t with Some (_, b) => b | None => "" end.

(** The explanation as the claim words it. *)
Definition explanationSpec (code : string) : string :=
  match firstBlock "<explanation>" "</explanation>" code with
  | Some body => JS.trim body
  | None => "Code generated successfully!"
  end.

(** *** The invariant of the guarded push *)

(** [acc'] continues [acc]: names pushed at the end, one package event for
    each, and no name twice if there was none. *)
Definition Continues (message : string)
  (acc acc' : list string * list ProgressEvent) : Prop :=
  exists new,
    fst acc' = fst acc +++ new
    /\ snd acc' = snd acc +++ packageEvents message new
    /\ (NoDup (fst acc) -> NoDup (fst acc')).

End Route.

(** ** Sessions used as witnesses and counterexamples *)
Module Examples.
Import Regex Route.

Definition fileRecord (path body : string) : string :=
  openMarker path ++ body ++ "</file>".

Definition noAnswer : Completion := fun _ _ => None.
Definition answer (text : string) : Completion := fun _ _ => Some text.

Definition twoComponents : string :=
  fileRecord "src/components/A.jsx" "a" ++ fileRecord "src/components/B.jsx" "b".
Definition oneChunk : Session :=
  mkSession false [twoComponents] None true noAnswer.
Definition twoChunks : Session :=
  mkSession false [fileRecord "src/components/A.jsx" "a";
                   fileRecord "src/components/B.jsx" "b"] None true noAnswer.

Definition scenarioBText : string :=
  "Sure, here is your code: " ++ openMarker "x.txt".
Definition scenarioB : Session :=
  mkSession false [scenarioBText] None true (answer "repaired").
Definition unclosedNotice : string :=
  "Unclosed file tags detected: 1 open, 0 closed".

Definition oneComponent : Session :=
  mkSession false [fileRecord "src/components/A.jsx" "a"] None true noAnswer.

Definition blankExplanation : Session :=
  mkSession false ["<explanation> </explanation>"] None true noAnswer.

Definition directiveAndImport : Session :=
  mkSession true
    ["<package>lodash</pack";
     "age>" ++ fileRecord "src/App.jsx" "import _ from 'lodash'"]
    None true noAnswer.

Definition truncatedText : string :=
  fileRecord "a.txt" "kept" ++ openMarker "b.js" ++ "function f( {".
Definition failingRepair : Session :=
  mkSession false [truncatedText] None true noAnswer.
End Examples.

(** ** Arrays and letter case *)
Module JSArray.

(** [a.slice(-n)]: the last [n] elements, all of them when there are fewer. *)
Definition sliceLast {A : Type} (n : nat) (a : list A) : list A :=
  skipn (List.length a - n) a.

(** [[...new Set(a)]]: the first occurrence of each element, in order. *)
Definition unique (a : list string) : list string :=
  fold_left (fun seen x => if JS.arrayIncludes x seen then seen else seen +++ [x])
    a [].

(** The lower-case mapping below 256: A-Z, and the capital letters of the
    upper half but the multiplication sign. *)
Definition lowerChar (c : ascii) : ascii :=
  let n := nat_of_ascii c in
  if (Nat.leb 65 n && Nat.leb n 90) || (Nat.leb 192 n && Nat.leb n 214)
     || (Nat.leb 216 n && Nat.leb n 222)
  then ascii_of_nat (n + 32) else c.

(** [s.toLowerCase()]. *)
Fixpoint toLowerCase (s : string) : string :=
  match s with
  | "" => ""
  | String c s' => String (lowerChar c) (toLowerCase s')
  end.

(** Every character of [s] satisfies [p]. *)
Fixpoint allChars (p : ascii -> bool) (s : string) : bool :=
  match s with
  | "" => true
  | String c s' => p c && allChars p s'
  end.

End JSArray.

(** ** The conversation history

    [global.conversationState.context], with the fields the route reads:
    identifiers, time stamps, the confidence and the outcome of an edit are
    left out. *)
Module Conversation.
Import Regex Route JSArray.

Record ConversationMessage : Type := mkMessage {
  role : string;
  content : string;
  (* [metadata?.editedFiles] *)
  editedFiles : option (list string)
}.

Record ConversationEdit : Type := mkEdit {
  userRequest : string;
  editType : string;
  targetFiles : list string
}.

Record MajorChange : Type := mkChange {
  description : string;
  filesAffected : list string
}.

Record ConversationState : Type := mkConversation {
  messages : list ConversationMessage;
  edits : list ConversationEdit;
  majorChanges : list MajorChange
}.

(** *** analyzeUserPreferences *)

(** [\b(update|change|fix|modify|edit|remove|delete)\s+(\w+\s+)?(\w+)\b] *)
Definition targetedRegex : regex :=
  seqs [WordBoundary;
        Group 1 (alts [lit "update"; lit "change"; lit "fix"; lit "modify";
                       lit "edit"; lit "remove"; lit "delete"]);
        plus space;
        opt (Group 2 (seqs [plus word; plus space]));
        Group 3 (plus word);
        WordBoundary].

(** [\b(rebuild|recreate|redesign|overhaul|refactor)\b] *)
Definition comprehensiveRegex : regex :=
  seqs [WordBoundary;
        Group 1 (alts [lit "rebuild"; lit "recreate"; lit "redesign";
                       lit "overhaul"; lit "refactor"]);
        WordBoundary].

(** The counters and the array of the [forEach]. *)
Record Tally : Type := mkTally {
  targetedEditCount : nat;
  comprehensiveEditCount : nat;
  patterns : list string
}.

(** The labels one message pushes, in the order of the five tests. *)
Definition patternsOf (content : string) : list string :=
  (if JS.includes "hero" content then ["hero section edits"] else [])
  +++ (if JS.includes "header" content then ["header modifications"] else [])
  +++ (if JS.includes "color" content || JS.includes "style" content
       then ["styling changes"] else [])
  +++ (if JS.includes "button" content then ["button updates"] else [])
  +++ (if JS.includes "animation" content then ["animation requests"] else []).

(** The five labels, for the statements on the result. *)
Definition patternLabels : list string :=
  ["hero section edits"; "header modifications"; "styling changes";
   "button updates"; "animation requests"].

(** One call of the [forEach] callback. *)
Definition tally (t : Tally) (msg : ConversationMessage) : Tally :=
  let content := toLowerCase (content msg) in
  mkTally
    (if test targetedRegex content
     then S (targetedEditCount t) else targetedEditCount t)
    (if test comprehensiveRegex content
     then S (comprehensiveEditCount t) else comprehensiveEditCount t)
    (patterns t +++ patternsOf content).

Record UserPreferences : Type := mkPreferences {
  commonPatterns : list string;
  preferredEditStyle : string
}.

Definition isUser (msg : ConversationMessage) : bool :=
  String.eqb (role msg) "user".

Definition analyzeUserPreferences (messages : list ConversationMessage)
  : UserPreferences :=
  let userMessages := filter isUser messages in
  let t := fold_left tally userMessages (mkTally 0 0 []) in
  mkPreferences
    (firstn 3 (unique (patterns t)))
    (if Nat.ltb (comprehensiveEditCount t) (targetedEditCount t)
     then "targeted" else "comprehensive").

(** *** The start of a request *)

Definition emptyConversation : ConversationState := mkConversation [] [] [].

(** The message pushed for the prompt of the request. *)
Definition userMessage (prompt : string) : ConversationMessage :=
  mkMessage "user" prompt None.

(** The history once the request is received: the state is created when there
    is none, the message is pushed, and messages and edits are trimmed. *)
Definition receive (state : option ConversationState) (prompt : string)
  : ConversationState :=
  let st := match state with Some st => st | None => emptyConversation end in
  let pushed := messages st +++ [userMessage prompt] in
  mkConversation
    (if Nat.ltb 20 (List.length pushed) then sliceLast 15 pushed else pushed)
    (if Nat.ltb 10 (List.length (edits st)) then sliceLast 8 (edits st)
     else edits st)
    (majorChanges st).

(** *** The conversation context of the system prompt *)

(** What the route reads of [editContext]. *)
Record EditContext : Type := mkEditContext {
  intentType : string;
  intentDescription : string;
  primaryFiles : list string
}.

(** Two literals of the templates hold characters above 255, the arrow of an
    edit line and the sign before the list of files: the context is built for
    any two strings in their place. *)
Section Context.
Variables arrow sign : string.

(** [`- DQ${userRequest}DQ arrow ${editType} (${names})\n`], a name being
    [f.split('/').pop()]. *)
Definition editLine (edit : ConversationEdit) : string :=
  "- " ++ DQ ++ userRequest edit ++ DQ ++ " " ++ arrow ++ " " ++ editType edit
  ++ " ("
  ++ JS.join ", " (map (fun f => last (JS.split "/" f) "") (targetFiles edit))
  ++ ")" ++ NL.

(** [`- DQ${truncatedContent}DQ\n`] *)
Definition messageLine (msg : ConversationMessage) : string :=
  let truncatedContent :=
    if Nat.ltb 100 (String.length (content msg))
    then JS.take 100 (content msg) ++ "..." else content msg in
  "- " ++ DQ ++ truncatedContent ++ DQ ++ NL.

Definition truncationNote : string :=
  NL ++ "[Context truncated to prevent length errors]".

Definition conversationContextOf (st : ConversationState) : string :=
  if Nat.ltb 1 (List.length (messages st)) then
    let c0 := NL ++ NL ++ "## Conversation History (Recent)" ++ NL in
    let recentEdits := sliceLast 3 (edits st) in
    let c1 :=
      if Nat.ltb 0 (List.length recentEdits)
      then c0 ++ NL ++ "### Recent Edits:" ++ NL
           ++ JS.concat (map editLine recentEdits)
      else c0 in
    let recentMsgs := sliceLast 5 (messages st) in
    let recentlyCreatedFiles :=
      flat_map (fun msg => match editedFiles msg with
                           | Some fs => fs
                           | None => []
                           end) recentMsgs in
    let c2 :=
      if Nat.ltb 0 (List.length recentlyCreatedFiles)
      then c1 ++ NL ++ "### " ++ sign
           ++ " RECENTLY CREATED/EDITED FILES (DO NOT RECREATE THESE):" ++ NL
           ++ JS.concat (map (fun file => "- " ++ file ++ NL)
                           (unique recentlyCreatedFiles))
           ++ NL
           ++ "If the user mentions any of these components, UPDATE the existing file!"
           ++ NL
      else c1 in
    let c3 :=
      if Nat.ltb 2 (List.length recentMsgs)
      then c2 ++ NL ++ "### Recent Messages:" ++ NL
           ++ JS.concat (map messageLine (filter isUser (removelast recentMsgs)))
      else c2 in
    let recentChanges := sliceLast 2 (majorChanges st) in
    let c4 :=
      if Nat.ltb 0 (List.length recentChanges)
      then c3 ++ NL ++ "### Recent Changes:" ++ NL
           ++ JS.concat (map (fun change => "- " ++ description change ++ NL)
                           recentChanges)
      else c3 in
    let userPrefs := analyzeUserPreferences (messages st) in
    let c5 :=
      if Nat.ltb 0 (List.length (commonPatterns userPrefs))
      then c4 ++ NL ++ "### User Preferences:" ++ NL
           ++ "- Edit style: " ++ preferredEditStyle userPrefs ++ NL
      else c4 in
    if Nat.ltb 2000 (String.length c5)
    then JS.take 2000 c5 ++ truncationNote
    else c5
  else "".

End Context.

(** *** The end of a request *)

(** The bookkeeping after the complete event: [files] is the number of parsed
    files. *)
Definition track (isEdit : bool) (editContext : option EditContext)
  (prompt : string) (files : nat) (st : ConversationState)
  : ConversationState :=
  match editContext with
  | Some ec =>
      if isEdit then
        mkConversation (messages st)
          (edits st +++ [mkEdit prompt (intentType ec) (primaryFiles ec)])
          (if String.eqb (intentType ec) "ADD_FEATURE" || Nat.ltb 3 files
           then majorChanges st
                +++ [mkChange (intentDescription ec) (primaryFiles ec)]
           else majorChanges st)
      else st
  | None => st
  end.

(** One request as the history sees it: the prompt, the edit context found
    for it, and the session of its stream. *)
Record Request : Type := mkRequest {
  prompt : string;
  editContext : option EditContext;
  session : Session
}.

(** The history after the request. A request without a prompt is answered
    with status 400 after its message is pushed; the edit is tracked when the
    complete event was sent. *)
Definition serve (state : option ConversationState) (req : Request)
  : option ConversationState :=
  let st := receive state (prompt req) in
  if JS.truthy (prompt req) then
    match streamError (session req) with
    | None =>
        Some (track (isEdit (session req)) (editContext req) (prompt req)
                (List.length (extracted (session req))) st)
    | Some _ => Some st
    end
  else Some st.

End Conversation.

(** ** The keyword search of an edit

    What the route does for an edit when the manifest had to be fetched and
    the search plan names no term. *)
Module Fallback.
Import JSArray.

(** [allFilePaths.filter(p => p.toLowerCase().includes(keyword))] *)
Definition pathsWith (keyword : string) (allFilePaths : list string)
  : list string :=
  filter (fun p => JS.includes keyword (toLowerCase p)) allFilePaths.

(** The chain of tests on the prompt: the first keyword it names decides. *)
Definition keywordTargets (prompt : string) (allFilePaths : list string)
  : list string :=
  let promptLower := toLowerCase prompt in
  if JS.includes "hero" promptLower then pathsWith "hero" allFilePaths
  else if JS.includes "header" promptLower then pathsWith "header" allFilePaths
  else if JS.includes "footer" promptLower then pathsWith "footer" allFilePaths
  else if JS.includes "nav" promptLower then pathsWith "nav" allFilePaths
  else if JS.includes "button" promptLower then pathsWith "button" allFilePaths
  else [].

(** [targetFiles]: searched for only when the plan is missing or has no
    search term. *)
Definition targetFilesOf (planHasTerms : bool) (prompt : string)
  (allFilePaths : list string) : list string :=
  if planHasTerms then [] else keywordTargets prompt allFilePaths.

(** [Object.keys(manifest.files).filter(path => !targetFiles.includes(path))] *)
Definition contextFilesOf (targetFiles allFilePaths : list string)
  : list string :=
  filter (fun path => negb (JS.arrayIncludes path targetFiles)) allFilePaths.

(** The keywords of the chain, in its order. *)
Definition keywords : list string :=
  ["hero"; "header"; "footer"; "nav"; "button"].

End Fallback.

(** ** The choice of the provider *)
Module Provider.

Inductive Client : Type := Groq | Anthropic | OpenAI | Google.

Definition isAnthropic (model : string) : bool := JS.startsWith "anthropic/" model.
Definition isGoogle (model : string) : bool := JS.startsWith "google/" model.
Definition isOpenAI (model : string) : bool := JS.startsWith "openai/gpt-5" model.

(** The client of the generation. *)
Definition modelProvider (model : string) : Client :=
  if isAnthropic model then Anthropic
  else if isOpenAI model then OpenAI
  else if isGoogle model then Google
  else Groq.

(** The model name handed to that client. *)
Definition actualModel (model : string) : string :=
  if isAnthropic model then JS.removeFirst "anthropic/" model
  else if String.eqb model "openai/gpt-5" then "gpt-5"
  else if isGoogle model then JS.removeFirst "google/" model
  else model.

(** The client chosen for the follow-up call of a repair. *)
Definition completionClient (model : string) : Client :=
  if JS.includes "gpt" model || JS.includes "openai" model then OpenAI
  else if JS.includes "claude" model then Anthropic
  else Groq.

End Provider.

(** ** The follow-up call of a repair *)
Module FollowUp.
Import Route.

(** The identifiers the call expression of the repair reads, in the order of
    its evaluation:
    [streamText({ model: completionClient(modelMapping[model] || model),
                  messages: [..., { role: 'user', content: completionPrompt }],
                  temperature: isGPT5 ? undefined
                                      : appConfig.ai.defaultTemperature,
                  maxTokens: appConfig.ai.truncationRecoveryMaxTokens })]. *)
Definition reads : list string :=
  ["streamText"; "completionClient"; "modelMapping"; "model";
   "completionPrompt"; "isGPT5"; "appConfig"; "appConfig"].

(** Those of these names that are bound where the call stands: [streamText]
    and [appConfig] are imported, [model] is read from the request,
    [completionPrompt] and [completionClient] are declared in the [try] of the
    iteration. No import, declaration or parameter of the module is named
    [modelMapping] or [isGPT5]. *)
Definition bound : list string :=
  ["streamText"; "appConfig"; "model"; "completionPrompt"; "completionClient"].

(** Reading a name that is not bound throws a ReferenceError: the first such
    name the call expression reads, if there is one. *)
Definition unbound : option string :=
  find (fun name => negb (JS.arrayIncludes name bound)) reads.

(** What the iteration gets from its follow-up call: the answer of the
    provider when the call expression can be evaluated, and nothing when it
    throws, which happens before any request is made. *)
Definition followUp (provider : Completion) : Completion :=
  fun k filePath =>
    match unbound with
    | Some _ => None
    | None => provider k filePath
    end.

End FollowUp.

(** ** More observations on a session *)
Module Views.
Import Regex Route Examples.

(** The texts of the stream events, in the order sent. *)
Definition streamTexts (evs : list ProgressEvent) : list string :=
  flat_map (fun e => match e with EStream t => [t] | _ => [] end) evs.

(** The messages of the info events, in the order sent. *)
Definition infoMessages (evs : list ProgressEvent) : list string :=
  flat_map (fun e => match e with EInfo m => [m] | _ => [] end) evs.

Definition isNil {A : Type} (l : list A) : bool :=
  match l with [] => true | _ => false end.

(** The counters the component events carry, in the order sent. *)
Definition componentIndices (evs : list ProgressEvent) : list nat :=
  flat_map (fun e => match e with EComponent _ _ i => [i] | _ => [] end) evs.

(** A name as a packages block lists it: not empty, without white space
    around it, and free of the separators of the list. *)
Definition isPackageName (name : string) : bool :=
  JS.truthy name && String.eqb (JS.trim name) name
  && JSArray.allChars (fun c => negb (isListSeparator c)) name.

(** A name that can be handed to the installer: neither a relative nor an
    absolute path, without a slash, or with one slash after a scope. *)
Definition isInstallable (name : string) : bool :=
  negb (JS.startsWith "." name) && negb (JS.startsWith "/" name)
  && Nat.leb (JS.countChar "/" name) (if JS.startsWith "@" name then 1 else 0).

(** A name as a package tag holds it: not empty, without white space around
    it, and without the character that opens a tag. *)
Definition isTagName (name : string) : bool :=
  JS.truthy name && String.eqb (JS.trim name) name
  && negb (JS.includes "<" name).

(** White space that does not separate: what may follow a separator. *)
Definition isBlank (s : string) : bool :=
  JSArray.allChars (fun c => JS.isSpace c && negb (isListSeparator c)) s.

(** A file record as a well-formed answer writes it, with the text that
    stands before it. *)
Record Written : Type := mkWritten {
  leading : string;
  writtenPath : string;
  writtenBody : string
}.

(** A path the open marker can carry: not empty, without a double quote. *)
Definition isPath (filePath : string) : bool :=
  JS.truthy filePath && negb (JS.includes DQ filePath).

(** The text before the record holds no open marker, and its body no close
    marker. *)
Definition wellFormed (r : Written) : bool :=
  negb (JS.includes fileOpen (leading r)) && isPath (writtenPath r)
  && negb (JS.includes "</file>" (writtenBody r)).

(** The records one after the other, then [tail]. *)
Fixpoint document (records : list Written) (tail : string) : string :=
  match records with
  | [] => tail
  | r :: rest =>
      leading r ++ fileRecord (writtenPath r) (writtenBody r)
      ++ document rest tail
  end.

(** The pair the extractor is to find for a record. *)
Definition pairWritten (r : Written) : string * string :=
  (writtenPath r, JS.trim (writtenBody r)).

(** A text as a conversation event carries it. *)
Definition Trimmed (t : string) : Prop :=
  JS.truthy t = true /\ JS.trim t = t.

(** The events that announce what was found: package, component and app. *)
Definition isAnnouncement (e : ProgressEvent) : bool :=
  match e with
  | EPackage _ _ | EComponent _ _ _ | EApp _ _ => true
  | _ => false
  end.

(** A pattern that starts with the literal [w]: it fails where [w] is not. *)
Definition StartsWithLiteral (r : regex) (w : string) : Prop :=
  forall prev s caps k,
    JS.startsWith w s = false -> matchR r prev s caps k = None.

(** The result [x] comes from the continuation [k], called on what is left of
    [s] once a prefix of it is read. *)
Definition ReachesAfter (k : cont) (s : string) (x : string * captures)
  : Prop :=
  exists p pre s' c, s = pre ++ s' /\ k p s' c = Some x.

(** A pattern that matches only a text in which [w] occurs. *)
Definition Requires (r : regex) (w : string) : Prop :=
  forall prev s, JS.includes w s = false -> matchAt r prev s = None.

(** A match that reads at least one character. *)
Definition advances (m : Match) : Prop := 0 < String.length (matched m).

End Views.
(** ** More sessions and inputs used as witnesses *)
Module Inputs.
Import Route Examples Conversation FollowUp Views.

(** The truncated b.js of [failingRepair], with a provider that would answer
    every follow-up call. *)
Definition unrepaired : Session :=
  mkSession false [truncatedText] None true
    (followUp (answer "export default 1")).

(** A stream that breaks after its first chunk. *)
Definition brokenStream : Session :=
  mkSession false ["<file path="] (Some "network down") true noAnswer.

(** An answer without any file. *)
Definition plainAnswer : Session :=
  mkSession true ["Nothing to change: "; "the page is already blue."] None true
    (answer "unused").

(** An answer that wraps the file in a fence. *)
Definition fencedBefore : string := "Here is the file:" ++ NL.
Definition fencedCode : string := "export default 1" ++ NL.

(** A package tag cut inside its close marker. *)
Definition tagStart : string := "<package>axios</pack".
Definition tagEnd : string := "age>".

(** A chunk with a whole tag and more than fifty characters after it. *)
Definition tagsBefore : string :=
  "Adding <package>react-icons</package> for the icons "
  ++ "of the page and its footer. ".

(** Two records with text around them. *)
Definition twoWritten : list Written :=
  [mkWritten "Here you are. " "src/App.jsx" (NL ++ "export default App" ++ NL);
   mkWritten (NL ++ "and the styles: ") "src/index.css" "body { margin: 0 }"].
Definition written : Session :=
  mkSession false ["Here you are. <file pa";
                   JS.drop 22 (document twoWritten " Done.")]
    None true noAnswer.

Definition shouting : list ConversationMessage :=
  [mkMessage "user" "FIX the Hero" None].
Definition lowerCased : list ConversationMessage :=
  [mkMessage "user" "fix the hero" (Some ["src/components/Hero.jsx"])].

Definition secondRequest : option ConversationState :=
  Some (mkConversation [userMessage "make a page"] [] []).

End Inputs.

(** * Proofs *)

(** ** Strings: concatenation, prefixes, first occurrences *)
Module StringFacts.

Lemma append_nil_r (s : string) : s ++ "" = s.
Proof. induction s as [|c s IH]; simpl; [reflexivity | now rewrite IH]. Qed.

Lemma append_assoc (a b c : string) : (a ++ b) ++ c = a ++ b ++ c.
Proof. induction a as [|x a IH]; simpl; [reflexivity | now rewrite IH]. Qed.

Lemma length_append (a b : string) :
  String.length (a ++ b) = String.length a + String.length b.
Proof. induction a as [|x a IH]; simpl; [reflexivity | now rewrite IH]. Qed.

Lemma append_snoc (a : string) (c : ascii) (b : string) :
  (a ++ String c "") ++ b = a ++ String c b.
Proof. now rewrite append_assoc. Qed.

Lemma startsWith_append (w s : string) : JS.startsWith w (w ++ s) = true.
Proof.
  induction w as [|c w IH]; simpl; [reflexivity|].
  now rewrite Ascii.eqb_refl, IH.
Qed.

Lemma startsWith_split (w s : string) :
  JS.startsWith w s = true -> s = w ++ JS.drop (String.length w) s.
Proof.
  revert s; induction w as [|c w IH]; intros s H; simpl in *.
  - now destruct s.
  - destruct s as [|d s]; [discriminate|].
    apply andb_true_iff in H as [Hc Hw].
    apply Ascii.eqb_eq in Hc; subst d.
    simpl. f_equal. now apply IH.
Qed.

Lemma drop_append_length (w s : string) : JS.drop (String.length w) (w ++ s) = s.
Proof. induction w as [|c w IH]; simpl; [now destruct s | exact IH]. Qed.

Lemma take_append_length (w s : string) : JS.take (String.length w) (w ++ s) = w.
Proof. induction w as [|c w IH]; simpl; [now destruct s | now rewrite IH]. Qed.

Lemma drop_drop (n m : nat) (s : string) :
  JS.drop (n + m) s = JS.drop n (JS.drop m s).
Proof.
  revert s n; induction m as [|m IH]; intros s n.
  - rewrite Nat.add_0_r. now destruct s.
  - rewrite Nat.add_succ_r. destruct s as [|c s]; simpl.
    + now destruct n.
    + apply IH.
Qed.

Lemma drop_nil (n : nat) : JS.drop n "" = "".
Proof. now destruct n. Qed.

Lemma take_length_diff (a b : string) :
  JS.take (String.length (a ++ b) - String.length b) (a ++ b) = a.
Proof.
  rewrite length_append, Nat.add_sub. apply take_append_length.
Qed.

Lemma includes_cons_false (w : string) (c : ascii) (s : string) :
  JS.includes w (String c s) = false ->
  JS.startsWith w (String c s) = false /\ JS.includes w s = false.
Proof.
  unfold JS.includes. cbn [JS.indexOf].
  destruct (JS.startsWith w (String c s)); [discriminate|].
  destruct (JS.indexOf w s); [discriminate|]. auto.
Qed.

Lemma indexOf_here (w s : string) :
  JS.startsWith w s = true -> JS.indexOf w s = Some 0.
Proof. intros H. destruct s; cbn [JS.indexOf]; now rewrite H. Qed.

Lemma indexOf_later (w : string) (c : ascii) (s : string) :
  JS.startsWith w (String c s) = false ->
  JS.indexOf w (String c s) = option_map S (JS.indexOf w s).
Proof. intros H. cbn [JS.indexOf]. now rewrite H. Qed.

Lemma includes_append (w pre post : string) :
  JS.includes w (pre ++ w ++ post) = true.
Proof.
  unfold JS.includes. induction pre as [|c pre IH]; cbn [append].
  - now rewrite indexOf_here by apply startsWith_append.
  - destruct (JS.startsWith w (String c (pre ++ w ++ post))) eqn:E.
    + now rewrite indexOf_here.
    + rewrite indexOf_later by assumption.
      destruct (JS.indexOf w (pre ++ w ++ post)); [reflexivity | discriminate].
Qed.

End StringFacts.

(** ** The matcher on literals and on the lazy star *)
Module RegexFacts.
Import Regex StringFacts.

Lemma matchR_lit (w : string) :
  forall prev s caps k,
    matchR (lit w) prev s caps k =
    if JS.startsWith w s
    then k (lastChar prev w) (JS.drop (String.length w) s) caps
    else None.
Proof.
  induction w as [|c w IH]; intros prev s caps k.
  - simpl. now destruct s.
  - cbn [lit matchR]. destruct s as [|d s]; [reflexivity|].
    cbn [JS.startsWith lastChar String.length JS.drop].
    destruct (Ascii.eqb_spec c d) as [->|_]; [apply IH | reflexivity].
Qed.

Lemma starLoop_lazy_any (k : cont) :
  forall s fuel prev caps,
    String.length s <= fuel ->
    starLoop (matchR anyChar) false k fuel prev s caps = lazyScan k prev s caps.
Proof.
  induction s as [|c s IH]; intros fuel prev caps Hfuel.
  - destruct fuel; cbn [starLoop lazyScan]; destruct (k prev "" caps); reflexivity.
  - destruct fuel as [|fuel]; [simpl in Hfuel; lia|].
    cbn [starLoop lazyScan]. destruct (k prev (String c s) caps); [reflexivity|].
    cbn [anyChar matchR]. cbn [String.length].
    rewrite (proj2 (Nat.ltb_lt _ _)) by lia.
    apply IH. simpl in Hfuel. lia.
Qed.

Lemma matchR_lazy_any (prev : option ascii) (s : string) (caps : captures)
  (k : cont) :
  matchR (lazyStar anyChar) prev s caps k = lazyScan k prev s caps.
Proof. unfold lazyStar. cbn [matchR]. now apply starLoop_lazy_any. Qed.

(** **** A match reads a suffix, and the star never lacks fuel *)

Lemma starLoop_reaches (body : option ascii -> string -> captures -> cont -> result)
  (greedy : bool) (k : cont) :
  (forall prev s caps k' x,
      body prev s caps k' = Some x -> Reaches false k' s x) ->
  forall fuel prev s caps x,
    starLoop body greedy k fuel prev s caps = Some x -> Reaches false k s x.
Proof.
  intros Hbody. induction fuel as [|fuel IH]; intros prev s caps x H.
  - cbn [starLoop] in H. exists prev, s, caps. split; [apply Nat.le_refl | exact H].
  - cbn [starLoop] in H.
    assert (Hstop : k prev s caps = Some x -> Reaches false k s x)
      by (intros E; exists prev, s, caps; split; [apply Nat.le_refl | exact E]).
    assert (Hmore :
              body prev s caps
                (fun prev' s' caps' =>
                   if Nat.ltb (String.length s') (String.length s)
                   then starLoop body greedy k fuel prev' s' caps' else None)
              = Some x -> Reaches false k s x).
    { intros E. apply Hbody in E. destruct E as (p & s' & c & Hlen & E).
      destruct (Nat.ltb_spec (String.length s') (String.length s)); [|discriminate].
      apply IH in E. destruct E as (p' & s'' & c' & Hlen' & E).
      exists p', s'', c'. cbn in *. split; [lia | exact E]. }
    destruct greedy.
    + destruct (body prev s caps _) eqn:E; [injection H as ->; auto | auto].
    + destruct (k prev s caps) eqn:E; [injection H as ->; auto | auto].
Qed.

Lemma matchR_reaches (r : regex) :
  forall prev s caps k x,
    matchR r prev s caps k = Some x -> Reaches false k s x.
Proof.
  induction r as [|p|r1 IH1 r2 IH2|r1 IH1 r2 IH2|g r1 IH1|i r1 IH1| |];
    intros prev s caps k x H; cbn [matchR] in H.
  - exists prev, s, caps. split; [apply Nat.le_refl | exact H].
  - destruct s as [|c s]; [discriminate|]. destruct (p c); [|discriminate].
    exists (Some c), s, caps. cbn. split; [lia | exact H].
  - apply IH1 in H. destruct H as (p & s' & c & Hlen & H).
    apply IH2 in H. destruct H as (p' & s'' & c' & Hlen' & H).
    exists p', s'', c'. cbn in *. split; [lia | exact H].
  - destruct (matchR r1 prev s caps k) eqn:E.
    + injection H as ->. now apply IH1 in E.
    + now apply IH2 in H.
  - now apply (starLoop_reaches _ _ _ IH1) in H.
  - apply IH1 in H. destruct H as (p & s' & c & Hlen & H).
    exists p, s', ((i, JS.take (String.length s - String.length s') s) :: c).
    split; assumption.
  - destruct (xorb _ _); [|discriminate].
    exists prev, s, caps. split; [apply Nat.le_refl | exact H].
  - destruct s; [|discriminate].
    exists prev, "", caps. split; [apply Nat.le_refl | exact H].
Qed.

Lemma matchR_consumes (r : regex) :
  consuming r = true ->
  forall prev s caps k x,
    matchR r prev s caps k = Some x -> Reaches true k s x.
Proof.
  induction r as [|p|r1 IH1 r2 IH2|r1 IH1 r2 IH2|g r1 IH1|i r1 IH1| |];
    intros Hc prev s caps k x H; cbn [consuming] in Hc; try discriminate;
    cbn [matchR] in H.
  - destruct s as [|c s]; [discriminate|]. destruct (p c); [|discriminate].
    exists (Some c), s, caps. cbn. split; [lia | exact H].
  - destruct (consuming r1) eqn:E1.
    + apply (IH1 eq_refl) in H. destruct H as (p & s' & c & Hlen & H).
      apply matchR_reaches in H. destruct H as (p' & s'' & c' & Hlen' & H).
      exists p', s'', c'. cbn in *. split; [lia | exact H].
    + apply matchR_reaches in H. destruct H as (p & s' & c & Hlen & H).
      apply (IH2 Hc) in H. destruct H as (p' & s'' & c' & Hlen' & H).
      exists p', s'', c'. cbn in *. split; [lia | exact H].
  - apply andb_true_iff in Hc as [Hc1 Hc2].
    destruct (matchR r1 prev s caps k) eqn:E.
    + injection H as ->. now apply (IH1 Hc1) in E.
    + now apply (IH2 Hc2) in H.
  - apply (IH1 Hc) in H. destruct H as (p & s' & c & Hlen & H).
    exists p, s', ((i, JS.take (String.length s - String.length s') s) :: c).
    split; assumption.
Qed.

Lemma matchAt_consumes (r : regex) (prev : option ascii) (s rest : string)
  (caps : captures) :
  consuming r = true ->
  matchAt r prev s = Some (rest, caps) ->
  String.length rest < String.length s.
Proof.
  intros Hc H. apply (matchR_consumes r Hc) in H.
  destruct H as (p & s' & c & Hlen & H). unfold accept in H.
  injection H as <- _. exact Hlen.
Qed.

Lemma length_take (n : nat) :
  forall s, n <= String.length s -> String.length (JS.take n s) = n.
Proof.
  induction n as [|n IH]; intros s H; [now destruct s|].
  destruct s as [|c s]; [simpl in H; lia|].
  cbn [JS.take String.length]. rewrite IH; [reflexivity | simpl in H; lia].
Qed.

Lemma execAll_nonempty (r : regex) :
  consuming r = true ->
  forall s bef prev skip m,
    In m (execAllFrom r bef prev s skip) -> 0 < String.length (matched m).
Proof.
  intros Hc. induction s as [|c s IH]; intros bef prev skip m Hin.
  - destruct skip; cbn [execAllFrom] in Hin; [|contradiction].
    destruct (matchAt r prev "") as [[rest caps]|] eqn:E; [|contradiction].
    apply (matchAt_consumes r _ _ _ _ Hc) in E. simpl in E. lia.
  - destruct skip as [|n]; cbn [execAllFrom] in Hin.
    + destruct (matchAt r prev (String c s)) as [[rest caps]|] eqn:E.
      * destruct Hin as [<-|Hin]; [|now apply IH in Hin].
        apply (matchAt_consumes r _ _ _ _ Hc) in E.
        unfold mkMatchAt. cbn [matched]. rewrite length_take; lia.
      * now apply IH in Hin.
    + now apply IH in Hin.
Qed.

(** A continuation that always fails makes the match fail. *)
Lemma matchR_fails (r : regex) :
  forall prev s caps, matchR r prev s caps (fun _ _ _ => None) = None.
Proof.
  intros prev s caps.
  destruct (matchR r prev s caps (fun _ _ _ => None)) as [x|] eqn:E; [|reflexivity].
  apply matchR_reaches in E. destruct E as (p & s' & c & _ & E). discriminate.
Qed.

(** Two continuations that agree on the suffixes of the input give the same
    match. *)
Lemma starLoop_ext (body : option ascii -> string -> captures -> cont -> result)
  (greedy : bool) :
  (forall prev s caps k1 k2,
      (forall p s' c, String.length s' <= String.length s -> k1 p s' c = k2 p s' c) ->
      body prev s caps k1 = body prev s caps k2) ->
  forall fuel prev s caps k1 k2,
    (forall p s' c, String.length s' <= String.length s -> k1 p s' c = k2 p s' c) ->
    starLoop body greedy k1 fuel prev s caps = starLoop body greedy k2 fuel prev s caps.
Proof.
  intros Hbody. induction fuel as [|fuel IH]; intros prev s caps k1 k2 Hk;
    cbn [starLoop].
  - apply Hk, Nat.le_refl.
  - rewrite (Hk prev s caps (Nat.le_refl _)).
    rewrite (Hbody prev s caps _
               (fun prev' s' caps' =>
                  if Nat.ltb (String.length s') (String.length s)
                  then starLoop body greedy k2 fuel prev' s' caps' else None)).
    + reflexivity.
    + intros p s' c Hlen.
      destruct (Nat.ltb_spec (String.length s') (String.length s)); [|reflexivity].
      apply IH. intros p' s'' c' Hlen'. apply Hk. lia.
Qed.

Lemma matchR_ext (r : regex) :
  forall prev s caps k1 k2,
    (forall p s' c, String.length s' <= String.length s -> k1 p s' c = k2 p s' c) ->
    matchR r prev s caps k1 = matchR r prev s caps k2.
Proof.
  induction r as [|p|r1 IH1 r2 IH2|r1 IH1 r2 IH2|g r1 IH1|i r1 IH1| |];
    intros prev s caps k1 k2 Hk; cbn [matchR].
  - apply Hk, Nat.le_refl.
  - destruct s as [|c s]; [reflexivity|]. destruct (p c); [|reflexivity].
    apply Hk. simpl. lia.
  - apply IH1. intros p s' c Hlen. apply IH2.
    intros p' s'' c' Hlen'. apply Hk. lia.
  - now rewrite (IH1 prev s caps k1 k2 Hk), (IH2 prev s caps k1 k2 Hk).
  - now apply starLoop_ext.
  - apply IH1. intros p s' c Hlen. now apply Hk.
  - destruct (xorb _ _); [apply Hk, Nat.le_refl | reflexivity].
  - destruct s; [apply Hk, Nat.le_refl | reflexivity].
Qed.

(** More fuel than characters changes nothing. *)
Lemma star_fuel_enough (r : regex) (greedy : bool) (k : cont) :
  forall n s fuel prev caps,
    String.length s <= n -> String.length s <= fuel ->
    starLoop (matchR r) greedy k fuel prev s caps
    = starLoop (matchR r) greedy k (String.length s) prev s caps.
Proof.
  induction n as [|n IH]; intros s fuel prev caps Hn Hfuel.
  - destruct s; [|simpl in Hn; lia]. destruct fuel as [|fuel]; [reflexivity|].
    cbn [String.length starLoop].
    rewrite (matchR_ext r prev "" caps _ (fun _ _ _ => None)) by reflexivity.
    rewrite matchR_fails. destruct greedy; [reflexivity|].
    now destruct (k prev "" caps).
  - destruct s as [|c s].
    + apply (IH "" fuel prev caps); simpl; lia.
    + destruct fuel as [|fuel]; [simpl in Hfuel; lia|].
      cbn [String.length starLoop].
      rewrite (matchR_ext r prev (String c s) caps _
                 (fun prev' s' caps' =>
                    if Nat.ltb (String.length s') (String.length (String c s))
                    then starLoop (matchR r) greedy k (String.length s) prev' s' caps'
                    else None)).
      * reflexivity.
      * intros p s' c' Hlen. cbn [String.length] in *.
        destruct (Nat.ltb_spec (String.length s') (S (String.length s)));
          [|reflexivity].
        rewrite (IH s' fuel) by lia. rewrite (IH s' (String.length s)) by lia.
        reflexivity.
Qed.

End RegexFacts.

(** ** Blocks: a literal, a lazy filler, a literal *)
Module CutFacts.
Import Regex Route StringFacts RegexFacts.

Lemma cut_here (w s : string) :
  JS.startsWith w s = true -> cut w s = Some ("", JS.drop (String.length w) s).
Proof. intros H. destruct s; cbn [cut]; now rewrite H. Qed.

Lemma cut_later (w : string) (c : ascii) (s : string) :
  JS.startsWith w (String c s) = false ->
  cut w (String c s) =
  match cut w s with Some (a, b) => Some (String c a, b) | None => None end.
Proof. intros H. cbn [cut]. now rewrite H. Qed.

Lemma cut_split (w : string) :
  forall s a b, cut w s = Some (a, b) -> s = a ++ w ++ b.
Proof.
  induction s as [|c s IH]; intros a b H.
  - cbn [cut] in H. destruct (JS.startsWith w "") eqn:E; [|discriminate].
    injection H as <- <-. now apply startsWith_split.
  - destruct (JS.startsWith w (String c s)) eqn:E.
    + rewrite cut_here in H by assumption. injection H as <- <-.
      now apply startsWith_split.
    + rewrite cut_later in H by assumption.
      destruct (cut w s) as [[a' b']|] eqn:E'; [|discriminate].
      injection H as <- <-. simpl. f_equal. now apply IH.
Qed.

Lemma cut_rest (w s a b : string) :
  cut w s = Some (a, b) -> b = JS.drop (String.length w + String.length a) s.
Proof.
  intros H. apply cut_split in H. subst s.
  now rewrite drop_drop, !drop_append_length.
Qed.

Lemma cut_none_tail (w : string) (c : ascii) (s : string) :
  cut w (String c s) = None -> cut w s = None.
Proof.
  intros H. destruct (JS.startsWith w (String c s)) eqn:E.
  - now rewrite cut_here in H.
  - rewrite cut_later in H by assumption.
    now destruct (cut w s) as [[a b]|].
Qed.

Lemma cut_none_drop (w : string) :
  forall n s, cut w s = None -> cut w (JS.drop n s) = None.
Proof.
  induction n as [|n IH]; intros s H.
  - now destruct s.
  - destruct s as [|c s]; [exact H|]. simpl. apply IH.
    now apply cut_none_tail in H.
Qed.

Lemma cut_of_indexOf (w b : string) :
  forall a, JS.indexOf w (a ++ w ++ b) = Some (String.length a) ->
            cut w (a ++ w ++ b) = Some (a, b).
Proof.
  induction a as [|c a IH]; intros H; cbn [append] in *.
  - rewrite cut_here by apply startsWith_append.
    now rewrite drop_append_length.
  - destruct (JS.startsWith w (String c (a ++ w ++ b))) eqn:E.
    + rewrite indexOf_here in H by assumption. discriminate.
    + rewrite indexOf_later in H by assumption.
      rewrite cut_later by assumption.
      destruct (JS.indexOf w (a ++ w ++ b)) as [i|] eqn:Ei; [|discriminate].
      simpl in H. injection H as ->. now rewrite IH.
Qed.

Lemma cut_of_not_includes (w s : string) :
  JS.includes w s = false -> cut w s = None.
Proof.
  induction s as [|c s IH]; intros H.
  - unfold JS.includes in H. cbn [JS.indexOf cut] in *.
    now destruct (JS.startsWith w "").
  - apply includes_cons_false in H as [H1 H2].
    rewrite cut_later by assumption. now rewrite IH.
Qed.

Lemma lazyScan_capture (i : nat) (c t0 : string) :
  forall t done prev caps,
    t0 = done ++ t ->
    lazyScan
      (fun prev' s' caps' =>
         matchR (lit c) prev' s'
           ((i, JS.take (String.length t0 - String.length s') t0) :: caps')
           accept)
      prev t caps
    = match cut c t with
      | Some (a, b) => Some (b, (i, done ++ a) :: caps)
      | None => None
      end.
Proof.
  induction t as [|ch t IH]; intros done prev caps E.
  - cbn [lazyScan]. rewrite matchR_lit. cbn [cut].
    destruct (JS.startsWith c "") eqn:Ec; [|reflexivity].
    unfold accept. subst t0. rewrite take_length_diff.
    now rewrite append_nil_r.
  - cbn [lazyScan]. rewrite matchR_lit.
    destruct (JS.startsWith c (String ch t)) eqn:Ec.
    + rewrite cut_here by assumption. unfold accept.
      subst t0. rewrite take_length_diff. now rewrite append_nil_r.
    + rewrite cut_later by assumption.
      rewrite (IH (done ++ String ch "")) by now rewrite append_snoc.
      destruct (cut c t) as [[a b]|]; [|reflexivity].
      now rewrite append_snoc.
Qed.

Lemma matchAt_block (open close : string) (prev : option ascii) (s : string) :
  matchAt (blockRegex open close) prev s =
  if JS.startsWith open s then
    match cut close (JS.drop (String.length open) s) with
    | Some (a, b) => Some (b, [(1, a)])
    | None => None
    end
  else None.
Proof.
  unfold matchAt, blockRegex. cbn [seqs matchR]. rewrite matchR_lit.
  destruct (JS.startsWith open s); [|reflexivity].
  cbn [matchR]. rewrite matchR_lazy_any.
  exact (lazyScan_capture 1 close _ _ "" _ [] eq_refl).
Qed.

Lemma search_block (open close : string) :
  forall s bef prev,
    option_map (group 1) (searchFrom (blockRegex open close) bef prev s)
    = firstBlock open close s.
Proof.
  unfold firstBlock.
  induction s as [|ch s IH]; intros bef prev.
  - cbn [searchFrom]. rewrite matchAt_block. cbn [cut].
    destruct (JS.startsWith open ""); [|reflexivity].
    destruct (cut close _) as [[a b]|]; reflexivity.
  - cbn [searchFrom]. rewrite matchAt_block.
    destruct (JS.startsWith open (String ch s)) eqn:Eo.
    + rewrite (cut_here open) by assumption.
      destruct (cut close (JS.drop (String.length open) (String ch s)))
        as [[a b]|] eqn:Ec; [reflexivity|].
      rewrite IH.
      destruct (cut open s) as [[a' rest]|] eqn:Eo'; [|reflexivity].
      apply cut_rest in Eo'. subst rest.
      destruct open as [|o open'].
      * apply cut_none_tail in Ec. cbn [JS.drop] in Ec.
        rewrite (cut_none_drop close _ s); [reflexivity|].
        now destruct s.
      * cbn [String.length JS.drop] in Ec.
        replace (String.length (String o open') + String.length a')
          with (S (String.length a') + String.length open')
          by (cbn [String.length]; lia).
        rewrite drop_drop. now rewrite cut_none_drop.
    + rewrite cut_later by assumption. rewrite IH.
      destruct (cut open s) as [[a' rest]|]; reflexivity.
Qed.

(** The patterns the route iterates over or replaces read at least one
    character: their loops advance [lastIndex] at every match. *)
Lemma route_patterns_consume :
  consuming packageRegex = true /\ consuming packagesRegex = true
  /\ consuming importRegex = true /\ consuming fileRegex = true
  /\ consuming truncationCheckRegex = true
  /\ consuming (lit fileOpen) = true /\ consuming (lit "</file>") = true
  /\ forall filePath, consuming (filePattern filePath) = true.
Proof. repeat split. Qed.

End CutFacts.

(** ** The explanation, the replacement of a file span, the repair loop *)
Module RepairFacts.
Import Regex Route StringFacts RegexFacts CutFacts.

Lemma explanationOf_spec (code : string) :
  explanationOf code = explanationSpec code.
Proof.
  unfold explanationOf, explanationSpec, search.
  rewrite <- (search_block "<explanation>" "</explanation>" code "" None).
  change explanationRegex with (blockRegex "<explanation>" "</explanation>").
  now destruct (searchFrom _ _ _ _).
Qed.

Lemma lazyScan_close (close : string) :
  forall t prev caps,
    lazyScan (fun prev' s' caps' =>
                matchR (alts [lit close; EndOfInput]) prev' s' caps' accept)
      prev t caps
    = Some (afterClose close t, caps).
Proof.
  unfold afterClose.
  induction t as [|ch t IH]; intros prev caps.
  - cbn [lazyScan alts matchR]. rewrite matchR_lit. cbn [cut].
    destruct (JS.startsWith close ""); reflexivity.
  - cbn [lazyScan alts matchR]. rewrite matchR_lit.
    destruct (JS.startsWith close (String ch t)) eqn:E.
    + now rewrite cut_here.
    + rewrite cut_later by assumption. rewrite IH.
      now destruct (cut close t) as [[a b]|].
Qed.

Lemma matchAt_filePattern (filePath : string) (prev : option ascii) (s : string) :
  matchAt (filePattern filePath) prev s =
  if JS.startsWith (openMarker filePath) s
  then Some (afterClose "</file>"
               (JS.drop (String.length (openMarker filePath)) s), [])
  else None.
Proof.
  unfold matchAt, filePattern. cbn [seqs matchR]. rewrite matchR_lit.
  destruct (JS.startsWith (openMarker filePath) s); [|reflexivity].
  rewrite matchR_lazy_any. apply lazyScan_close.
Qed.

Lemma openMarker_cons (filePath : string) :
  exists c w, openMarker filePath = String c w.
Proof. unfold openMarker, fileOpen. simpl. eauto. Qed.

Section Replace.
Variables (filePath repl : string).
Local Abbreviation r := (filePattern filePath).
Local Abbreviation marker := (openMarker filePath).

Lemma startsWith_marker_nil : JS.startsWith marker "" = false.
Proof.
  destruct (openMarker_cons filePath) as (c & w & ->).
  reflexivity.
Qed.

(** Text without the marker is copied. *)
Lemma replaceAll_copy :
  forall post bef prev,
    JS.includes marker post = false ->
    replaceAllFrom r repl bef prev post 0 = post.
Proof.
  induction post as [|c post IH]; intros bef prev H.
  - cbn [replaceAllFrom]. rewrite matchAt_filePattern.
    now rewrite startsWith_marker_nil.
  - apply includes_cons_false in H as [H1 H2].
    cbn [replaceAllFrom]. rewrite matchAt_filePattern.
    rewrite H1. f_equal. now apply IH.
Qed.

(** The characters of a match are passed over. *)
Lemma replaceAll_skip :
  forall m rest bef prev,
    replaceAllFrom r repl bef prev (m ++ rest) (String.length m)
    = replaceAllFrom r repl (bef ++ m) (lastChar prev m) rest 0.
Proof.
  induction m as [|c m IH]; intros rest bef prev.
  - cbn [String.length append lastChar]. now rewrite append_nil_r.
  - cbn [String.length append lastChar replaceAllFrom].
    rewrite IH. now rewrite append_snoc.
Qed.

(** Text before the first marker is copied. *)
Lemma replaceAll_prefix :
  forall pre s bef prev,
    JS.indexOf marker (pre ++ s) = Some (String.length pre) ->
    replaceAllFrom r repl bef prev (pre ++ s) 0
    = pre ++ replaceAllFrom r repl (bef ++ pre) (lastChar prev pre) s 0.
Proof.
  induction pre as [|c pre IH]; intros s bef prev H.
  - cbn [append lastChar]. now rewrite append_nil_r.
  - cbn [append] in *.
    destruct (JS.startsWith marker (String c (pre ++ s))) eqn:E.
    + rewrite indexOf_here in H by assumption. discriminate.
    + rewrite indexOf_later in H by assumption.
      destruct (JS.indexOf marker (pre ++ s)) as [i|] eqn:Ei; [|discriminate].
      injection H as ->.
      cbn [replaceAllFrom lastChar]. rewrite matchAt_filePattern.
      rewrite E. f_equal.
      rewrite IH by assumption. now rewrite append_snoc.
Qed.

(** One match at the front, and no marker after it. *)
Lemma replaceAll_match :
  forall body rest bef prev,
    afterClose "</file>" body = rest ->
    (exists m, marker ++ body = m ++ rest) ->
    JS.includes marker rest = false ->
    replaceAllFrom r repl bef prev (marker ++ body) 0
    = expand repl (mkMatchAt bef (marker ++ body) rest []) ++ rest.
Proof.
  intros body rest bef prev Hclose [m Hm] Hrest.
  assert (Hat : matchAt r prev (marker ++ body) = Some (rest, [])).
  { rewrite matchAt_filePattern. rewrite startsWith_append, drop_append_length. now rewrite Hclose. }
  destruct m as [|c m].
  - (* the match cannot be empty: the marker is part of it *)
    cbn [append] in Hm. exfalso.
    pose proof (includes_append marker "" body) as Hin.
    cbn [append] in Hin. rewrite Hm in Hin. congruence.
  - cbn [append] in Hm. rewrite Hm in *.
    cbn [replaceAllFrom]. rewrite Hat. f_equal.
    cbn [String.length].
    replace (S (String.length (m ++ rest)) - String.length rest)
      with (S (String.length m)) by (rewrite length_append; lia).
    rewrite replaceAll_skip. now apply replaceAll_copy.
Qed.

End Replace.

Lemma expand_plain (repl : string) (m : Match) :
  JS.includes "$" repl = false -> expand repl m = repl.
Proof.
  induction repl as [|c repl IH]; intros H; [reflexivity|].
  apply includes_cons_false in H as [H1 H2].
  cbn [expand]. cbn [JS.startsWith] in H1.
  rewrite Ascii.eqb_sym. destruct (Ascii.eqb "$" c); [discriminate|].
  now rewrite IH.
Qed.

Lemma afterClose_closed (body post : string) :
  JS.indexOf "</file>" (body ++ "</file>" ++ post) = Some (String.length body) ->
  afterClose "</file>" (body ++ "</file>" ++ post) = post.
Proof. intros H. unfold afterClose. now rewrite cut_of_indexOf. Qed.

Lemma afterClose_unclosed (body : string) :
  JS.includes "</file>" body = false -> afterClose "</file>" body = "".
Proof. intros H. unfold afterClose. now rewrite cut_of_not_includes. Qed.

(** The general form of the repair: the text before the first marker is
    kept, one span is replaced, and what follows it is kept when it holds no
    further marker. *)
Lemma replaceFile_frame (filePath cleanContent pre body rest matched : string) :
  JS.indexOf (openMarker filePath) (pre ++ openMarker filePath ++ body)
  = Some (String.length pre) ->
  afterClose "</file>" body = rest ->
  openMarker filePath ++ body = matched ++ rest ->
  JS.includes (openMarker filePath) rest = false ->
  replaceFile filePath cleanContent (pre ++ openMarker filePath ++ body)
  = pre ++ expand (replacement filePath cleanContent)
             (mkMatch pre matched [] rest) ++ rest.
Proof.
  intros Hpre Hclose Hm Hrest. unfold replaceFile, replaceAll.
  rewrite replaceAll_prefix by assumption. cbn [append]. f_equal.
  rewrite (replaceAll_match filePath _ body rest) by eauto.
  unfold mkMatchAt. rewrite Hm, take_length_diff. reflexivity.
Qed.

(** **** The repair loop *)

Lemma repairLoop_snoc completion :
  forall truncatedFiles k filePath code,
    repairLoop completion k (truncatedFiles +++ [filePath]) code
    = let done := repairLoop completion k truncatedFiles code in
      let step :=
        repairFile (completion (k + List.length truncatedFiles) filePath)
          filePath (fst done) in
      (fst step, snd done +++ snd step).
Proof.
  induction truncatedFiles as [|p rest IH]; intros k filePath code.
  - cbn [app repairLoop List.length fst snd]. rewrite Nat.add_0_r.
    now rewrite app_nil_r.
  - cbn [app repairLoop List.length fst snd]. rewrite IH.
    cbn zeta. cbn [fst snd]. rewrite Nat.add_succ_r, <- app_assoc.
    reflexivity.
Qed.

Lemma firstn_succ_nth {A : Type} :
  forall (l : list A) (k : nat) (x : A),
    nth_error l k = Some x ->
    firstn (S k) l = firstn k l +++ [x] /\ List.length (firstn k l) = k.
Proof.
  induction l as [|y l IH]; intros [|k] x H; try discriminate.
  - injection H as ->. auto.
  - cbn [nth_error] in H. destruct (IH k x H) as [E L].
    cbn [firstn app List.length]. cbn [firstn] in E. rewrite E, L. auto.
Qed.

Lemma repairLoop_warns completion :
  forall truncatedFiles k0 k filePath code,
    nth_error truncatedFiles k = Some filePath ->
    completion (k0 + k) filePath = None ->
    In (EWarning ("Could not auto-complete " ++ filePath
                  ++ ". Manual review may be needed.") None)
      (snd (repairLoop completion k0 truncatedFiles code)).
Proof.
  induction truncatedFiles as [|p rest IH]; intros k0 [|k] filePath code Hn Hc;
    try discriminate; cbn [repairLoop snd]; apply in_or_app.
  - injection Hn as ->. rewrite Nat.add_0_r in Hc. rewrite Hc.
    left. cbn [repairFile snd]. right. left. reflexivity.
  - right. apply (IH (S k0) k); [exact Hn|].
    now rewrite Nat.add_succ_comm.
Qed.

(** **** Repairs that all fail *)

Lemma repairLoop_all_fail (completion : Completion) :
  (forall k filePath, completion k filePath = None) ->
  forall truncatedFiles k code,
    fst (repairLoop completion k truncatedFiles code) = code.
Proof.
  intros H. induction truncatedFiles as [|filePath rest IH]; intros k code;
    [reflexivity|].
  cbn [repairLoop fst]. rewrite IH, H. reflexivity.
Qed.

Lemma recover_all_fail (completion : Completion) (enable : bool)
  (code : string) (warnings : list string) :
  (forall k filePath, completion k filePath = None) ->
  fst (fst (recover enable completion code warnings)) = code.
Proof.
  intros H. unfold recover.
  destruct warnings; [reflexivity|]. destruct enable; [|reflexivity].
  destruct (truncatedFilesOf code) eqn:E; [reflexivity|].
  cbn [fst]. now apply repairLoop_all_fail.
Qed.

Lemma repairLoop_warns_all (completion : Completion) :
  (forall k filePath, completion k filePath = None) ->
  forall truncatedFiles k code,
    Forall (fun filePath =>
              In (EWarning ("Could not auto-complete " ++ filePath
                            ++ ". Manual review may be needed.") None)
                (snd (repairLoop completion k truncatedFiles code)))
      truncatedFiles.
Proof.
  intros H truncatedFiles k code. apply Forall_forall. intros filePath Hin.
  apply In_nth_error in Hin as [n Hn].
  apply (repairLoop_warns completion truncatedFiles k n filePath code Hn).
  apply H.
Qed.

End RepairFacts.

(** ** The guarded push and the three scans that feed it *)
Module CollectFacts.
Import Regex Route StringFacts.

Lemma fold_left_invariant {A B : Type} (P : A -> Prop) (f : A -> B -> A) :
  (forall a b, P a -> P (f a b)) ->
  forall l a, P a -> P (fold_left f l a).
Proof.
  intros Hstep l. induction l as [|b l IH]; intros a Ha; simpl; auto.
Qed.

Lemma arrayIncludes_false (x : string) (a : list string) :
  JS.arrayIncludes x a = false -> ~ In x a.
Proof.
  induction a as [|y a IH]; simpl; intros H; [tauto|].
  apply orb_false_iff in H as [Hy Ha].
  apply String.eqb_neq in Hy. intros [E|E]; [congruence | now apply IH].
Qed.

Lemma NoDup_snoc (x : string) (a : list string) :
  NoDup a -> ~ In x a -> NoDup (a +++ [x]).
Proof.
  intros Ha Hx. apply NoDup_app; [assumption | constructor; [tauto | constructor] |].
  intros y Hy [<-|[]]. contradiction.
Qed.

Lemma packageNames_app (a b : list ProgressEvent) :
  packageNames (a +++ b) = packageNames a +++ packageNames b.
Proof. apply flat_map_app. Qed.

Lemma packageNames_packageEvents (message : string) (names : list string) :
  packageNames (packageEvents message names) = names.
Proof. induction names as [|n names IH]; simpl; [reflexivity | now rewrite IH]. Qed.

Lemma Continues_refl message acc : Continues message acc acc.
Proof.
  exists []. unfold packageEvents. simpl. now rewrite !app_nil_r.
Qed.

Lemma Continues_trans message a b c :
  Continues message a b -> Continues message b c -> Continues message a c.
Proof.
  intros (n1 & H1 & H2 & H3) (n2 & H4 & H5 & H6).
  exists (n1 +++ n2). unfold packageEvents in *. repeat split.
  - now rewrite H4, H1, <- app_assoc.
  - now rewrite H5, H2, map_app, <- app_assoc.
  - auto.
Qed.

Lemma pushPackage_continues message acc name :
  Continues message acc (pushPackage message acc name).
Proof.
  unfold pushPackage. destruct (JS.arrayIncludes name (fst acc)) eqn:E.
  - apply Continues_refl.
  - exists [name]. cbn [fst snd packageEvents map]. repeat split.
    intros Hnd. apply NoDup_snoc; [assumption | now apply arrayIncludes_false].
Qed.

Lemma pushAll_continues message names :
  forall acc, Continues message acc (fold_left (pushPackage message) names acc).
Proof.
  intros acc. apply (fold_left_invariant (Continues message acc)).
  - intros a b Ha. eapply Continues_trans; [exact Ha | apply pushPackage_continues].
  - apply Continues_refl.
Qed.

Lemma scanPackageTags_continues searchText pkgs :
  Continues "Package detected: " (pkgs, [])
    (fst (scanPackageTags searchText pkgs)).
Proof.
  unfold scanPackageTags.
  apply (fold_left_invariant
           (fun acc => Continues "Package detected: " (pkgs, []) (fst acc))).
  - intros a m Ha. cbn [fst].
    destruct (JS.truthy (JS.trim (group 1 m))); [|exact Ha].
    eapply Continues_trans; [exact Ha | apply pushPackage_continues].
  - apply Continues_refl.
Qed.

Lemma scanPackagesBlocks_continues code pkgs :
  Continues "Package detected: " (pkgs, []) (scanPackagesBlocks code pkgs).
Proof.
  unfold scanPackagesBlocks.
  apply (fold_left_invariant (Continues "Package detected: " (pkgs, []))).
  - intros a m Ha. eapply Continues_trans; [exact Ha | apply pushAll_continues].
  - apply Continues_refl.
Qed.

(** **** Which names end up collected *)

Lemma arrayIncludes_true (x : string) (a : list string) :
  JS.arrayIncludes x a = true -> In x a.
Proof.
  induction a as [|y a IH]; simpl; intros H; [discriminate|].
  apply orb_true_iff in H as [Hy|Ha].
  - left. now apply String.eqb_eq.
  - right. now apply IH.
Qed.

Lemma fold_left_members {A B : Type} (g : A -> list string)
  (h : B -> list string) (f : A -> B -> A) :
  (forall a b x, In x (g (f a b)) <-> In x (g a) \/ In x (h b)) ->
  forall l a x,
    In x (g (fold_left f l a)) <-> In x (g a) \/ In x (flat_map h l).
Proof.
  intros Hstep. induction l as [|b l IH]; intros a x; cbn [fold_left flat_map].
  - simpl. tauto.
  - rewrite IH, Hstep, in_app_iff. tauto.
Qed.

Lemma pushPackage_members message acc name x :
  In x (fst (pushPackage message acc name)) <-> In x (fst acc) \/ In x [name].
Proof.
  unfold pushPackage. destruct (JS.arrayIncludes name (fst acc)) eqn:E.
  - apply arrayIncludes_true in E. simpl. split; [tauto|].
    intros [H|[<-|[]]]; assumption.
  - cbn [fst]. now rewrite in_app_iff.
Qed.

Lemma pushAll_members message names acc x :
  In x (fst (fold_left (pushPackage message) names acc))
  <-> In x (fst acc) \/ In x names.
Proof.
  rewrite (fold_left_members fst (fun n => [n]) (pushPackage message)).
  - assert (E : flat_map (fun n : string => [n]) names = names)
      by (induction names as [|n ns IH]; simpl; [|rewrite IH]; reflexivity).
    now rewrite E.
  - intros a b y. apply pushPackage_members.
Qed.

Lemma scanPackageTags_members searchText pkgs x :
  In x (fst (fst (scanPackageTags searchText pkgs)))
  <-> In x pkgs \/ In x (offeredByTags searchText).
Proof.
  unfold scanPackageTags, offeredByTags.
  rewrite (fold_left_members (fun acc => fst (fst acc))
             (fun m => let packageName := JS.trim (group 1 m) in
                       if JS.truthy packageName then [packageName] else [])).
  - reflexivity.
  - intros a m y. cbn [fst]. cbn zeta.
    destruct (JS.truthy (JS.trim (group 1 m))).
    + apply pushPackage_members.
    + simpl. tauto.
Qed.

Lemma scanPackagesBlocks_members code pkgs x :
  In x (fst (scanPackagesBlocks code pkgs))
  <-> In x pkgs \/ In x (offeredInBlocks code).
Proof.
  unfold scanPackagesBlocks, offeredInBlocks.
  rewrite (fold_left_members fst
             (fun m => packagesList (JS.trim (group 1 m)))).
  - reflexivity.
  - intros a m y. apply pushAll_members.
Qed.

End CollectFacts.

(** ** The streaming loop, chunk by chunk *)
Module StreamFacts.
Import Regex Route StringFacts CollectFacts.

(** **** What each source of events sends *)

Lemma recordEvent_names index filePath :
  packageNames (recordEvent index filePath) = [].
Proof.
  unfold recordEvent.
  destruct (JS.includes "components/" filePath); [reflexivity|].
  destruct (JS.includes "App.jsx" filePath); reflexivity.
Qed.

Lemma recordEvent_completed index filePath :
  recordCompleted (recordEvent index filePath) = recordEvent index filePath.
Proof.
  unfold recordEvent.
  destruct (JS.includes "components/" filePath); [reflexivity|].
  destruct (JS.includes "App.jsx" filePath); reflexivity.
Qed.

Lemma recordEvent_length index filePath :
  List.length (recordEvent index filePath)
  = if isRecordPath filePath then 1 else 0.
Proof.
  unfold recordEvent, isRecordPath.
  destruct (JS.includes "components/" filePath); [reflexivity|].
  destruct (JS.includes "App.jsx" filePath); reflexivity.
Qed.

Lemma recordEvent_terminal index filePath :
  filter isTerminal (recordEvent index filePath) = [].
Proof.
  unfold recordEvent.
  destruct (JS.includes "components/" filePath); [reflexivity|].
  destruct (JS.includes "App.jsx" filePath); reflexivity.
Qed.

Lemma packageEvents_completed message names :
  recordCompleted (packageEvents message names) = [].
Proof. induction names; simpl; auto. Qed.

Lemma packageEvents_terminal message names :
  filter isTerminal (packageEvents message names) = [].
Proof. induction names; simpl; auto. Qed.

Lemma recordCompleted_app a b :
  recordCompleted (a +++ b) = recordCompleted a +++ recordCompleted b.
Proof. apply filter_app. Qed.

(** **** One chunk *)

Lemma ingest_generatedCode isEdit st text :
  generatedCode (fst (ingest isEdit st text)) = generatedCode st ++ text.
Proof. reflexivity. Qed.

Lemma ingest_tagBuffer_fresh st text :
  tagBuffer (fst (ingest false st text)) = tagBuffer st ++ text.
Proof.
  unfold ingest. cbn [fst snd tagBuffer Nat.sub].
  now destruct (tagBuffer st ++ text).
Qed.

Lemma ingest_packages isEdit st text :
  exists new,
    packagesToInstall (fst (ingest isEdit st text)) = packagesToInstall st +++ new
    /\ packageNames (snd (ingest isEdit st text)) = new
    /\ (NoDup (packagesToInstall st) ->
        NoDup (packagesToInstall (fst (ingest isEdit st text)))).
Proof.
  unfold ingest. cbn [fst snd packagesToInstall].
  rewrite !packageNames_app.
  match goal with
  | |- context [if ?b then recordEvent ?i ?p else []] =>
      assert (Hrec : packageNames (if b then recordEvent i p else []) = [])
        by (destruct b; [apply recordEvent_names | reflexivity]);
      rewrite Hrec
  end.
  match goal with
  | |- context [packageNames (if ?b then [EConversation ?x] else [])] =>
      assert (Hconv : packageNames (if b then [EConversation x] else []) = [])
        by (destruct b; reflexivity);
      rewrite Hconv
  end.
  cbn [packageNames flat_map app]. rewrite app_nil_r.
  destruct isEdit.
  - destruct (scanPackageTags_continues (tagBuffer st ++ text)
                (packagesToInstall st)) as (new & H1 & H2 & H3).
    cbn [fst snd] in H1, H2, H3. exists new. rewrite H1, H2.
    cbn [app]. rewrite packageNames_packageEvents. repeat split.
    now rewrite <- H1.
  - exists []. cbn [fst snd]. rewrite app_nil_r. repeat split; auto.
Qed.

(** The events of one chunk, apart from the package events and the record event. *)
Lemma ingest_events isEdit st text :
  exists conv pkgs rec,
    snd (ingest isEdit st text)
    = conv +++ [EStream text] +++ packageEvents "Package detected: " pkgs +++ rec
    /\ (conv = [] \/ exists t, conv = [EConversation t])
    /\ (rec = [] \/ exists i p, rec = recordEvent i p).
Proof.
  unfold ingest. cbn [fst snd].
  match goal with
  | |- context [(if ?b then [EConversation ?x] else []) +++ _] =>
      exists (if b then [EConversation x] else [])
  end.
  destruct isEdit.
  - destruct (scanPackageTags_continues (tagBuffer st ++ text)
                (packagesToInstall st)) as (new & H1 & H2 & H3).
    cbn [fst snd app] in H1, H2, H3. exists new. rewrite H2.
    eexists. split; [reflexivity|]. split.
    + match goal with |- context [if ?b then _ else _] => destruct b end; eauto.
    + match goal with |- (if ?b then _ else _) = [] \/ _ => destruct b end; eauto.
  - exists []. cbn [fst snd packageEvents map].
    eexists. split; [reflexivity|]. split.
    + match goal with |- context [if ?b then _ else _] => destruct b end; eauto.
    + match goal with |- (if ?b then _ else _) = [] \/ _ => destruct b end; eauto.
Qed.

Lemma ingest_completed_le isEdit st text :
  List.length (recordCompleted (snd (ingest isEdit st text))) <= 1.
Proof.
  destruct (ingest_events isEdit st text) as (conv & pkgs & rec & -> & Hc & Hr).
  rewrite !recordCompleted_app, packageEvents_completed, !length_app.
  destruct Hc as [->|[t ->]]; destruct Hr as [->|(i & p & ->)];
    rewrite ?recordEvent_completed, ?recordEvent_length; simpl;
    try destruct (isRecordPath p); lia.
Qed.

Lemma ingest_terminal isEdit st text :
  filter isTerminal (snd (ingest isEdit st text)) = [].
Proof.
  destruct (ingest_events isEdit st text) as (conv & pkgs & rec & -> & Hc & Hr).
  rewrite !filter_app, packageEvents_terminal.
  destruct Hc as [->|[t ->]]; destruct Hr as [->|(i & p & ->)];
    rewrite ?recordEvent_terminal; reflexivity.
Qed.

Lemma ingest_componentCount isEdit st text :
  componentCount (fst (ingest isEdit st text))
  = componentCount st
    + List.length (filter isComponentEvent (snd (ingest isEdit st text))).
Proof.
  unfold ingest. cbn [fst snd componentCount].
  rewrite !filter_app, !length_app.
  match goal with
  | |- context [filter isComponentEvent (if ?b then [EConversation ?x] else [])] =>
      replace (filter isComponentEvent (if b then [EConversation x] else []))
        with (@nil ProgressEvent) by (destruct b; reflexivity)
  end.
  assert (Hp : forall sc : list string * list ProgressEvent * nat,
             (exists new, snd (fst sc) = packageEvents "Package detected: " new) ->
             filter isComponentEvent (snd (fst sc)) = []).
  { intros sc [new ->]. induction new; simpl; auto. }
  rewrite Hp.
  2:{ destruct isEdit.
      - destruct (scanPackageTags_continues (tagBuffer st ++ text)
                    (packagesToInstall st)) as (new & _ & H2 & _).
        exists new. exact H2.
      - exists []. reflexivity. }
  cbn [filter isComponentEvent List.length app Nat.add].
  match goal with
  | |- context [if ?b && ?c then _ else _] =>
      destruct b; cbn [andb]; [|simpl; lia];
      unfold recordEvent; destruct c eqn:Ec
  end.
  - simpl. lia.
  - match goal with
    | |- context [if ?d then [EApp _ _] else []] => destruct d
    end; simpl; lia.
Qed.

(** **** The whole stream *)

Lemma streamLoop_generatedCode isEdit :
  forall cs st,
    generatedCode (fst (streamLoop isEdit cs st))
    = generatedCode st ++ JS.concat cs.
Proof.
  induction cs as [|text rest IH]; intros st; cbn [streamLoop fst JS.concat].
  - now rewrite append_nil_r.
  - rewrite IH, ingest_generatedCode. apply append_assoc.
Qed.

Lemma streamLoop_tagBuffer_fresh :
  forall cs st,
    tagBuffer (fst (streamLoop false cs st)) = tagBuffer st ++ JS.concat cs.
Proof.
  induction cs as [|text rest IH]; intros st; cbn [streamLoop fst JS.concat].
  - now rewrite append_nil_r.
  - rewrite IH, ingest_tagBuffer_fresh. apply append_assoc.
Qed.

Lemma streamLoop_packages isEdit :
  forall cs st,
    exists new,
      packagesToInstall (fst (streamLoop isEdit cs st))
      = packagesToInstall st +++ new
      /\ packageNames (snd (streamLoop isEdit cs st)) = new
      /\ (NoDup (packagesToInstall st) ->
          NoDup (packagesToInstall (fst (streamLoop isEdit cs st)))).
Proof.
  induction cs as [|text rest IH]; intros st; cbn [streamLoop fst snd].
  - exists []. rewrite app_nil_r. auto.
  - destruct (ingest_packages isEdit st text) as (n1 & H1 & H2 & H3).
    destruct (IH (fst (ingest isEdit st text))) as (n2 & H4 & H5 & H6).
    exists (n1 +++ n2). rewrite packageNames_app, H4, H1, H2, H5.
    rewrite <- app_assoc. repeat split. intros Hnd.
    rewrite app_assoc, <- H1, <- H4. auto.
Qed.

Lemma streamLoop_completed_le isEdit :
  forall cs st,
    List.length (recordCompleted (snd (streamLoop isEdit cs st)))
    <= List.length cs.
Proof.
  induction cs as [|text rest IH]; intros st; cbn [streamLoop fst snd].
  - simpl. lia.
  - rewrite recordCompleted_app, length_app.
    pose proof (ingest_completed_le isEdit st text).
    specialize (IH (fst (ingest isEdit st text))). cbn [List.length]. lia.
Qed.

Lemma streamLoop_terminal isEdit :
  forall cs st,
    filter isTerminal (snd (streamLoop isEdit cs st)) = [].
Proof.
  induction cs as [|text rest IH]; intros st; cbn [streamLoop fst snd].
  - reflexivity.
  - now rewrite filter_app, ingest_terminal, IH.
Qed.

Lemma streamLoop_componentCount isEdit :
  forall cs st,
    componentCount (fst (streamLoop isEdit cs st))
    = componentCount st
      + List.length (filter isComponentEvent (snd (streamLoop isEdit cs st))).
Proof.
  induction cs as [|text rest IH]; intros st; cbn [streamLoop fst snd].
  - simpl. lia.
  - rewrite IH, ingest_componentCount, filter_app, length_app. lia.
Qed.

Lemma ingest_fresh_names st text :
  packageNames (snd (ingest false st text)) = [].
Proof.
  destruct (ingest_packages false st text) as (new & H1 & H2 & _).
  rewrite H2. unfold ingest in H1. cbn [fst packagesToInstall] in H1.
  apply (app_inv_head (packagesToInstall st)). now rewrite app_nil_r.
Qed.

Lemma streamLoop_fresh_names :
  forall cs st, packageNames (snd (streamLoop false cs st)) = [].
Proof.
  induction cs as [|text rest IH]; intros st; cbn [streamLoop snd].
  - reflexivity.
  - now rewrite packageNames_app, IH, ingest_fresh_names.
Qed.

End StreamFacts.

(** ** The parse after the stream, and the notices of recovery *)
Module ParseFacts.
Import Regex Route StringFacts CollectFacts StreamFacts.

Lemma parseFile_step isEdit index ps m :
  exists new,
    parsePackages (parseFile isEdit index ps m) = parsePackages ps +++ new
    /\ parseEvents (parseFile isEdit index ps m)
       = parseEvents ps
         +++ packageEvents "Package detected from imports: " new
         +++ recordEvent index (group 1 m)
    /\ (NoDup (parsePackages ps) ->
        NoDup (parsePackages (parseFile isEdit index ps m)))
    /\ (isEdit = false -> new = [])
    /\ files (parseFile isEdit index ps m) = files ps +++ [pairOf m].
Proof.
  unfold parseFile, pairOf. cbn [parsePackages parseEvents files fst snd].
  destruct isEdit.
  - destruct (pushAll_continues "Package detected from imports: "
                (extractPackagesFromCode (JS.trim (group 2 m)))
                (parsePackages ps, [])) as (new & H1 & H2 & H3).
    cbn [fst snd app] in H1, H2, H3. exists new. rewrite H1, H2.
    repeat split; auto; try discriminate. now rewrite <- H1.
  - exists []. cbn [fst snd packageEvents map app]. rewrite app_nil_r.
    repeat split; auto.
Qed.

Section Fold.
Variables (isEdit : bool) (index : nat).

Lemma parse_files :
  forall ms ps,
    files (fold_left (parseFile isEdit index) ms ps)
    = files ps +++ map pairOf ms.
Proof.
  induction ms as [|m ms IH]; intros ps; cbn [fold_left map].
  - now rewrite app_nil_r.
  - rewrite IH.
    destruct (parseFile_step isEdit index ps m) as (new & _ & _ & _ & _ & ->).
    now rewrite <- app_assoc.
Qed.

Lemma parse_completed :
  forall ms ps,
    recordCompleted (parseEvents (fold_left (parseFile isEdit index) ms ps))
    = recordCompleted (parseEvents ps)
      +++ flat_map (fun m => recordEvent index (group 1 m)) ms.
Proof.
  induction ms as [|m ms IH]; intros ps; cbn [fold_left flat_map].
  - now rewrite app_nil_r.
  - rewrite IH.
    destruct (parseFile_step isEdit index ps m) as (new & _ & -> & _).
    rewrite !recordCompleted_app, packageEvents_completed,
      recordEvent_completed.
    cbn [app]. now rewrite <- app_assoc.
Qed.

Lemma parse_terminal :
  forall ms ps,
    filter isTerminal (parseEvents (fold_left (parseFile isEdit index) ms ps))
    = filter isTerminal (parseEvents ps).
Proof.
  induction ms as [|m ms IH]; intros ps; cbn [fold_left].
  - reflexivity.
  - rewrite IH.
    destruct (parseFile_step isEdit index ps m) as (new & _ & -> & _).
    rewrite !filter_app, packageEvents_terminal, recordEvent_terminal.
    now rewrite !app_nil_r.
Qed.

Lemma parse_packages :
  forall ms ps,
    exists new,
      parsePackages (fold_left (parseFile isEdit index) ms ps)
      = parsePackages ps +++ new
      /\ packageNames (parseEvents (fold_left (parseFile isEdit index) ms ps))
         = packageNames (parseEvents ps) +++ new
      /\ (NoDup (parsePackages ps) ->
          NoDup (parsePackages (fold_left (parseFile isEdit index) ms ps)))
      /\ (isEdit = false -> new = []).
Proof.
  induction ms as [|m ms IH]; intros ps; cbn [fold_left].
  - exists []. rewrite !app_nil_r. auto.
  - destruct (parseFile_step isEdit index ps m) as (n1 & H1 & H2 & H3 & H4 & _).
    destruct (IH (parseFile isEdit index ps m)) as (n2 & H5 & H6 & H7 & H8).
    exists (n1 +++ n2). split; [|split; [|split]].
    + now rewrite H5, H1, <- app_assoc.
    + rewrite H6, H2, !packageNames_app, packageNames_packageEvents,
        recordEvent_names.
      now rewrite app_nil_r, <- app_assoc.
    + auto.
    + intros E. now rewrite H4, H8.
Qed.

End Fold.

Lemma recordEvents_length index (ms : list Match) :
  List.length (flat_map (fun m => recordEvent index (group 1 m)) ms)
  = List.length (filter isRecordPath (map fst (map pairOf ms))).
Proof.
  induction ms as [|m ms IH]; cbn [flat_map map filter]; [reflexivity|].
  rewrite length_app, recordEvent_length, IH. cbn [pairOf fst].
  destruct (isRecordPath (group 1 m)); reflexivity.
Qed.

(** The pairs are read off the text alone. *)
Lemma parseFiles_files isEdit index code pkgs :
  files (parseFiles isEdit index code pkgs)
  = map pairOf (execAll fileRegex code).
Proof. unfold parseFiles. now rewrite parse_files. Qed.

Lemma parseFiles_completed isEdit index code pkgs :
  recordCompleted (parseEvents (parseFiles isEdit index code pkgs))
  = flat_map (fun m => recordEvent index (group 1 m)) (execAll fileRegex code).
Proof. unfold parseFiles. now rewrite parse_completed. Qed.

Lemma parseFiles_terminal isEdit index code pkgs :
  filter isTerminal (parseEvents (parseFiles isEdit index code pkgs)) = [].
Proof. unfold parseFiles. now rewrite parse_terminal. Qed.

(** **** Notices *)

Lemma notices_observed (evs : list ProgressEvent) :
  Forall (fun e => isNotice e = true) evs ->
  packageNames evs = [] /\ recordCompleted evs = []
  /\ filter isTerminal evs = [].
Proof.
  induction 1 as [|e evs He _ (IH1 & IH2 & IH3)]; [auto|].
  destruct e; try discriminate; simpl; auto.
Qed.

Lemma repairFile_notices completed filePath code :
  Forall (fun e => isNotice e = true) (snd (repairFile completed filePath code)).
Proof. destruct completed; simpl; repeat constructor. Qed.

Lemma repairLoop_notices completion :
  forall truncatedFiles k code,
    Forall (fun e => isNotice e = true)
      (snd (repairLoop completion k truncatedFiles code)).
Proof.
  induction truncatedFiles as [|p rest IH]; intros k code; cbn [repairLoop snd].
  - constructor.
  - apply Forall_app. split; [apply repairFile_notices | apply IH].
Qed.

Lemma recover_notices enable completion code warnings :
  Forall (fun e => isNotice e = true)
    (snd (recover enable completion code warnings)).
Proof.
  unfold recover. destruct warnings as [|w ws]; [constructor|].
  destruct enable; [|constructor].
  destruct (truncatedFilesOf code) as [|p ps]; cbn [snd].
  - repeat constructor.
  - constructor; [reflexivity|]. apply Forall_app. split.
    + apply repairLoop_notices.
    + repeat constructor.
Qed.

Lemma flushConversation_observed st :
  packageNames (flushConversation st) = []
  /\ recordCompleted (flushConversation st) = []
  /\ filter isTerminal (flushConversation st) = [].
Proof. unfold flushConversation. destruct (JS.truthy _); auto. Qed.

Lemma blocksOf_continues isEdit st :
  Continues "Package detected: " (packagesToInstall st, []) (blocksOf isEdit st).
Proof.
  unfold blocksOf. destruct isEdit.
  - apply scanPackagesBlocks_continues.
  - apply Continues_refl.
Qed.

End ParseFacts.

(** ** Whole sessions *)
Module SessionFacts.
Import Regex Route StringFacts CollectFacts StreamFacts ParseFacts.

Lemma streamed_generatedCode ses :
  generatedCode (fst (streamed ses)) = JS.concat (chunks ses).
Proof. unfold streamed. now rewrite streamLoop_generatedCode. Qed.

Lemma streamed_componentCount ses :
  componentCount (fst (streamed ses))
  = List.length (filter isComponentEvent (snd (streamed ses))).
Proof. unfold streamed. now rewrite streamLoop_componentCount. Qed.

Lemma afterStream_completed isEdit enable completion st :
  recordCompleted (afterStream isEdit enable completion st)
  = flat_map (fun m => recordEvent (componentCount st) (group 1 m))
      (execAll fileRegex (generatedCode st)).
Proof.
  unfold afterStream. rewrite !recordCompleted_app.
  destruct (flushConversation_observed st) as (_ & -> & _).
  destruct (blocksOf_continues isEdit st) as (new & _ & -> & _).
  cbn [snd app]. rewrite packageEvents_completed.
  destruct (notices_observed _ (recover_notices enable completion
    (generatedCode st) (truncationWarningsOf (generatedCode st))))
    as (_ & Hn & _).
  unfold recoveredOf. rewrite Hn. cbn [app].
  unfold parsedOf. rewrite parseFiles_completed.
  unfold completeEvent. cbn [recordCompleted filter isRecordCompleted].
  now rewrite app_nil_r.
Qed.

Lemma afterStream_terminal isEdit enable completion st :
  filter isTerminal (afterStream isEdit enable completion st)
  = [completeEvent isEdit enable completion st].
Proof.
  unfold afterStream. rewrite !filter_app.
  destruct (flushConversation_observed st) as (_ & _ & ->).
  destruct (blocksOf_continues isEdit st) as (new & _ & -> & _).
  cbn [snd app]. rewrite packageEvents_terminal.
  destruct (notices_observed _ (recover_notices enable completion
    (generatedCode st) (truncationWarningsOf (generatedCode st))))
    as (_ & _ & Hn).
  unfold recoveredOf at 1. rewrite Hn. cbn [app].
  unfold parsedOf at 1. rewrite parseFiles_terminal.
  reflexivity.
Qed.

Lemma afterStream_packages isEdit enable completion st :
  exists new,
    parsePackages (parsedOf isEdit st) = packagesToInstall st +++ new
    /\ packageNames (afterStream isEdit enable completion st) = new
    /\ (NoDup (packagesToInstall st) ->
        NoDup (parsePackages (parsedOf isEdit st)))
    /\ (isEdit = false -> new = []).
Proof.
  unfold afterStream. rewrite !packageNames_app.
  destruct (flushConversation_observed st) as (-> & _ & _).
  destruct (notices_observed _ (recover_notices enable completion
    (generatedCode st) (truncationWarningsOf (generatedCode st))))
    as (Hn & _ & _).
  unfold recoveredOf. rewrite Hn.
  unfold completeEvent. cbn [packageNames flat_map app]. rewrite app_nil_r.
  destruct (blocksOf_continues isEdit st) as (n1 & H1 & H2 & H3).
  cbn [fst snd app] in H1, H2, H3. rewrite H2, packageNames_packageEvents.
  unfold parsedOf, parseFiles.
  destruct (parse_packages isEdit (componentCount st)
              (execAll fileRegex (generatedCode st))
              (mkParse [] (fst (blocksOf isEdit st)) []))
    as (n2 & H4 & H5 & H6 & H7).
  cbn [parsePackages parseEvents packageNames flat_map app] in H4, H5, H6.
  exists (n1 +++ n2). rewrite H4, H5, H1, <- app_assoc.
  repeat split; auto.
  - intros Hnd. rewrite app_assoc, <- H1, <- H4. auto.
  - intros E. rewrite (H7 E). unfold blocksOf in H1. rewrite E in H1.
    cbn [fst] in H1. rewrite app_nil_r.
    apply (app_inv_head (packagesToInstall st)). now rewrite app_nil_r.
Qed.

Lemma onError_observed message :
  packageNames (onError message) = []
  /\ recordCompleted (onError message) = [].
Proof. unfold onError. destruct (JS.includes _ _); auto. Qed.

(** The package events of a session are the names collected, none twice. *)
Lemma run_packages ses :
  packageNames (run ses) = collected ses /\ NoDup (collected ses).
Proof.
  unfold run, collected, postStream, streamed.
  rewrite packageNames_app.
  destruct (streamLoop_packages (isEdit ses) (chunks ses) initialState)
    as (n1 & H1 & H2 & H3).
  cbn [packagesToInstall initialState app] in H1, H3.
  specialize (H3 (NoDup_nil _)).
  destruct (streamError ses) as [message|].
  - destruct (onError_observed message) as (-> & _).
    rewrite app_nil_r, H2, H1. split; [reflexivity | now rewrite <- H1].
  - destruct (afterStream_packages (isEdit ses) (enableTruncationRecovery ses)
                (completion ses)
                (fst (streamLoop (isEdit ses) (chunks ses) initialState)))
      as (n2 & H4 & H5 & H6 & _).
    rewrite H2, H5, H4, H1. split; [reflexivity|].
    rewrite <- H1, <- H4. auto.
Qed.

Lemma run_terminal ses :
  filter isTerminal (run ses)
  = match streamError ses with
    | Some message =>
        if JS.includes "tool call validation failed" message then []
        else [EError message]
    | None =>
        [completeEvent (isEdit ses) (enableTruncationRecovery ses)
           (completion ses) (fst (streamed ses))]
    end.
Proof.
  unfold run, postStream, streamed. rewrite filter_app, streamLoop_terminal.
  cbn [app]. destruct (streamError ses) as [message|].
  - unfold onError. now destruct (JS.includes _ _).
  - apply afterStream_terminal.
Qed.

Lemma run_ends_complete ses :
  streamError ses = None ->
  exists evs,
    run ses = evs +++ [completeEvent (isEdit ses) (enableTruncationRecovery ses)
                         (completion ses) (fst (streamed ses))].
Proof.
  intros E. unfold run, postStream. rewrite E. unfold afterStream.
  eexists. rewrite !app_assoc. reflexivity.
Qed.

(** The pairs are a function of the concatenated text. *)
Lemma extracted_of_text ses :
  extracted ses = map pairOf (execAll fileRegex (JS.concat (chunks ses))).
Proof.
  unfold extracted, parsedOf.
  now rewrite parseFiles_files, streamed_generatedCode.
Qed.

(** After the stream, one event for each parsed file with a record path. *)
Lemma postStream_completed_length ses :
  streamError ses = None ->
  List.length (recordCompleted (postStream ses))
  = List.length (filter isRecordPath (map fst (extracted ses))).
Proof.
  intros E. unfold postStream. rewrite E, afterStream_completed.
  rewrite recordEvents_length, extracted_of_text.
  now rewrite streamed_generatedCode.
Qed.

(** **** The names an edit session declares *)

Lemma streamLoop_members :
  forall cs st x,
    In x (packagesToInstall (fst (streamLoop true cs st)))
    <-> In x (packagesToInstall st) \/ In x (offeredInStream cs st).
Proof.
  induction cs as [|text rest IH]; intros st x;
    cbn [streamLoop fst offeredInStream].
  - simpl. tauto.
  - rewrite IH, in_app_iff.
    assert (E : In x (packagesToInstall (fst (ingest true st text)))
                <-> In x (packagesToInstall st)
                    \/ In x (offeredByTags (tagBuffer st ++ text))).
    { unfold ingest. cbn [fst packagesToInstall].
      apply scanPackageTags_members. }
    rewrite E. tauto.
Qed.

Lemma parsedOf_members st x :
  In x (parsePackages (parsedOf true st))
  <-> In x (packagesToInstall st)
      \/ In x (offeredInBlocks (generatedCode st))
      \/ In x (offeredInFiles (generatedCode st)).
Proof.
  unfold parsedOf, parseFiles, offeredInFiles.
  rewrite (fold_left_members parsePackages
             (fun m => extractPackagesFromCode (snd (pairOf m)))).
  - cbn [parsePackages]. unfold blocksOf.
    rewrite scanPackagesBlocks_members. tauto.
  - intros ps m y. unfold parseFile. cbn [parsePackages].
    rewrite pushAll_members. cbn [fst]. tauto.
Qed.

Lemma collected_members ses x :
  isEdit ses = true -> (In x (collected ses) <-> In x (offered ses)).
Proof.
  intros E. unfold collected, offered.
  destruct (streamError ses) as [message|].
  - unfold streamed. rewrite E, streamLoop_members. simpl.
    rewrite in_app_iff. simpl. tauto.
  - rewrite E, parsedOf_members, streamed_generatedCode.
    unfold streamed. rewrite E, streamLoop_members. simpl.
    rewrite !in_app_iff. tauto.
Qed.

End SessionFacts.

(** ** The claims *)
Module Claims.
Import Regex Route Examples FollowUp Inputs.
Import StringFacts RegexFacts CutFacts RepairFacts CollectFacts StreamFacts
  ParseFacts SessionFacts.

(** C1, as amended. The (path, content) pairs parsed after the stream depend
    only on the concatenated text: two sessions whose chunks join to the same
    text, and whose streams end without an error, extract the same pairs. After
    the stream, each of them sends exactly one component or app event for every
    extracted pair whose path contains components/ or App.jsx. The events of the
    streaming loop come on top of these and depend on the chunking; the
    statement says nothing on their number. *)
Theorem extraction_is_chunk_invariant (ses1 ses2 : Session) :
  streamError ses1 = None -> streamError ses2 = None ->
  JS.concat (chunks ses1) = JS.concat (chunks ses2) ->
  extracted ses1 = extracted ses2
  /\ List.length (recordCompleted (postStream ses1))
     = List.length (filter isRecordPath (map fst (extracted ses1)))
  /\ List.length (recordCompleted (postStream ses2))
     = List.length (filter isRecordPath (map fst (extracted ses2))).
Proof.
  intros E1 E2 Hsame. split; [|split].
  - now rewrite !extracted_of_text, Hsame.
  - now apply postStream_completed_length.
  - now apply postStream_completed_length.
Qed.

(** The two component files, sent as one chunk and as two. *)
Lemma extraction_is_chunk_invariant_witness :
  JS.concat (chunks oneChunk) = JS.concat (chunks twoChunks)
  /\ (extracted oneChunk = extracted twoChunks
      /\ List.length (recordCompleted (postStream oneChunk))
         = List.length (filter isRecordPath (map fst (extracted oneChunk)))
      /\ List.length (recordCompleted (postStream twoChunks))
         = List.length (filter isRecordPath (map fst (extracted twoChunks)))).
Proof.
  split; [vm_compute; reflexivity|].
  apply (extraction_is_chunk_invariant oneChunk twoChunks).
  - reflexivity.
  - reflexivity.
  - vm_compute. reflexivity.
Defined.

(** C1 as stated fails: the same text with two file records gives three
    record-completion events as one chunk and four as two chunks, never two. *)
Lemma recordCompleted_count_varies :
  JS.concat (chunks oneChunk) = JS.concat (chunks twoChunks)
  /\ List.length (extracted oneChunk) = 2
  /\ List.length (recordCompleted (run oneChunk)) = 3
  /\ List.length (recordCompleted (run twoChunks)) = 4.
Proof. vm_compute. repeat split. Qed.

(** C2, as amended. When the text of scenario B arrives as one chunk the
    session sends the stream event, the notice of incomplete generation if
    recovery is enabled, and the complete event: no conversation event and no
    repair attempt. The output is the text as received; its one warning counts
    the unclosed file tags (1 open, 0 closed) and names no file. When the same
    text arrives in two chunks, split before the marker, the words before the
    marker are sent as the one conversation event. *)
Theorem scenarioB_runs_without_repair
  (isEdit enable : bool) (completion : Completion) :
  run (mkSession isEdit [scenarioBText] None enable completion)
  = [EStream scenarioBText]
    +++ (if enable
         then [EWarning
                 "Detected incomplete code generation. Attempting to complete..."
                 (Some [unclosedNotice])]
         else [])
    +++ [EComplete scenarioBText "Code generated successfully!" 0 0 None
           (Some [unclosedNotice])]
  /\ conversationTexts
       (run (mkSession isEdit ["Sure, here is your code: "; openMarker "x.txt"]
               None enable completion))
     = ["Sure, here is your code:"].
Proof. destruct isEdit, enable; vm_compute; split; reflexivity. Qed.

(** C2 as stated fails: scenario B as one chunk has no conversation event, no
    file is selected for repair, and the session ends with the text unchanged. *)
Lemma scenarioB_has_no_conversation_and_no_repair :
  conversationTexts (run scenarioB) = []
  /\ truncatedFilesOf (JS.concat (chunks scenarioB)) = []
  /\ filter isTerminal (run scenarioB)
     = [EComplete scenarioBText "Code generated successfully!" 0 0 None
          (Some [unclosedNotice])].
Proof. vm_compute. repeat split. Qed.

(** C3, as amended. In a session whose stream ends without an error the
    record-completion events are those of the streaming loop, at most one per
    chunk, and then one for every parsed file whose path contains components/ or
    App.jsx: the pass after the stream announces again what the loop announced.
    It does not count again: the components field of the complete event is the
    number of component events of the loop. *)
Theorem postStream_announces_each_parsed_record
  (isEdit : bool) (cs : list string) (enable : bool) (completion : Completion) :
  let ses := mkSession isEdit cs None enable completion in
  List.length (recordCompleted (run ses))
  = List.length (recordCompleted (snd (streamed ses)))
    + List.length (filter isRecordPath (map fst (extracted ses)))
  /\ List.length (recordCompleted (snd (streamed ses))) <= List.length cs
  /\ exists evs code explanation n pkgs warnings,
      run ses
      = evs +++ [EComplete code explanation n
                   (List.length (filter isComponentEvent (snd (streamed ses))))
                   pkgs warnings].
Proof.
  intros ses. split; [|split].
  - unfold run. rewrite recordCompleted_app, length_app. f_equal.
    now apply postStream_completed_length.
  - apply streamLoop_completed_le.
  - destruct (run_ends_complete ses eq_refl) as [evs Hevs].
    exists evs. unfold completeEvent in Hevs.
    rewrite streamed_componentCount in Hevs.
    do 5 eexists. exact Hevs.
Qed.

(** C3 as stated fails: one component file in one chunk is announced by the
    loop and once more after the stream. *)
Lemma postStream_announces_again :
  recordCompleted (snd (streamed oneComponent))
  = [EComponent "A" "src/components/A.jsx" 1]
  /\ recordCompleted (postStream oneComponent)
     = [EComponent "A" "src/components/A.jsx" 1].
Proof. vm_compute. split; reflexivity. Qed.

(** C4, what the code does. The route means to replace the span of the
    faulted record by the answer of a follow-up call, but the expression of
    that call reads [modelMapping], a name the module does not declare: its
    evaluation throws inside the [try] of the iteration, before a request is
    made. Whatever the provider would answer, no iteration of the repair loop
    replaces anything: after any number of iterations the output is the
    streamed text, a session whose stream ends well closes with a complete
    event that carries the streamed text, and the repair loop sends for every
    file it selects the warning of the [catch]. *)
Theorem follow_up_call_always_throws
  (provider : Completion) (isEdit enable : bool) (cs : list string) :
  let ses := mkSession isEdit cs None enable (followUp provider) in
  let text := JS.concat cs in
  unbound = Some "modelMapping"
  /\ (forall k filePath, completion ses k filePath = None)
  /\ (forall k, repairedAfter ses k = text)
  /\ (exists evs explanation n components pkgs warnings,
         run ses
         = evs +++ [EComplete text explanation n components pkgs warnings])
  /\ Forall (fun filePath =>
               In (EWarning ("Could not auto-complete " ++ filePath
                             ++ ". Manual review may be needed.") None)
                 (snd (repairLoop (followUp provider) 0
                         (truncatedFilesOf text) text)))
       (truncatedFilesOf text).
Proof.
  cbn zeta.
  assert (Hnone : forall k filePath, followUp provider k filePath = None)
    by reflexivity.
  split; [reflexivity|]. split; [exact Hnone|]. split; [|split].
  - intros k. unfold repairedAfter. cbn [chunks completion].
    now apply repairLoop_all_fail.
  - destruct (run_ends_complete
                (mkSession isEdit cs None enable (followUp provider)) eq_refl)
      as [evs Hevs].
    exists evs. rewrite Hevs. unfold completeEvent, recoveredOf.
    rewrite streamed_generatedCode.
    cbn [Route.isEdit chunks enableTruncationRecovery completion].
    rewrite (recover_all_fail _ _ _ _ Hnone).
    now do 5 eexists.
  - now apply repairLoop_warns_all.
Qed.

(** The truncated b.js with a provider that would answer every call: the
    session runs as with a provider that fails them all, and its complete
    event carries b.js as it was streamed. *)
Lemma unrepaired_keeps_the_cut_record :
  run unrepaired = run failingRepair
  /\ truncatedFilesOf truncatedText = ["b.js"]
  /\ In (EWarning "Could not auto-complete b.js. Manual review may be needed."
           None)
       (run unrepaired)
  /\ last (run unrepaired) (EError "")
     = EComplete truncatedText "Code generated successfully!" 1 0 None None.
Proof. vm_compute. repeat split. right. right. right. now left. Qed.

(** C5, what the code does: in a fresh-generation session no package tag is
    searched, [lastIndex] stays 0 and the look-back buffer is never cut, so
    after the chunks [cs] it holds the whole stream. *)
Theorem tagBuffer_keeps_the_whole_stream (cs : list string) :
  tagBuffer (fst (streamLoop false cs initialState)) = JS.concat cs.
Proof.
  rewrite streamLoop_tagBuffer_fresh.
  cbn [tagBuffer initialState append].
  reflexivity.
Qed.

(** C6, what the code does: when the error caught carries the words
    tool call validation failed, the session sends a warning and closes the
    writer; neither a complete nor an error event is sent. *)
Theorem tool_validation_error_ends_without_terminal
  (isEdit : bool) (cs : list string) (enable : bool) (completion : Completion)
  (pre post : string) :
  filter isTerminal
    (run (mkSession isEdit cs
            (Some (pre ++ "tool call validation failed" ++ post))
            enable completion))
  = [].
Proof.
  rewrite run_terminal. cbn [streamError].
  rewrite includes_append. reflexivity.
Qed.

(** C7. When the follow-up call for the [k]-th truncated file fails, that
    iteration of the repair loop leaves the output as it was, the warning
    naming the file is among the events, and the session still ends with its
    complete event and sends no error event. *)
Theorem failed_repair_leaves_the_record (ses : Session) (k : nat)
  (filePath : string) :
  streamError ses = None ->
  enableTruncationRecovery ses = true ->
  truncationWarningsOf (JS.concat (chunks ses)) <> [] ->
  nth_error (truncatedFilesOf (JS.concat (chunks ses))) k = Some filePath ->
  completion ses k filePath = None ->
  repairedAfter ses (S k) = repairedAfter ses k
  /\ In (EWarning ("Could not auto-complete " ++ filePath
                   ++ ". Manual review may be needed.") None)
       (run ses)
  /\ (exists evs code explanation n components pkgs warnings,
         run ses
         = evs +++ [EComplete code explanation n components pkgs warnings])
  /\ forall message, ~ In (EError message) (run ses).
Proof.
  intros Hend Henable Hwarn Hnth Hfail. split; [|split; [|split]].
  - unfold repairedAfter.
    destruct (firstn_succ_nth _ _ _ Hnth) as [-> Hlen].
    rewrite repairLoop_snoc. cbn zeta. rewrite Hlen. cbn [Nat.add].
    now rewrite Hfail.
  - unfold run, postStream. rewrite Hend. apply in_or_app. right.
    unfold afterStream, recoveredOf. rewrite streamed_generatedCode.
    apply in_or_app. right. apply in_or_app. right. apply in_or_app. right.
    apply in_or_app. left.
    unfold recover. rewrite Henable.
    destruct (truncationWarningsOf (JS.concat (chunks ses))) as [|w ws];
      [contradiction|].
    destruct (truncatedFilesOf (JS.concat (chunks ses))) as [|p ps] eqn:Et.
    + destruct k; discriminate.
    + cbn [snd]. apply in_or_app. right. apply in_or_app. left.
      now apply (repairLoop_warns _ _ 0 k).
  - destruct (run_ends_complete ses Hend) as [evs Hevs].
    exists evs. unfold completeEvent in Hevs. do 6 eexists. exact Hevs.
  - intros message Hin.
    assert (Hf : In (EError message) (filter isTerminal (run ses)))
      by (apply filter_In; auto).
    rewrite run_terminal, Hend in Hf. destruct Hf as [Hf|[]].
    unfold completeEvent in Hf. discriminate.
Qed.

(** The truncated b.js, with a provider that fails every follow-up call. *)
Lemma failed_repair_leaves_the_record_witness :
  repairedAfter failingRepair 1 = repairedAfter failingRepair 0
  /\ In (EWarning ("Could not auto-complete " ++ "b.js"
                   ++ ". Manual review may be needed.") None)
       (run failingRepair)
  /\ (exists evs code explanation n components pkgs warnings,
         run failingRepair
         = evs +++ [EComplete code explanation n components pkgs warnings])
  /\ forall message, ~ In (EError message) (run failingRepair).
Proof.
  apply (failed_repair_leaves_the_record failingRepair 0 "b.js").
  - reflexivity.
  - reflexivity.
  - vm_compute. discriminate.
  - vm_compute. reflexivity.
  - reflexivity.
Defined.

(** C8. A fresh-generation session sends no package event, whatever the
    chunks hold and however the session ends. *)
Theorem fresh_generation_sends_no_package
  (cs : list string) (err : option string) (enable : bool)
  (completion : Completion) :
  packageNames (run (mkSession false cs err enable completion)) = [].
Proof.
  unfold run. rewrite packageNames_app.
  unfold postStream, streamed.
  cbn [isEdit chunks streamError enableTruncationRecovery Route.completion].
  rewrite streamLoop_fresh_names. cbn [app]. destruct err as [message|].
  - now destruct (onError_observed message).
  - destruct (afterStream_packages false enable completion
                (fst (streamLoop false cs initialState)))
      as (new & _ & -> & _ & Hnew).
    now apply Hnew.
Qed.

(** C9. The package events of a session name exactly the packages collected,
    and no name twice. In an edit session a name is handed to the collector by
    one of the three sources (a package tag, a packages block, an import of a
    parsed file) if and only if exactly one package event carries it. *)
Theorem each_package_is_announced_once (ses : Session) :
  packageNames (run ses) = collected ses
  /\ NoDup (collected ses)
  /\ (isEdit ses = true ->
      forall name,
        In name (offered ses)
        <-> count_occ string_dec (packageNames (run ses)) name = 1).
Proof.
  destruct (run_packages ses) as [Hn Hd].
  split; [assumption | split; [assumption|]].
  intros Hedit name. rewrite <- (collected_members ses name Hedit), Hn.
  split.
  - now apply (proj1 (NoDup_count_occ' string_dec (collected ses)) Hd).
  - intros Hc. apply (count_occ_In string_dec). lia.
Qed.

(** lodash declared by a package tag split over two chunks and imported by
    the parsed file: one package event. *)
Lemma each_package_is_announced_once_witness :
  isEdit directiveAndImport = true
  /\ In "lodash" (offeredInFiles (JS.concat (chunks directiveAndImport)))
  /\ In "lodash" (offeredInStream (chunks directiveAndImport) initialState)
  /\ count_occ string_dec (packageNames (run directiveAndImport)) "lodash" = 1.
Proof.
  split; [reflexivity|]. split; [vm_compute; auto|]. split; [vm_compute; auto|].
  pose proof (proj2 (proj2 (each_package_is_announced_once directiveAndImport))
                eq_refl "lodash") as Honce.
  apply (proj1 Honce). vm_compute. auto.
Defined.

(** C10, as amended. The complete event of a session whose stream ends
    without an error carries as explanation the trimmed content of the first
    explanation block of the streamed text, read before any repair, and the
    fixed sentence when the text has no such block. The content may be blank:
    the explanation is then the empty string. *)
Theorem explanation_is_the_first_block_trimmed
  (isEdit : bool) (cs : list string) (enable : bool) (completion : Completion) :
  exists evs code n components pkgs warnings,
    run (mkSession isEdit cs None enable completion)
    = evs +++ [EComplete code (explanationSpec (JS.concat cs)) n components
                 pkgs warnings].
Proof.
  destruct (run_ends_complete (mkSession isEdit cs None enable completion)
              eq_refl) as [evs Hevs].
  exists evs. unfold completeEvent in Hevs.
  rewrite explanationOf_spec, streamed_generatedCode in Hevs.
  do 5 eexists. exact Hevs.
Qed.

(** C10 as stated fails: a blank explanation block gives an empty explanation. *)
Lemma explanation_can_be_empty :
  run blankExplanation
  = [EStream "<explanation> </explanation>";
     EComplete "<explanation> </explanation>" "" 0 0 None None].
Proof. vm_compute. reflexivity. Qed.

End Claims.

(** * More of the route

    Properties of the session beyond the claims, and of the code of the route
    around it: the history of the conversation, the context built from it, the
    keyword search of an edit and the choice of the provider. *)

(** ** Arrays: the last elements, the first occurrences *)
Module ArrayFacts.
Import Route JSArray CollectFacts.

Lemma sliceLast_length {A : Type} (n : nat) (a : list A) :
  List.length (sliceLast n a) = Nat.min n (List.length a).
Proof. unfold sliceLast. rewrite length_skipn. lia. Qed.

Lemma sliceLast_suffix {A : Type} (n : nat) (a : list A) :
  exists dropped, a = dropped +++ sliceLast n a.
Proof.
  exists (firstn (List.length a - n) a). unfold sliceLast.
  now rewrite firstn_skipn.
Qed.

Lemma sliceLast_snoc {A : Type} (n : nat) (a : list A) (x : A) :
  exists kept, sliceLast (S n) (a +++ [x]) = kept +++ [x].
Proof.
  unfold sliceLast. rewrite skipn_app, length_app. cbn [List.length].
  replace (List.length a + 1 - S n - List.length a) with 0 by lia.
  now exists (skipn (List.length a + 1 - S n) a).
Qed.

Lemma unique_spec (a : list string) :
  NoDup (unique a) /\ forall x, In x (unique a) <-> In x a.
Proof.
  unfold unique.
  assert (G : forall l seen,
             NoDup seen ->
             NoDup (fold_left (fun seen x =>
                                 if JS.arrayIncludes x seen then seen
                                 else seen +++ [x]) l seen)
             /\ forall x,
                 In x (fold_left (fun seen x =>
                                    if JS.arrayIncludes x seen then seen
                                    else seen +++ [x]) l seen)
                 <-> In x seen \/ In x l).
  { induction l as [|y l IH]; intros seen Hnd; cbn [fold_left].
    - split; [assumption | intros x; cbn; tauto].
    - destruct (JS.arrayIncludes y seen) eqn:E.
      + destruct (IH seen Hnd) as [H1 H2]. split; [assumption|].
        intros x. rewrite H2. cbn [In].
        apply arrayIncludes_true in E.
        split; [tauto | intros [H | [-> | H]]; tauto].
      + destruct (IH (seen +++ [y])) as [H1 H2].
        { apply NoDup_snoc; [assumption | now apply arrayIncludes_false]. }
        split; [assumption|].
        intros x. rewrite H2, in_app_iff. cbn [In]. tauto. }
  destruct (G a [] (NoDup_nil _)) as [H1 H2]. split; [assumption|].
  intros x. rewrite H2. cbn [In]. tauto.
Qed.

Lemma firstn_incl {A : Type} (n : nat) :
  forall (l : list A) x, In x (firstn n l) -> In x l.
Proof.
  induction n as [|n IH]; intros [|y l] x; cbn; try tauto.
  intros [H | H]; [now left | right; now apply IH].
Qed.

Lemma firstn_NoDup {A : Type} (n : nat) :
  forall l : list A, NoDup l -> NoDup (firstn n l).
Proof.
  induction n as [|n IH]; intros [|y l] H; cbn; try constructor.
  - inversion H; subst. intros Hin. now apply firstn_incl in Hin.
  - inversion H; subst. now apply IH.
Qed.

End ArrayFacts.

(** ** The choice of the provider *)
Module ProviderFacts.
Import Provider StringFacts.

Lemma removeFirst_here (w s : string) :
  JS.startsWith w s = true -> JS.removeFirst w s = JS.drop (String.length w) s.
Proof. intros H. destruct s; cbn [JS.removeFirst]; now rewrite H. Qed.

Lemma removeFirst_prefix (w s : string) : JS.removeFirst w (w ++ s) = s.
Proof.
  rewrite removeFirst_here by apply startsWith_append.
  apply drop_append_length.
Qed.

Lemma includes_prefix (w s : string) : JS.includes w (w ++ s) = true.
Proof.
  unfold JS.includes. rewrite indexOf_here; [reflexivity|].
  apply startsWith_append.
Qed.

End ProviderFacts.

(** ** The conversation history *)
Module ConversationFacts.
Import Regex Route JSArray Conversation StringFacts RegexFacts ArrayFacts.

(** The labels [analyzeUserPreferences] can push. *)
Lemma patternsOf_labels (content : string) :
  incl (patternsOf content) patternLabels.
Proof.
  unfold patternsOf, patternLabels. intros x.
  repeat rewrite in_app_iff.
  destruct (JS.includes "hero" content), (JS.includes "header" content),
    (JS.includes "color" content || JS.includes "style" content),
    (JS.includes "button" content), (JS.includes "animation" content);
    cbn; tauto.
Qed.

Lemma tally_labels (l : list ConversationMessage) :
  forall t, incl (patterns t) patternLabels ->
            incl (patterns (fold_left tally l t)) patternLabels.
Proof.
  induction l as [|m l IH]; intros t H; cbn [fold_left]; [assumption|].
  apply IH. cbn [tally patterns]. apply incl_app; [assumption|].
  apply patternsOf_labels.
Qed.

(** The tally reads the role and the lower-cased content of a message. *)
Lemma tally_reads (l l' : list ConversationMessage) :
  Forall2 (fun m m' => role m = role m'
                       /\ toLowerCase (content m) = toLowerCase (content m'))
    l l' ->
  forall t, fold_left tally (filter isUser l) t
            = fold_left tally (filter isUser l') t.
Proof.
  induction 1 as [|m m' l l' [Hr Hc] _ IH]; intros t; [reflexivity|].
  cbn [filter].
  assert (E : isUser m = isUser m') by (unfold isUser; now rewrite Hr).
  rewrite E. destruct (isUser m'); [|apply IH].
  cbn [fold_left].
  assert (T : tally t m = tally t m') by (unfold tally; now rewrite Hc).
  rewrite T. apply IH.
Qed.

Lemma length_snoc_trim {A : Type} (a : list A) (x : A) :
  let pushed := a +++ [x] in
  let kept := if Nat.ltb 20 (List.length pushed)
              then sliceLast 15 pushed else pushed in
  List.length kept <= 20
  /\ (exists before, kept = before +++ [x])
  /\ (exists dropped, pushed = dropped +++ kept).
Proof.
  cbn zeta. destruct (Nat.ltb 20 (List.length (a +++ [x]))) eqn:E.
  - split; [rewrite sliceLast_length; lia|].
    split; [apply sliceLast_snoc | apply sliceLast_suffix].
  - apply Nat.ltb_ge in E. split; [assumption|].
    split; [now exists a | now exists []].
Qed.

Lemma length_edits_trim {A : Type} (a : list A) :
  let kept := if Nat.ltb 10 (List.length a) then sliceLast 8 a else a in
  List.length kept <= 10 /\ exists dropped, a = dropped +++ kept.
Proof.
  cbn zeta. destruct (Nat.ltb 10 (List.length a)) eqn:E.
  - split; [rewrite sliceLast_length; lia | apply sliceLast_suffix].
  - apply Nat.ltb_ge in E. split; [assumption | now exists []].
Qed.

Lemma startsWith_take (w : string) :
  forall n s, String.length w <= n ->
              JS.startsWith w s = true -> JS.startsWith w (JS.take n s) = true.
Proof.
  induction w as [|a w IH]; intros n s Hn H; [reflexivity|].
  destruct s as [|b s]; [discriminate|].
  destruct n as [|n]; [cbn in Hn; lia|].
  cbn in H |- *. apply andb_true_iff in H as [Hab Hw].
  rewrite Hab. cbn. apply IH; [cbn in Hn; lia | assumption].
Qed.

Lemma startsWith_refl (w : string) : JS.startsWith w w = true.
Proof.
  induction w as [|a w IH]; [reflexivity|].
  cbn. now rewrite Ascii.eqb_refl.
Qed.

Lemma startsWith_append_more (w s t : string) :
  JS.startsWith w s = true -> JS.startsWith w (s ++ t) = true.
Proof.
  revert s. induction w as [|a w IH]; intros s H; [reflexivity|].
  destruct s as [|b s]; [discriminate|].
  cbn in H |- *. apply andb_true_iff in H as [Hab Hw].
  rewrite Hab. cbn. now apply IH.
Qed.

Lemma startsWith_if (w c x : string) (b : bool) :
  JS.startsWith w c = true ->
  JS.startsWith w (if b then c ++ x else c) = true.
Proof.
  intros H. destruct b; [now apply startsWith_append_more | assumption].
Qed.

End ConversationFacts.

(** ** Strings: occurrences, white space, pieces *)
Module TextFacts.
Import JSArray StringFacts.

Lemma includes_split (w : string) :
  forall s, JS.includes w s = true -> exists pre post, s = pre ++ w ++ post.
Proof.
  unfold JS.includes.
  induction s as [|c s IH]; intros H.
  - cbn [JS.indexOf] in H. destruct (JS.startsWith w "") eqn:E; [|discriminate].
    exists "", (JS.drop (String.length w) ""). now apply startsWith_split in E.
  - cbn [JS.indexOf] in H. destruct (JS.startsWith w (String c s)) eqn:E.
    + exists "", (JS.drop (String.length w) (String c s)).
      now apply startsWith_split in E.
    + destruct (JS.indexOf w s) as [n|]; [|discriminate].
      destruct (IH eq_refl) as (pre & post & ->).
      now exists (String c pre), post.
Qed.

Lemma includes_app_false (w a b : string) :
  JS.includes w (a ++ b) = false ->
  JS.includes w a = false /\ JS.includes w b = false.
Proof.
  intros H. split.
  - destruct (JS.includes w a) eqn:E; [|reflexivity].
    destruct (includes_split w a E) as (pre & post & ->).
    rewrite !append_assoc, includes_append in H. discriminate.
  - destruct (JS.includes w b) eqn:E; [|reflexivity].
    destruct (includes_split w b E) as (pre & post & ->).
    rewrite <- append_assoc, includes_append in H. discriminate.
Qed.

Lemma includes_nil_false (w : string) :
  JS.includes w "" = false -> JS.startsWith w "" = false.
Proof.
  unfold JS.includes. cbn [JS.indexOf].
  now destruct (JS.startsWith w "").
Qed.

(** A one-character pattern is absent when no character is that one. *)
Lemma includes_char_cons (c d : ascii) (s : string) :
  JS.includes (String c "") (String d s) = false ->
  Ascii.eqb c d = false /\ JS.includes (String c "") s = false.
Proof.
  intros H. apply includes_cons_false in H as [H1 H2]. split; [|assumption].
  cbn in H1. now rewrite andb_true_r in H1.
Qed.

(** *** White space *)

Lemma trimEnd_cons (c : ascii) (s : string) :
  JS.isSpace c = false -> JS.trimEnd (String c s) = String c (JS.trimEnd s).
Proof.
  intros H. cbn [JS.trimEnd]. rewrite H. now destruct (JS.trimEnd s).
Qed.

Lemma trimEnd_unfold (c : ascii) (s : string) :
  JS.trimEnd (String c s)
  = match JS.trimEnd s with
    | "" => if JS.isSpace c then "" else String c ""
    | t => String c t
    end.
Proof. reflexivity. Qed.

Lemma trimEnd_idempotent (s : string) : JS.trimEnd (JS.trimEnd s) = JS.trimEnd s.
Proof.
  induction s as [|c s IH]; [reflexivity|].
  rewrite trimEnd_unfold. destruct (JS.trimEnd s) as [|d u] eqn:E.
  - destruct (JS.isSpace c) eqn:Ec; [reflexivity|].
    rewrite trimEnd_unfold. cbn [JS.trimEnd]. now rewrite Ec.
  - rewrite trimEnd_unfold, IH. reflexivity.
Qed.

Lemma trimStart_head (s : string) :
  JS.trimStart s = ""
  \/ exists c t, JS.trimStart s = String c t /\ JS.isSpace c = false.
Proof.
  induction s as [|c s IH]; [now left|].
  cbn [JS.trimStart]. destruct (JS.isSpace c) eqn:E; [assumption|].
  right. now exists c, s.
Qed.

Lemma trim_idempotent (s : string) : JS.trim (JS.trim s) = JS.trim s.
Proof.
  unfold JS.trim. destruct (trimStart_head s) as [->|(c & t & -> & Hc)];
    [reflexivity|].
  rewrite trimEnd_cons by assumption.
  cbn [JS.trimStart]. rewrite Hc.
  rewrite <- (trimEnd_cons c t Hc). apply trimEnd_idempotent.
Qed.

Lemma trimStart_blank (blank s : string) :
  allChars JS.isSpace blank = true ->
  JS.trimStart (blank ++ s) = JS.trimStart s.
Proof.
  induction blank as [|c blank IH]; intros H; [reflexivity|].
  cbn in H |- *. apply andb_true_iff in H as [Hc Hb].
  rewrite Hc. now apply IH.
Qed.

(** *** Pieces *)

(** No piece holds the separator. *)
Lemma split_pieces (sep : ascii) (s : string) :
  Forall (fun p => JS.countChar sep p = 0) (JS.split sep s).
Proof.
  induction s as [|c s IH]; cbn [JS.split].
  - now constructor.
  - destruct (Ascii.eqb c sep) eqn:E.
    + constructor; [reflexivity | assumption].
    + destruct (JS.split sep s) as [|p ps].
      * constructor; [|constructor]. cbn [JS.countChar]. now rewrite E.
      * inversion IH as [|? ? Hp Hps]; subst. constructor; [|assumption].
        cbn [JS.countChar]. now rewrite E.
Qed.

(** The first piece starts as the string does. *)
Lemma split_head (sep : ascii) (s : string) :
  exists p ps, JS.split sep s = p :: ps
               /\ forall w, JS.countChar sep w = 0 ->
                            JS.startsWith w p = JS.startsWith w s.
Proof.
  induction s as [|c s IH]; cbn [JS.split].
  - exists "", []. split; [reflexivity|]. now intros w _.
  - destruct (Ascii.eqb c sep) eqn:E.
    + exists "", (JS.split sep s). split; [reflexivity|].
      intros [|a w] Hw; [reflexivity|].
      cbn [JS.countChar] in Hw.
      destruct (Ascii.eqb a sep) eqn:Ea; [discriminate|].
      apply Ascii.eqb_eq in E. subst c.
      cbn [JS.startsWith]. now rewrite Ea.
    + destruct IH as (p & ps & -> & H).
      exists (String c p), ps. split; [reflexivity|].
      intros [|a w] Hw; [reflexivity|].
      cbn [JS.countChar] in Hw.
      destruct (Ascii.eqb a sep) eqn:Ea; [discriminate|].
      cbn [JS.startsWith]. now rewrite (H w Hw).
Qed.

(** The pieces of what follows the last separator end the list. *)
Lemma split_app_sep (sep : ascii) (b : string) :
  forall a, exists p ps,
    JS.split sep (a ++ String sep b) = (p :: ps) +++ JS.split sep b.
Proof.
  induction a as [|c a IH]; cbn [append JS.split].
  - rewrite Ascii.eqb_refl. now exists "", [].
  - destruct IH as (p & ps & ->).
    destruct (Ascii.eqb c sep).
    + now exists "", (p :: ps).
    + now exists (String c p), ps.
Qed.

Lemma split_whole (sep : ascii) :
  forall s, JS.includes (String sep "") s = false -> JS.split sep s = [s].
Proof.
  induction s as [|c s IH]; intros H; [reflexivity|].
  apply includes_char_cons in H as [H1 H2].
  cbn [JS.split]. rewrite Ascii.eqb_sym, H1. now rewrite IH.
Qed.

Lemma removeFirst_suffix (c : ascii) (w : string) :
  forall s, JS.includes (String c "") s = false ->
            JS.removeFirst (String c w) (s ++ String c w) = s.
Proof.
  induction s as [|d s IH]; intros H.
  - cbn [append]. rewrite ProviderFacts.removeFirst_here.
    + rewrite <- (append_nil_r (String c w)) at 2. apply drop_append_length.
    + rewrite <- (append_nil_r (String c w)) at 2. apply startsWith_append.
  - apply includes_char_cons in H as [H1 H2].
    cbn [append JS.removeFirst JS.startsWith]. rewrite H1. cbn [andb].
    now rewrite IH.
Qed.

End TextFacts.

(** ** The matcher: absent literals, greedy classes *)
Module EngineFacts.
Import Regex Route Views JSArray StringFacts RegexFacts CutFacts TextFacts.

Lemma lit_starts (w : string) : StartsWithLiteral (lit w) w.
Proof. intros prev s caps k H. now rewrite matchR_lit, H. Qed.

Lemma seq_starts (w : string) (r : regex) : StartsWithLiteral (Seq (lit w) r) w.
Proof. intros prev s caps k H. cbn [matchR]. now rewrite matchR_lit, H. Qed.

Lemma execAllFrom_absent (r : regex) (w : string) :
  StartsWithLiteral r w ->
  forall s bef prev, JS.includes w s = false -> execAllFrom r bef prev s 0 = [].
Proof.
  intros Hr. induction s as [|c s IH]; intros bef prev H.
  - cbn [execAllFrom]. unfold matchAt.
    now rewrite Hr by now apply includes_nil_false.
  - apply includes_cons_false in H as [H1 H2].
    cbn [execAllFrom]. unfold matchAt. rewrite Hr by assumption.
    now apply IH.
Qed.

Lemma execAll_absent (r : regex) (w s : string) :
  StartsWithLiteral r w -> JS.includes w s = false -> execAll r s = [].
Proof. intros Hr H. now apply (execAllFrom_absent r w Hr). Qed.

Lemma searchFrom_skip (r : regex) (w : string) :
  StartsWithLiteral r w ->
  forall pre s bef prev,
    JS.indexOf w (pre ++ s) = Some (String.length pre) ->
    searchFrom r bef prev (pre ++ s)
    = searchFrom r (bef ++ pre) (lastChar prev pre) s.
Proof.
  intros Hr. induction pre as [|c pre IH]; intros s bef prev H.
  - cbn [append lastChar]. now rewrite append_nil_r.
  - cbn [append String.length] in H |- *.
    cbn [JS.indexOf] in H.
    destruct (JS.startsWith w (String c (pre ++ s))) eqn:E; [discriminate|].
    destruct (JS.indexOf w (pre ++ s)) as [n|] eqn:En; [|discriminate].
    cbn [option_map] in H. injection H as ->.
    cbn [searchFrom]. unfold matchAt. rewrite Hr by assumption.
    rewrite IH by assumption. now rewrite append_snoc.
Qed.

(** A greedy star over a class reads all the letters of the class when the
    continuation accepts what follows them. *)
Lemma starLoop_greedy_class (p : ascii -> bool) (k : cont) (c : ascii)
  (rest : string) (x : string * captures) :
  p c = false ->
  forall letters fuel prev caps,
    allChars p letters = true ->
    String.length (letters ++ String c rest) <= fuel ->
    k (lastChar prev letters) (String c rest) caps = Some x ->
    starLoop (matchR (Chr p)) true k fuel prev (letters ++ String c rest) caps
    = Some x.
Proof.
  intros Hc. induction letters as [|d letters IH]; intros fuel prev caps Hall Hfuel Hk.
  - cbn [append lastChar] in *. destruct fuel as [|fuel]; [exact Hk|].
    cbn [starLoop matchR]. now rewrite Hc.
  - cbn [allChars] in Hall. apply andb_true_iff in Hall as [Hd Hall].
    cbn [append String.length lastChar] in *.
    destruct fuel as [|fuel]; [lia|].
    cbn [starLoop matchR]. rewrite Hd.
    assert (L : Nat.ltb (String.length (letters ++ String c rest))
                  (String.length (String d (letters ++ String c rest))) = true)
      by (apply Nat.ltb_lt; cbn [String.length]; lia).
    rewrite L. now rewrite IH by (assumption || lia).
Qed.

Lemma matchAt_fence (lang code rest : string) (prev : option ascii) :
  allChars isWord lang = true ->
  JS.indexOf "```" (code ++ "```" ++ rest) = Some (String.length code) ->
  matchAt fenceRegex prev ("```" ++ lang ++ NL ++ code ++ "```" ++ rest)
  = Some (rest, [(1, code)]).
Proof.
  intros Hl Hc. unfold matchAt, fenceRegex. cbn [seqs matchR].
  rewrite matchR_lit, startsWith_append, drop_append_length.
  unfold star, word. cbn [matchR].
  change (NL ++ code ++ "```" ++ rest) with (String newline (code ++ "```" ++ rest)).
  apply starLoop_greedy_class; [reflexivity | assumption | apply le_n |].
  rewrite matchR_lit.
  change (JS.startsWith NL (String newline (code ++ "```" ++ rest)))
    with (Ascii.eqb newline newline && true).
  rewrite Ascii.eqb_refl. cbn [andb].
  change (JS.drop (String.length NL) (String newline (code ++ "```" ++ rest)))
    with (code ++ "```" ++ rest).
  cbn [matchR]. rewrite matchR_lazy_any.
  rewrite (lazyScan_capture 1 "```" (code ++ "```" ++ rest)
             (code ++ "```" ++ rest) "" _ _ eq_refl).
  now rewrite (cut_of_indexOf "```" rest code Hc).
Qed.

End EngineFacts.

(** ** Events that a selection passes over *)
Module EventFacts.
Import Regex Route Views StringFacts RegexFacts CollectFacts StreamFacts
  ParseFacts SessionFacts TextFacts.

Section Quiet.
Context {B : Type} (sel : ProgressEvent -> list B).
Hypothesis quiet : forall e, isAnnouncement e = true -> sel e = [].
Hypothesis silent : forall e, isNotice e = true -> sel e = [].

Lemma quiet_packageEvents message names :
  flat_map sel (packageEvents message names) = [].
Proof.
  induction names as [|n names IH]; [reflexivity|].
  cbn [packageEvents map flat_map]. rewrite quiet by reflexivity. exact IH.
Qed.

Lemma quiet_recordEvent index filePath :
  flat_map sel (recordEvent index filePath) = [].
Proof.
  unfold recordEvent.
  destruct (JS.includes "components/" filePath);
    [cbn [flat_map]; now rewrite quiet|].
  destruct (JS.includes "App.jsx" filePath); [|reflexivity].
  cbn [flat_map]. now rewrite quiet.
Qed.

Lemma quiet_notices (evs : list ProgressEvent) :
  Forall (fun e => isNotice e = true) evs -> flat_map sel evs = [].
Proof.
  induction 1 as [|e evs He _ IH]; [reflexivity|].
  cbn [flat_map]. rewrite IH.
  now rewrite silent.
Qed.

Lemma quiet_blocks isEdit st : flat_map sel (snd (blocksOf isEdit st)) = [].
Proof.
  destruct (blocksOf_continues isEdit st) as (new & _ & -> & _).
  cbn [snd app]. apply quiet_packageEvents.
Qed.

Lemma quiet_parse isEdit index :
  forall ms ps,
    flat_map sel (parseEvents (fold_left (parseFile isEdit index) ms ps))
    = flat_map sel (parseEvents ps).
Proof.
  induction ms as [|m ms IH]; intros ps; [reflexivity|].
  cbn [fold_left]. rewrite IH.
  destruct (parseFile_step isEdit index ps m) as (new & _ & -> & _).
  rewrite !flat_map_app, quiet_packageEvents, quiet_recordEvent.
  now rewrite !app_nil_r.
Qed.

Lemma quiet_parsed isEdit st :
  flat_map sel (parseEvents (parsedOf isEdit st)) = [].
Proof. unfold parsedOf, parseFiles. now rewrite quiet_parse. Qed.

Lemma quiet_recovered enable completion st :
  flat_map sel (snd (recoveredOf enable completion st)) = [].
Proof. apply quiet_notices, recover_notices. Qed.

(** What a chunk sends besides its conversation and stream events. *)
Lemma quiet_ingest isEdit st text :
  exists conv,
    flat_map sel (snd (ingest isEdit st text))
    = flat_map sel conv +++ sel (EStream text)
    /\ (conv = []
        \/ conv = [EConversation (JS.trim (conversationalBuffer st))]
           /\ JS.truthy (JS.trim (conversationalBuffer st)) = true).
Proof.
  unfold ingest. cbn [fst snd].
  match goal with
  | |- context [(if ?b then [EConversation ?x] else []) +++ _] =>
      exists (if b then [EConversation x] else [])
  end.
  split.
  - rewrite !flat_map_app.
    match goal with
    | |- context [flat_map sel (if ?b then recordEvent ?i ?p else [])] =>
        replace (flat_map sel (if b then recordEvent i p else []))
          with (@nil B)
          by (destruct b; [now rewrite quiet_recordEvent | reflexivity])
    end.
    match goal with
    | |- context [flat_map sel (snd (fst ?sc))] =>
        replace (flat_map sel (snd (fst sc))) with (@nil B)
    end.
    + cbn [flat_map]. now rewrite !app_nil_r.
    + destruct isEdit; [|reflexivity].
      destruct (scanPackageTags_continues (tagBuffer st ++ text)
                  (packagesToInstall st)) as (new & _ & -> & _).
      cbn [snd app]. now rewrite quiet_packageEvents.
  - match goal with
    | |- (if ?b then _ else _) = [] \/ _ => destruct b eqn:E
    end; [right | now left].
    split; [reflexivity|].
    apply andb_true_iff in E as [E _]. now apply andb_true_iff in E as [_ E].
Qed.

End Quiet.

(** *** The stream events *)

Lemma streamTexts_quiet (e : ProgressEvent) :
  isAnnouncement e = true -> match e with EStream t => [t] | _ => [] end = [].
Proof. now destruct e. Qed.

Lemma streamTexts_silent (e : ProgressEvent) :
  isNotice e = true -> match e with EStream t => [t] | _ => [] end = [].
Proof. now destruct e. Qed.

Lemma streamTexts_ingest isEdit st text :
  streamTexts (snd (ingest isEdit st text)) = [text].
Proof.
  unfold streamTexts.
  destruct (quiet_ingest _ streamTexts_quiet isEdit st text)
    as (conv & -> & [-> | [-> _]]); reflexivity.
Qed.

Lemma streamTexts_streamLoop isEdit :
  forall cs st, streamTexts (snd (streamLoop isEdit cs st)) = cs.
Proof.
  induction cs as [|text cs IH]; intros st; [reflexivity|].
  cbn [streamLoop snd]. unfold streamTexts in *.
  rewrite flat_map_app. fold (streamTexts (snd (ingest isEdit st text))).
  now rewrite streamTexts_ingest, IH.
Qed.

Lemma streamTexts_postStream ses : streamTexts (postStream ses) = [].
Proof.
  unfold postStream. destruct (streamError ses) as [message|].
  - unfold onError. now destruct (JS.includes _ message).
  - unfold afterStream, streamTexts. rewrite !flat_map_app.
    rewrite (quiet_blocks _ streamTexts_quiet),
      (quiet_parsed _ streamTexts_quiet), (quiet_recovered _ streamTexts_silent).
    unfold flushConversation.
    now destruct (JS.truthy (JS.trim (conversationalBuffer _))).
Qed.

(** *** The conversation events *)

Lemma conversationTexts_quiet (e : ProgressEvent) :
  isAnnouncement e = true ->
  match e with EConversation t => [t] | _ => [] end = [].
Proof. now destruct e. Qed.

Lemma conversationTexts_silent (e : ProgressEvent) :
  isNotice e = true -> match e with EConversation t => [t] | _ => [] end = [].
Proof. now destruct e. Qed.

Lemma conversation_ingest isEdit st text :
  Forall Trimmed (conversationTexts (snd (ingest isEdit st text))).
Proof.
  unfold conversationTexts.
  destruct (quiet_ingest _ conversationTexts_quiet isEdit st text)
    as (conv & -> & [-> | [-> H]]); cbn [flat_map app]; [constructor|].
  constructor; [|constructor]. split; [assumption | apply trim_idempotent].
Qed.

Lemma conversation_streamLoop isEdit :
  forall cs st,
    Forall Trimmed (conversationTexts (snd (streamLoop isEdit cs st))).
Proof.
  induction cs as [|text cs IH]; intros st; [constructor|].
  cbn [streamLoop snd]. unfold conversationTexts in *.
  rewrite flat_map_app. apply Forall_app. split; [|apply IH].
  apply conversation_ingest.
Qed.

Lemma conversation_postStream ses :
  Forall Trimmed (conversationTexts (postStream ses)).
Proof.
  unfold postStream. destruct (streamError ses) as [message|].
  - unfold onError. destruct (JS.includes _ message); constructor.
  - unfold afterStream, conversationTexts. rewrite !flat_map_app.
    rewrite (quiet_blocks _ conversationTexts_quiet),
      (quiet_parsed _ conversationTexts_quiet),
      (quiet_recovered _ conversationTexts_silent).
    unfold flushConversation.
    destruct (JS.truthy (JS.trim (conversationalBuffer _))) eqn:E;
      cbn [flat_map app]; constructor; [|constructor].
    split; [assumption | apply trim_idempotent].
Qed.

(** *** The info events *)

Lemma infoMessages_quiet (e : ProgressEvent) :
  isAnnouncement e = true -> match e with EInfo m => [m] | _ => [] end = [].
Proof. now destruct e. Qed.

Lemma infoMessages_streamLoop isEdit :
  forall cs st, infoMessages (snd (streamLoop isEdit cs st)) = [].
Proof.
  induction cs as [|text cs IH]; intros st; [reflexivity|].
  cbn [streamLoop snd]. unfold infoMessages in *. rewrite flat_map_app, IH.
  destruct (quiet_ingest _ infoMessages_quiet isEdit st text)
    as (conv & -> & [-> | [-> _]]); reflexivity.
Qed.

Lemma infoMessages_repairLoop completion :
  forall truncatedFiles k code,
    infoMessages (snd (repairLoop completion k truncatedFiles code))
    = map (fun filePath => "Completing " ++ filePath ++ "...") truncatedFiles.
Proof.
  induction truncatedFiles as [|filePath rest IH]; intros k code;
    [reflexivity|].
  cbn [repairLoop snd map]. unfold infoMessages in *.
  rewrite flat_map_app, IH. unfold repairFile.
  now destruct (completion k filePath).
Qed.

(** *** The counter of the component events *)

Lemma componentIndices_ingest isEdit st text :
  componentIndices (snd (ingest isEdit st text))
  = seq (S (componentCount st))
      (componentCount (fst (ingest isEdit st text)) - componentCount st)
  /\ componentCount st <= componentCount (fst (ingest isEdit st text)).
Proof.
  unfold ingest. cbn [fst snd componentCount]. unfold componentIndices.
  rewrite !flat_map_app.
  match goal with
  | |- context [flat_map ?f (if ?b then [EConversation ?x] else [])] =>
      replace (flat_map f (if b then [EConversation x] else []))
        with (@nil nat) by (destruct b; reflexivity)
  end.
  match goal with
  | |- context [flat_map ?f (snd (fst ?sc))] =>
      replace (flat_map f (snd (fst sc))) with (@nil nat)
  end.
  2:{ destruct isEdit; [|reflexivity].
      destruct (scanPackageTags_continues (tagBuffer st ++ text)
                  (packagesToInstall st)) as (new & _ & -> & _).
      cbn [snd app]. induction new; [reflexivity | assumption]. }
  cbn [flat_map app]. unfold recordEvent.
  match goal with
  | |- context [JS.includes "components/" ?p] =>
      generalize (JS.includes "App.jsx" p);
      generalize (JS.includes "components/" p)
  end.
  match goal with
  | |- context [?a && JS.includes "</file>" ?f] =>
      generalize (a && JS.includes "</file>" f)
  end.
  intros [] [] []; cbn [andb flat_map app];
    rewrite ?Nat.sub_diag;
    replace (S (componentCount st) - componentCount st) with 1 by lia;
    split; (reflexivity || lia).
Qed.

Lemma componentIndices_streamLoop isEdit :
  forall cs st,
    componentIndices (snd (streamLoop isEdit cs st))
    = seq (S (componentCount st))
        (componentCount (fst (streamLoop isEdit cs st)) - componentCount st)
    /\ componentCount st <= componentCount (fst (streamLoop isEdit cs st)).
Proof.
  induction cs as [|text cs IH]; intros st.
  - cbn [streamLoop fst snd]. rewrite Nat.sub_diag. split; [reflexivity | lia].
  - cbn [streamLoop fst snd]. unfold componentIndices in *.
    rewrite flat_map_app.
    destruct (componentIndices_ingest isEdit st text) as [H1 H2].
    destruct (IH (fst (ingest isEdit st text))) as [H3 H4].
    unfold componentIndices in H1. rewrite H1, H3.
    split; [|lia].
    replace (S (componentCount (fst (ingest isEdit st text))))
      with (S (componentCount st)
            + (componentCount (fst (ingest isEdit st text)) - componentCount st))
      by lia.
    rewrite <- seq_app. f_equal. lia.
Qed.

(** *** A stream without the open marker *)

Lemma ingest_outside isEdit st text :
  JS.includes fileOpen text = false ->
  isInFile st = false ->
  isInFile (fst (ingest isEdit st text)) = false
  /\ componentCount (fst (ingest isEdit st text)) = componentCount st
  /\ recordCompleted (snd (ingest isEdit st text)) = [].
Proof.
  intros H I. unfold ingest. cbn [fst snd isInFile componentCount].
  rewrite H, I. cbn [andb]. repeat split.
  rewrite !recordCompleted_app.
  match goal with
  | |- context [recordCompleted (if ?b then [EConversation ?x] else [])] =>
      replace (recordCompleted (if b then [EConversation x] else []))
        with (@nil ProgressEvent) by (destruct b; reflexivity)
  end.
  match goal with
  | |- context [recordCompleted (snd (fst ?sc))] =>
      replace (recordCompleted (snd (fst sc))) with (@nil ProgressEvent)
  end; [reflexivity|].
  destruct isEdit; [|reflexivity].
  destruct (scanPackageTags_continues (tagBuffer st ++ text)
              (packagesToInstall st)) as (new & _ & -> & _).
  cbn [snd app]. now rewrite packageEvents_completed.
Qed.

Lemma streamLoop_outside isEdit :
  forall cs st,
    JS.includes fileOpen (JS.concat cs) = false ->
    isInFile st = false ->
    componentCount (fst (streamLoop isEdit cs st)) = componentCount st
    /\ recordCompleted (snd (streamLoop isEdit cs st)) = [].
Proof.
  induction cs as [|text cs IH]; intros st H I; [now split|].
  cbn [JS.concat] in H. apply includes_app_false in H as [H1 H2].
  destruct (ingest_outside isEdit st text H1 I) as (I' & C & R).
  destruct (IH (fst (ingest isEdit st text)) H2 I') as [C' R'].
  cbn [streamLoop fst snd]. rewrite recordCompleted_app, R, R', C', C.
  now split.
Qed.

(** *** Repairs with the same answers *)

Lemma repairLoop_ext (c1 c2 : Completion) :
  (forall k filePath, c1 k filePath = c2 k filePath) ->
  forall truncatedFiles k code,
    repairLoop c1 k truncatedFiles code = repairLoop c2 k truncatedFiles code.
Proof.
  intros H. induction truncatedFiles as [|filePath rest IH]; intros k code;
    [reflexivity|].
  cbn [repairLoop]. now rewrite H, IH.
Qed.

Lemma recover_ext (c1 c2 : Completion) enable code warnings :
  (forall k filePath, c1 k filePath = c2 k filePath) ->
  recover enable c1 code warnings = recover enable c2 code warnings.
Proof.
  intros H. unfold recover.
  destruct warnings; [reflexivity|]. destruct enable; [|reflexivity].
  destruct (truncatedFilesOf code); [reflexivity|].
  now rewrite (repairLoop_ext c1 c2 H).
Qed.

End EventFacts.

(** ** Package names and file names *)
Module NameFacts.
Import Regex Route Views JSArray StringFacts CollectFacts TextFacts.

Lemma countChar_append (c : ascii) (a b : string) :
  JS.countChar c (a ++ b) = JS.countChar c a + JS.countChar c b.
Proof.
  induction a as [|d a IH]; [reflexivity|].
  cbn [append JS.countChar]. rewrite IH. lia.
Qed.

Lemma startsWith_char_count (c : ascii) (s : string) :
  JS.countChar c s = 0 -> JS.startsWith (String c "") s = false.
Proof.
  destruct s as [|d s]; [reflexivity|].
  cbn [JS.countChar JS.startsWith].
  destruct (Ascii.eqb d c) eqn:E; [discriminate|].
  intros _. now rewrite Ascii.eqb_sym, E.
Qed.

(** What [packageNameOf] makes of a path that passed the filter. *)
Lemma packageNameOf_shape (importPath : string) :
  isExternalImport importPath = true ->
  isInstallable (packageNameOf importPath) = true.
Proof.
  unfold isExternalImport, isInstallable. intros H.
  repeat (apply andb_true_iff in H as [H ?]).
  apply negb_true_iff in H.
  destruct (split_head "/" importPath) as (p & ps & E & Hh).
  pose proof (split_pieces "/" importPath) as Hp. rewrite E in Hp.
  inversion Hp as [|? ? Hp0 Hps]; subst.
  unfold packageNameOf. rewrite E.
  pose proof (Hh "." eq_refl) as Hdot. pose proof (Hh "@" eq_refl) as Hat.
  destruct (JS.startsWith "@" importPath) eqn:Eat.
  - destruct p as [|a p]; [discriminate|].
    cbn [JS.startsWith] in Hat. rewrite andb_true_r in Hat.
    apply Ascii.eqb_eq in Hat. subst a.
    destruct ps as [|q ps]; cbn [firstn JS.join].
    + cbn [JS.startsWith Ascii.eqb Bool.eqb andb negb].
      apply Nat.leb_le. rewrite Hp0. lia.
    + inversion Hps as [|? ? Hq _]; subst.
      assert (C : JS.countChar "/" (String "@" p ++ "/" ++ q) = 1).
      { rewrite !countChar_append, Hp0, Hq. reflexivity. }
      rewrite C. reflexivity.
  - cbn [hd]. rewrite Hdot, H, Hat.
    rewrite (startsWith_char_count "/" p Hp0). cbn [negb andb].
    apply Nat.leb_le. lia.
Qed.

(** *** The list of a packages block *)

Lemma allChars_append (p : ascii -> bool) (a b : string) :
  allChars p (a ++ b) = allChars p a && allChars p b.
Proof.
  induction a as [|c a IH]; [reflexivity|].
  cbn [append allChars]. now rewrite IH, andb_assoc.
Qed.

Lemma allChars_impl (p q : ascii -> bool) (s : string) :
  (forall c, p c = true -> q c = true) ->
  allChars p s = true -> allChars q s = true.
Proof.
  intros H. induction s as [|c s IH]; [reflexivity|].
  cbn [allChars]. intros E. apply andb_true_iff in E as [E1 E2].
  now rewrite (H c E1), IH.
Qed.

Lemma splitRuns_whole (isSep : ascii -> bool) :
  forall s f,
    allChars (fun c => negb (isSep c)) s = true ->
    JS.splitRuns isSep f s = [s].
Proof.
  induction s as [|c s IH]; intros f H; [reflexivity|].
  cbn [allChars] in H. apply andb_true_iff in H as [Hc Hs].
  apply negb_true_iff in Hc.
  cbn [JS.splitRuns]. rewrite Hc. now rewrite IH.
Qed.

Lemma splitRuns_piece (isSep : ascii -> bool) (c : ascii) (rest : string) :
  isSep c = true ->
  forall n f,
    allChars (fun c => negb (isSep c)) n = true ->
    n <> "" \/ f = false ->
    JS.splitRuns isSep f (n ++ String c rest)
    = n :: JS.splitRuns isSep true rest.
Proof.
  intros Hc. induction n as [|d n IH]; intros f H Hf.
  - destruct Hf as [Hf | ->]; [contradiction|].
    cbn [append JS.splitRuns]. now rewrite Hc.
  - cbn [allChars] in H. apply andb_true_iff in H as [Hd Hn].
    apply negb_true_iff in Hd.
    cbn [append JS.splitRuns]. rewrite Hd.
    rewrite IH by (assumption || now right). reflexivity.
Qed.

Lemma trim_blank (blank n : string) :
  allChars JS.isSpace blank = true -> JS.trim n = n ->
  JS.trim (blank ++ n) = n.
Proof.
  intros Hb Hn. unfold JS.trim in *. now rewrite trimStart_blank.
Qed.

Lemma isPackageName_spec (n : string) :
  isPackageName n = true ->
  n <> "" /\ JS.trim n = n
  /\ allChars (fun c => negb (isListSeparator c)) n = true.
Proof.
  unfold isPackageName. intros H.
  apply andb_true_iff in H as [H H3]. apply andb_true_iff in H as [H1 H2].
  apply String.eqb_eq in H2. repeat split; try assumption.
  intros ->. discriminate.
Qed.

Lemma isBlank_spec (blank : string) :
  isBlank blank = true ->
  allChars JS.isSpace blank = true
  /\ allChars (fun c => negb (isListSeparator c)) blank = true.
Proof.
  unfold isBlank. intros H. split; revert H; apply allChars_impl;
    intros c E; now apply andb_true_iff in E.
Qed.

(** The pieces of a list written with one separator and blanks. *)
Lemma pieces_of_join (c : ascii) (blank : string) :
  isListSeparator c = true ->
  isBlank blank = true ->
  forall rest n pfx f,
    isBlank pfx = true ->
    Forall (fun n => isPackageName n = true) (n :: rest) ->
    map JS.trim
      (JS.splitRuns isListSeparator f
         (pfx ++ JS.join (String c blank) (n :: rest)))
    = n :: rest.
Proof.
  intros Hc Hb.
  destruct (isBlank_spec blank Hb) as [Hb1 Hb2].
  induction rest as [|m rest IH]; intros n pfx f Hp Hn;
    destruct (isBlank_spec pfx Hp) as [Hp1 Hp2];
    inversion Hn as [|? ? Hn0 Hrest]; subst;
    destruct (isPackageName_spec n Hn0) as (N1 & N2 & N3).
  - cbn [JS.join]. rewrite splitRuns_whole
      by (rewrite allChars_append, Hp2, N3; reflexivity).
    cbn [map]. now rewrite trim_blank.
  - change (JS.join (String c blank) (n :: m :: rest))
      with (n ++ String c blank ++ JS.join (String c blank) (m :: rest)).
    rewrite <- append_assoc.
    change (String c blank ++ JS.join (String c blank) (m :: rest))
      with (String c (blank ++ JS.join (String c blank) (m :: rest))).
    rewrite splitRuns_piece; try assumption.
    + cbn [map]. rewrite trim_blank by assumption.
      now rewrite IH.
    + rewrite allChars_append, Hp2, N3. reflexivity.
    + left. destruct pfx; [|discriminate]. cbn [append].
      assumption.
Qed.

Lemma filter_named (names : list string) :
  Forall (fun n => isPackageName n = true) names ->
  filter (fun pkg => Nat.ltb 0 (String.length pkg)) names = names.
Proof.
  induction 1 as [|n names Hn _ IH]; [reflexivity|].
  cbn [filter]. rewrite IH.
  destruct (isPackageName_spec n Hn) as (N1 & _).
  destruct n; [contradiction | reflexivity].
Qed.

(** *** The name of a component *)

Lemma includes_char_absent (c d : ascii) (s : string) :
  Ascii.eqb c d = false -> JS.includes (String c "") s = false ->
  JS.includes (String c "") (String d s) = false.
Proof.
  unfold JS.includes. intros H1 H2. cbn [JS.indexOf JS.startsWith].
  rewrite H1. cbn [andb].
  now destruct (JS.indexOf (String c "") s).
Qed.

Lemma includes_char_append (c : ascii) (a b : string) :
  JS.includes (String c "") a = false -> JS.includes (String c "") b = false ->
  JS.includes (String c "") (a ++ b) = false.
Proof.
  induction a as [|d a IH]; intros Ha Hb; [assumption|].
  apply includes_char_cons in Ha as [H1 H2].
  cbn [append]. apply includes_char_absent; [assumption|]. now apply IH.
Qed.

Lemma componentNameOf_path (dir name : string) :
  JS.truthy name = true ->
  JS.includes "/" name = false -> JS.includes "." name = false ->
  componentNameOf (dir ++ "/" ++ name ++ ".jsx") = name.
Proof.
  intros Ht Hs Hd. unfold componentNameOf.
  change (dir ++ "/" ++ name ++ ".jsx")
    with (dir ++ String "/" (name ++ ".jsx")).
  destruct (split_app_sep "/" (name ++ ".jsx") dir) as (p & ps & ->).
  rewrite split_whole
    by (apply includes_char_append; [assumption | reflexivity]).
  rewrite last_last.
  rewrite (removeFirst_suffix "." "jsx" name Hd). now rewrite Ht.
Qed.

End NameFacts.

(** ** The look-back text of the package tags *)
Module LookBackFacts.
Import Regex Route Views JSArray StringFacts RegexFacts CutFacts CollectFacts
  TextFacts EngineFacts NameFacts.

Lemma starLoop_after (body : option ascii -> string -> captures -> cont -> result)
  (greedy : bool) (k : cont) :
  (forall prev s caps k' x,
      body prev s caps k' = Some x -> ReachesAfter k' s x) ->
  forall fuel prev s caps x,
    starLoop body greedy k fuel prev s caps = Some x -> ReachesAfter k s x.
Proof.
  intros Hbody. induction fuel as [|fuel IH]; intros prev s caps x H.
  - cbn [starLoop] in H. now exists prev, "", s, caps.
  - cbn [starLoop] in H.
    assert (Hstop : k prev s caps = Some x -> ReachesAfter k s x)
      by (intros E; now exists prev, "", s, caps).
    assert (Hmore :
              body prev s caps
                (fun prev' s' caps' =>
                   if Nat.ltb (String.length s') (String.length s)
                   then starLoop body greedy k fuel prev' s' caps' else None)
              = Some x -> ReachesAfter k s x).
    { intros E. apply Hbody in E. destruct E as (p & pre & s' & c & -> & E).
      destruct (Nat.ltb _ _); [|discriminate].
      apply IH in E. destruct E as (p' & pre' & s'' & c' & -> & E).
      exists p', (pre ++ pre'), s'', c'. split; [|exact E].
      now rewrite append_assoc. }
    destruct greedy.
    + destruct (body prev s caps _) eqn:E; [injection H as ->; auto | auto].
    + destruct (k prev s caps) eqn:E; [injection H as ->; auto | auto].
Qed.

Lemma matchR_after (r : regex) :
  forall prev s caps k x,
    matchR r prev s caps k = Some x -> ReachesAfter k s x.
Proof.
  induction r as [|p|r1 IH1 r2 IH2|r1 IH1 r2 IH2|g r1 IH1|i r1 IH1| |];
    intros prev s caps k x H; cbn [matchR] in H.
  - now exists prev, "", s, caps.
  - destruct s as [|c s]; [discriminate|]. destruct (p c); [|discriminate].
    now exists (Some c), (String c ""), s, caps.
  - apply IH1 in H. destruct H as (p & pre & s' & c & -> & H).
    apply IH2 in H. destruct H as (p' & pre' & s'' & c' & -> & H).
    exists p', (pre ++ pre'), s'', c'. split; [|exact H].
    now rewrite append_assoc.
  - destruct (matchR r1 prev s caps k) eqn:E.
    + injection H as ->. now apply IH1 in E.
    + now apply IH2 in H.
  - now apply (starLoop_after _ _ _ IH1) in H.
  - apply IH1 in H. destruct H as (p & pre & s' & c & -> & H).
    now exists p, pre, s',
      ((i, JS.take (String.length (pre ++ s') - String.length s') (pre ++ s'))
         :: c).
  - destruct (xorb _ _); [|discriminate]. now exists prev, "", s, caps.
  - destruct s; [|discriminate]. now exists prev, "", "", caps.
Qed.

(** A pattern that ends with a literal matches only where the literal is. *)
Lemma requires_close (open close : string) (r : regex) :
  Requires (seqs [lit open; r; lit close]) close.
Proof.
  intros prev s H. unfold matchAt. cbn [seqs matchR]. rewrite matchR_lit.
  destruct (JS.startsWith open s) eqn:Eo; [|reflexivity].
  destruct (matchR r _ _ _ _) as [x|] eqn:E; [|reflexivity].
  apply matchR_after in E. destruct E as (p & pre & s' & c & Es & E).
  rewrite matchR_lit in E.
  destruct (JS.startsWith close s') eqn:Ec; [|discriminate].
  apply startsWith_split in Eo. apply startsWith_split in Ec.
  rewrite Eo, Es, Ec, <- append_assoc, includes_append in H. discriminate.
Qed.

Lemma execAllFrom_required (r : regex) (w : string) :
  Requires r w ->
  forall s bef prev, JS.includes w s = false -> execAllFrom r bef prev s 0 = [].
Proof.
  intros Hr. induction s as [|c s IH]; intros bef prev H.
  - cbn [execAllFrom]. now rewrite Hr.
  - cbn [execAllFrom]. rewrite Hr by assumption.
    apply includes_cons_false in H as [_ H]. now apply IH.
Qed.

(** Without a close marker in the text nothing is found, and the look-back
    text is kept whole. *)
Lemma scanPackageTags_nothing (searchText : string) (pkgs : list string) :
  JS.includes "</package>" searchText = false ->
  scanPackageTags searchText pkgs = ((pkgs, []), 0).
Proof.
  intros H. unfold scanPackageTags, execAll.
  now rewrite (execAllFrom_required packageRegex "</package>"
                 (requires_close "<package>" "</package>" _)).
Qed.

Lemma ingest_keeps_tagBuffer (st : StreamState) (text : string) :
  JS.includes "</package>" (tagBuffer st ++ text) = false ->
  tagBuffer (fst (ingest true st text)) = tagBuffer st ++ text.
Proof.
  intros H. unfold ingest. cbn [fst tagBuffer].
  rewrite scanPackageTags_nothing by assumption.
  cbn [snd Nat.sub]. now destruct (tagBuffer st ++ text).
Qed.

Lemma noneOf_char (c d : ascii) :
  negb (JS.includes (String c "") (String d "")) = negb (Ascii.eqb c d).
Proof.
  unfold JS.includes. cbn [JS.indexOf JS.startsWith].
  rewrite andb_true_r. now destruct (Ascii.eqb c d).
Qed.

Lemma allChars_absent (d : ascii) :
  forall s, JS.includes (String d "") s = false ->
            allChars (fun c => negb (JS.includes (String c "") (String d ""))) s
            = true.
Proof.
  induction s as [|c s IH]; intros H; [reflexivity|].
  apply includes_char_cons in H as [H1 H2].
  cbn [allChars]. rewrite noneOf_char, Ascii.eqb_sym, H1. now apply IH.
Qed.

Lemma matchR_seq (r1 r2 : regex) prev s caps k :
  matchR (Seq r1 r2) prev s caps k
  = matchR r1 prev s caps (fun prev' s' caps' => matchR r2 prev' s' caps' k).
Proof. reflexivity. Qed.

Lemma matchR_group (i : nat) (r : regex) prev s caps k :
  matchR (Group i r) prev s caps k
  = matchR r prev s caps
      (fun prev' s' caps' =>
         k prev' s'
           ((i, JS.take (String.length s - String.length s') s) :: caps')).
Proof. reflexivity. Qed.

Lemma matchR_chr (p : ascii -> bool) prev c s caps k :
  matchR (Chr p) prev (String c s) caps k
  = if p c then k (Some c) s caps else None.
Proof. reflexivity. Qed.

Lemma matchR_star (greedy : bool) (r : regex) prev s caps k :
  matchR (Star greedy r) prev s caps k
  = starLoop (matchR r) greedy k (String.length s) prev s caps.
Proof. reflexivity. Qed.

(** The whole tag is matched where it starts. *)
Lemma matchAt_package (name rest : string) (prev : option ascii) :
  name <> "" -> JS.includes "<" name = false ->
  matchAt packageRegex prev ("<package>" ++ name ++ "</package>" ++ rest)
  = Some (rest, [(1, name)]).
Proof.
  intros Hn Hl. unfold matchAt, packageRegex. cbn [seqs].
  rewrite matchR_seq, matchR_lit, startsWith_append, drop_append_length.
  rewrite matchR_seq, matchR_group. unfold plus, noneOf. rewrite matchR_seq.
  destruct name as [|n0 name]; [contradiction|].
  pose proof (allChars_absent "<" _ Hl) as Ha.
  cbn [allChars] in Ha. apply andb_true_iff in Ha as [Ha0 Ha].
  change (String n0 name ++ "</package>" ++ rest)
    with (String n0 (name ++ String "<" ("/package>" ++ rest))).
  rewrite matchR_chr, Ha0, matchR_star.
  apply starLoop_greedy_class; [reflexivity | exact Ha | apply le_n |].
  cbv beta. rewrite matchR_lit.
  change (String "<" ("/package>" ++ rest)) with ("</package>" ++ rest).
  rewrite startsWith_append, drop_append_length. unfold accept.
  change (String n0 (name ++ "</package>" ++ rest))
    with (String n0 name ++ "</package>" ++ rest).
  now rewrite take_length_diff.
Qed.

Lemma offeredByTags_whole (name : string) :
  isTagName name = true ->
  In name (offeredByTags ("<package>" ++ name ++ "</package>")).
Proof.
  unfold isTagName. intros H.
  apply andb_true_iff in H as [H H3]. apply andb_true_iff in H as [H1 H2].
  apply String.eqb_eq in H2. apply negb_true_iff in H3.
  assert (Hn : name <> "") by (intros ->; discriminate).
  unfold offeredByTags, execAll.
  pose proof (matchAt_package name "" None Hn H3) as M.
  destruct ("<package>" ++ name ++ "</package>" ++ "") eqn:S;
    [discriminate|].
  rewrite <- (append_nil_r "</package>"), S.
  cbn [execAllFrom]. rewrite M. cbn [flat_map].
  apply in_or_app. left.
  unfold group, mkMatchAt. cbn [groups capture Nat.eqb].
  rewrite H2, H1. now left.
Qed.

End LookBackFacts.

(** ** The extractor on well-formed records *)
Module RecordFacts.
Import Regex Route Examples Views JSArray StringFacts RegexFacts CutFacts
  CollectFacts TextFacts EngineFacts NameFacts LookBackFacts ConversationFacts.

(** *** First occurrences *)

(** A prefix of [a ++ t] lies in [a] or reaches into [t]. *)
Lemma startsWith_app_cases (w : string) :
  forall a t,
    JS.startsWith w (a ++ t) = true ->
    (exists a2, a = w ++ a2)
    \/ (exists w2, w = a ++ w2 /\ JS.startsWith w2 t = true).
Proof.
  induction w as [|c w IH]; intros a t H.
  - left. now exists a.
  - destruct a as [|d a].
    + right. now exists (String c w).
    + cbn [append JS.startsWith] in H. apply andb_true_iff in H as [H1 H2].
      apply Ascii.eqb_eq in H1. subst d.
      destruct (IH a t H2) as [[a2 ->] | (w2 & -> & Hw)].
      * left. now exists a2.
      * right. now exists w2.
Qed.

(** When the first character of [w] occurs nowhere else in [w], the first
    occurrence of [w] after a text that holds none is where it is written. *)
Lemma indexOf_written (c : ascii) (w' rest : string) :
  JS.includes (String c "") w' = false ->
  forall a,
    JS.includes (String c w') a = false ->
    JS.indexOf (String c w') (a ++ String c w' ++ rest) = Some (String.length a).
Proof.
  intros Hc. induction a as [|d a IH]; intros Ha.
  - cbn [append String.length]. apply indexOf_here.
    apply (startsWith_append (String c w') rest).
  - apply includes_cons_false in Ha as [Ha1 Ha2].
    change (String d a ++ String c w' ++ rest)
      with (String d (a ++ String c w' ++ rest)).
    rewrite indexOf_later.
    + rewrite (IH Ha2). reflexivity.
    + destruct (JS.startsWith (String c w') (String d (a ++ String c w' ++ rest)))
        eqn:E; [exfalso | reflexivity].
      change (String d (a ++ String c w' ++ rest))
        with (String d a ++ (String c w' ++ rest)) in E.
      apply startsWith_app_cases in E as [[a2 E] | (w2 & E & Hw)].
      * rewrite E, startsWith_append in Ha1. discriminate.
      * destruct w2 as [|e w2].
        -- rewrite append_nil_r in E. rewrite E, startsWith_refl in Ha1.
           discriminate.
        -- cbn [append JS.startsWith] in Hw.
           apply andb_true_iff in Hw as [He _]. apply Ascii.eqb_eq in He.
           subst e. cbn [append] in E. injection E as _ E.
           rewrite E in Hc.
           change (a ++ String c w2) with (a ++ String c "" ++ w2) in Hc.
           rewrite includes_append in Hc. discriminate.
Qed.

(** *** The loop over the matches *)

Lemma execAllFrom_skip (r : regex) (w : string) :
  StartsWithLiteral r w ->
  forall pre s bef prev,
    JS.indexOf w (pre ++ s) = Some (String.length pre) ->
    execAllFrom r bef prev (pre ++ s) 0
    = execAllFrom r (bef ++ pre) (lastChar prev pre) s 0.
Proof.
  intros Hr. induction pre as [|c pre IH]; intros s bef prev H.
  - cbn [append lastChar]. now rewrite append_nil_r.
  - cbn [append String.length] in H |- *.
    cbn [JS.indexOf] in H.
    destruct (JS.startsWith w (String c (pre ++ s))) eqn:E; [discriminate|].
    destruct (JS.indexOf w (pre ++ s)) as [n|] eqn:En; [|discriminate].
    cbn [option_map] in H. injection H as ->.
    cbn [execAllFrom]. unfold matchAt. rewrite Hr by assumption.
    rewrite IH by assumption. now rewrite append_snoc.
Qed.

Lemma execAllFrom_pass (r : regex) :
  forall m rest bef prev,
    execAllFrom r bef prev (m ++ rest) (String.length m)
    = execAllFrom r (bef ++ m) (lastChar prev m) rest 0.
Proof.
  induction m as [|c m IH]; intros rest bef prev.
  - cbn [append String.length lastChar]. now rewrite append_nil_r.
  - cbn [append String.length execAllFrom lastChar].
    rewrite IH. now rewrite append_snoc.
Qed.

Lemma execAllFrom_match (r : regex) (m rest : string) (caps : captures)
  (bef : string) (prev : option ascii) :
  m <> "" ->
  matchAt r prev (m ++ rest) = Some (rest, caps) ->
  execAllFrom r bef prev (m ++ rest) 0
  = mkMatchAt bef (m ++ rest) rest caps
      :: execAllFrom r (bef ++ m) (lastChar prev m) rest 0.
Proof.
  intros Hm H. destruct m as [|c m]; [contradiction|].
  change (String c m ++ rest) with (String c (m ++ rest)) in *.
  cbn [execAllFrom]. rewrite H. f_equal.
  replace (String.length (String c (m ++ rest)) - String.length rest - 1)
    with (String.length m)
    by (cbn [String.length]; rewrite length_append; lia).
  rewrite execAllFrom_pass. cbn [lastChar]. now rewrite append_snoc.
Qed.

(** *** One record *)

Lemma isPath_spec (filePath : string) :
  isPath filePath = true ->
  filePath <> "" /\ JS.includes DQ filePath = false.
Proof.
  unfold isPath. intros H. apply andb_true_iff in H as [H1 H2].
  apply negb_true_iff in H2. split; [|assumption].
  intros ->. discriminate.
Qed.

Lemma matchAt_fileRecord (filePath body rest : string) (prev : option ascii) :
  isPath filePath = true ->
  JS.indexOf "</file>" (body ++ "</file>" ++ rest) = Some (String.length body) ->
  matchAt fileRegex prev (fileRecord filePath body ++ rest)
  = Some (rest, [(2, body); (1, filePath)]).
Proof.
  intros Hp Hb. destruct (isPath_spec filePath Hp) as [Hn Hq].
  unfold matchAt, fileRegex, fileRecord, openMarker. cbn [seqs].
  rewrite !append_assoc.
  rewrite matchR_seq, matchR_lit, startsWith_append, drop_append_length.
  rewrite matchR_seq, matchR_group. unfold plus, noneOf. rewrite matchR_seq.
  destruct filePath as [|p0 filePath]; [contradiction|].
  pose proof (allChars_absent dquote _ Hq) as Ha.
  cbn [allChars] in Ha. apply andb_true_iff in Ha as [Ha0 Ha].
  change (String p0 filePath ++ DQ ++ ">" ++ body ++ "</file>" ++ rest)
    with (String p0
            (filePath ++ String dquote (">" ++ body ++ "</file>" ++ rest))).
  change DQ with (String dquote "") in Ha0 |- *.
  rewrite matchR_chr, Ha0, matchR_star.
  apply starLoop_greedy_class; [reflexivity | exact Ha | apply le_n |].
  cbv beta. rewrite matchR_seq, matchR_lit.
  change (String dquote (">" ++ body ++ "</file>" ++ rest))
    with ((String dquote "" ++ ">") ++ body ++ "</file>" ++ rest).
  rewrite startsWith_append, drop_append_length.
  rewrite matchR_seq, matchR_group, matchR_lazy_any.
  rewrite (lazyScan_capture 2 "</file>" (body ++ "</file>" ++ rest)
             (body ++ "</file>" ++ rest) "" _ _ eq_refl).
  rewrite (cut_of_indexOf "</file>" rest body Hb).
  change (String p0
            (filePath ++ (String dquote "" ++ ">") ++ body ++ "</file>" ++ rest))
    with (String p0 filePath
          ++ (String dquote "" ++ ">") ++ body ++ "</file>" ++ rest).
  now rewrite take_length_diff.
Qed.

Lemma fileRecord_nonempty (filePath body : string) :
  fileRecord filePath body <> "".
Proof. discriminate. Qed.

Lemma wellFormed_spec (r : Written) :
  wellFormed r = true ->
  JS.includes fileOpen (leading r) = false
  /\ isPath (writtenPath r) = true
  /\ JS.includes "</file>" (writtenBody r) = false.
Proof.
  unfold wellFormed. intros H.
  apply andb_true_iff in H as [H H3]. apply andb_true_iff in H as [H1 H2].
  apply negb_true_iff in H1. apply negb_true_iff in H3. now repeat split.
Qed.

(** *** All the records *)

Lemma execAll_document (records : list Written) (tail : string) :
  Forall (fun r => wellFormed r = true) records ->
  JS.includes fileOpen tail = false ->
  forall bef prev,
    map pairOf (execAllFrom fileRegex bef prev (document records tail) 0)
    = map pairWritten records.
Proof.
  intros Hr Ht. induction Hr as [|r records Hw _ IH]; intros bef prev.
  - cbn [document map].
    now rewrite (execAllFrom_absent fileRegex fileOpen (seq_starts fileOpen _)).
  - destruct (wellFormed_spec r Hw) as (Hl & Hp & Hb).
    cbn [document map].
    rewrite (execAllFrom_skip fileRegex fileOpen (seq_starts fileOpen _)).
    2:{ unfold fileRecord, openMarker. rewrite !append_assoc.
        apply (indexOf_written "<" ("file path=" ++ DQ) _ eq_refl); assumption. }
    rewrite (execAllFrom_match fileRegex _ _ [(2, writtenBody r);
                                              (1, writtenPath r)]).
    + cbn [map]. rewrite IH. reflexivity.
    + apply fileRecord_nonempty.
    + apply matchAt_fileRecord; [assumption|].
      now apply (indexOf_written "<" "/file>" _ eq_refl).
Qed.

(** *** White space around a content *)

Lemma trimEnd_blank (blank : string) :
  allChars JS.isSpace blank = true -> JS.trimEnd blank = "".
Proof.
  induction blank as [|c blank IH]; intros H; [reflexivity|].
  cbn [allChars] in H. apply andb_true_iff in H as [Hc Hb].
  rewrite trimEnd_unfold, IH, Hc by assumption. reflexivity.
Qed.

Lemma trimEnd_append_blank (blank : string) :
  allChars JS.isSpace blank = true ->
  forall s, JS.trimEnd (s ++ blank) = JS.trimEnd s.
Proof.
  intros H. induction s as [|c s IH].
  - cbn [append]. now apply trimEnd_blank.
  - cbn [append]. now rewrite !trimEnd_unfold, IH.
Qed.

Lemma trim_append_blank (blank : string) :
  allChars JS.isSpace blank = true ->
  forall s, JS.trim (s ++ blank) = JS.trim s.
Proof.
  intros H. unfold JS.trim. induction s as [|c s IH].
  - cbn [append]. rewrite <- (append_nil_r blank).
    now rewrite trimStart_blank.
  - cbn [append JS.trimStart]. destruct (JS.isSpace c); [assumption|].
    change (String c (s ++ blank)) with (String c s ++ blank).
    now apply trimEnd_append_blank.
Qed.

End RecordFacts.

(** ** The record a repair writes, the files of a keyword search *)
Module WrittenFacts.
Import Regex Route Examples Views JSArray Fallback StringFacts RegexFacts
  CutFacts RepairFacts CollectFacts TextFacts EngineFacts NameFacts RecordFacts
  ConversationFacts.

Lemma includes_cons_absent (w : string) (d : ascii) (s : string) :
  JS.startsWith w (String d s) = false -> JS.includes w s = false ->
  JS.includes w (String d s) = false.
Proof.
  unfold JS.includes. intros H1 H2. cbn [JS.indexOf]. rewrite H1.
  now destruct (JS.indexOf w s).
Qed.

(** A character that [w] does not hold, added at the end, brings no
    occurrence of [w]. *)
Lemma includes_snoc_absent (w : string) (e : ascii) :
  JS.includes (String e "") w = false ->
  forall s, JS.includes w s = false ->
            JS.includes w (s ++ String e "") = false.
Proof.
  intros He.
  assert (Hcase : forall a,
             JS.startsWith w a = false ->
             JS.startsWith w (a ++ String e "") = false).
  { intros a Ha.
    destruct (JS.startsWith w (a ++ String e "")) eqn:E; [exfalso | reflexivity].
    apply startsWith_app_cases in E as [[a2 E] | (w2 & E & Hw)].
    - rewrite E, startsWith_append in Ha. discriminate.
    - destruct w2 as [|x w2].
      + rewrite append_nil_r in E. rewrite E, startsWith_refl in Ha.
        discriminate.
      + cbn [JS.startsWith] in Hw. apply andb_true_iff in Hw as [Hx _].
        apply Ascii.eqb_eq in Hx. subst x.
        rewrite E in He.
        change (a ++ String e w2) with (a ++ String e "" ++ w2) in He.
        rewrite includes_append in He. discriminate. }
  induction s as [|d s IH]; intros H.
  - apply includes_nil_false in H. cbn [append].
    apply includes_cons_absent.
    + now apply (Hcase "").
    + unfold JS.includes. cbn [JS.indexOf]. now rewrite H.
  - apply includes_cons_false in H as [H1 H2]. cbn [append].
    apply includes_cons_absent; [|now apply IH].
    now apply (Hcase (String d s)).
Qed.

Lemma replacement_written (filePath cleanContent : string) :
  replacement filePath cleanContent
  = document [mkWritten "" filePath (NL ++ cleanContent ++ NL)] "".
Proof.
  unfold replacement. cbn [document leading writtenPath writtenBody append].
  unfold fileRecord. now rewrite append_nil_r, !append_assoc.
Qed.

Lemma trim_between_lines (s : string) : JS.trim (NL ++ s ++ NL) = JS.trim s.
Proof.
  unfold JS.trim at 1. rewrite (trimStart_blank NL) by reflexivity.
  fold (JS.trim (s ++ NL)). now apply trim_append_blank.
Qed.

Lemma document_tail (records : list Written) (tail : string) :
  document records tail = document records "" ++ tail.
Proof.
  induction records as [|r records IH]; [reflexivity|].
  cbn [document]. rewrite IH. unfold fileRecord. now rewrite !append_assoc.
Qed.

Lemma document_app (records more : list Written) (tail : string) :
  document (records +++ more) tail = document records (document more tail).
Proof.
  induction records as [|r records IH]; [reflexivity|].
  cbn [app document]. now rewrite IH.
Qed.

Lemma document_snoc (records : list Written) (r : Written) (tail : string) :
  document (records +++ [r]) tail = document records "" ++ document [r] tail.
Proof. now rewrite document_app, document_tail. Qed.

(** *** The replacement string read as a pattern *)

Lemma replacement_plain (filePath cleanContent : string) :
  JS.includes "$" filePath = false ->
  JS.includes "$" cleanContent = false ->
  JS.includes "$" (replacement filePath cleanContent) = false.
Proof.
  intros Hp Hc. unfold replacement, openMarker, fileOpen.
  repeat apply includes_char_append; try reflexivity; assumption.
Qed.

Lemma expand_plain_prefix (u v : string) (m : Match) :
  JS.includes "$" u = false -> expand (u ++ v) m = u ++ expand v m.
Proof.
  induction u as [|c u IH]; intros H; [reflexivity|].
  apply includes_char_cons in H as [H1 H2].
  cbn [append expand]. rewrite Ascii.eqb_sym, H1. now rewrite IH.
Qed.

Lemma expand_dollar_pair (v : string) (m : Match) :
  expand ("$$" ++ v) m = "$" ++ expand v m.
Proof. reflexivity. Qed.

(** The replace statement on a text that ends with a cut record of the
    path. *)
Lemma replaceFile_cut (filePath cleanContent pre body : string) :
  JS.indexOf (openMarker filePath) (pre ++ openMarker filePath ++ body)
  = Some (String.length pre) ->
  JS.includes "</file>" body = false ->
  replaceFile filePath cleanContent (pre ++ openMarker filePath ++ body)
  = pre ++ expand (replacement filePath cleanContent)
             (mkMatch pre (openMarker filePath ++ body) [] "").
Proof.
  intros Hpre Hbody.
  rewrite <- (append_nil_r (expand _ _)).
  apply replaceFile_frame;
    [exact Hpre | now apply afterClose_unclosed | now rewrite append_nil_r
    | reflexivity].
Qed.

(** *** The files of a keyword search *)

Lemma arrayIncludes_iff (x : string) (a : list string) :
  JS.arrayIncludes x a = true <-> In x a.
Proof.
  split; [apply arrayIncludes_true|]. intros H.
  destruct (JS.arrayIncludes x a) eqn:E; [reflexivity|].
  now apply arrayIncludes_false in E.
Qed.

Lemma contextFilesOf_spec (targetFiles allFilePaths : list string) (path : string) :
  In path (contextFilesOf targetFiles allFilePaths)
  <-> In path allFilePaths /\ ~ In path targetFiles.
Proof.
  unfold contextFilesOf. rewrite filter_In, negb_true_iff.
  rewrite <- (arrayIncludes_iff path targetFiles).
  destruct (JS.arrayIncludes path targetFiles); intuition congruence.
Qed.

Lemma targetFilesOf_cases (planHasTerms : bool) (prompt : string)
  (allFilePaths : list string) :
  targetFilesOf planHasTerms prompt allFilePaths = []
  \/ exists keyword,
      In keyword keywords
      /\ JS.includes keyword (toLowerCase prompt) = true
      /\ targetFilesOf planHasTerms prompt allFilePaths
         = pathsWith keyword allFilePaths.
Proof.
  unfold targetFilesOf, keywordTargets, keywords.
  destruct planHasTerms; [now left|].
  destruct (JS.includes "hero" (toLowerCase prompt)) eqn:E1;
    [right; exists "hero"; cbn [In]; tauto|].
  destruct (JS.includes "header" (toLowerCase prompt)) eqn:E2;
    [right; exists "header"; cbn [In]; tauto|].
  destruct (JS.includes "footer" (toLowerCase prompt)) eqn:E3;
    [right; exists "footer"; cbn [In]; tauto|].
  destruct (JS.includes "nav" (toLowerCase prompt)) eqn:E4;
    [right; exists "nav"; cbn [In]; tauto|].
  destruct (JS.includes "button" (toLowerCase prompt)) eqn:E5;
    [right; exists "button"; cbn [In]; tauto|].
  now left.
Qed.

End WrittenFacts.

(** ** A package tag with text around it *)
Module TagFacts.
Import Regex Route Views JSArray StringFacts RegexFacts CutFacts CollectFacts
  TextFacts EngineFacts NameFacts LookBackFacts RecordFacts.

(** Two ways to cut one text: one cut comes first. *)
Lemma append_eq_append (a b c d : string) :
  a ++ b = c ++ d ->
  (exists e, a = c ++ e /\ d = e ++ b) \/ (exists e, c = a ++ e /\ b = e ++ d).
Proof.
  revert c. induction a as [|x a IH]; intros c H.
  - right. exists c. now split.
  - destruct c as [|y c].
    + left. exists (String x a). now split.
    + cbn [append] in H. injection H as -> H.
      destruct (IH c H) as [(e & -> & ->) | (e & -> & ->)].
      * left. now exists e.
      * right. now exists e.
Qed.

(** The first occurrence of a character cuts a text in one way only. *)
Lemma first_char_cut (c : ascii) (z w : string) :
  JS.includes (String c "") z = false ->
  JS.includes (String c "") w = false ->
  forall u e, u ++ String c e = z ++ String c w -> u = z /\ e = w.
Proof.
  intros Hz Hw. induction z as [|d z IH]; intros u e H.
  - destruct u as [|d u]; cbn [append] in H.
    + injection H as ->. now split.
    + injection H as -> H. rewrite <- H in Hw.
      change (String c e) with ((String c "") ++ e) in Hw.
      now rewrite includes_append in Hw.
  - apply includes_char_cons in Hz as [Hd Hz].
    destruct u as [|d' u]; cbn [append] in H.
    + injection H as -> _. now rewrite Ascii.eqb_refl in Hd.
    + injection H as -> H. destruct (IH Hz u e H) as [-> ->]. now split.
Qed.

Lemma includes_absent_chars (d : ascii) :
  forall s,
    allChars (fun c => negb (JS.includes (String c "") (String d ""))) s = true ->
    JS.includes (String d "") s = false.
Proof.
  induction s as [|c s IH]; intros H; [reflexivity|].
  cbn [allChars] in H. apply andb_true_iff in H as [H1 H2].
  rewrite noneOf_char in H1. apply negb_true_iff in H1.
  apply includes_char_absent; [now rewrite Ascii.eqb_sym | now apply IH].
Qed.

(** What a star over a character class has read when it hands over. *)
Lemma starLoop_class (p : ascii -> bool) (greedy : bool) (k : cont) :
  forall fuel prev s caps x,
    starLoop (matchR (Chr p)) greedy k fuel prev s caps = Some x ->
    exists letters s' prev',
      s = letters ++ s' /\ allChars p letters = true
      /\ k prev' s' caps = Some x.
Proof.
  induction fuel as [|fuel IH]; intros prev s caps x H.
  - cbn [starLoop] in H. now exists "", s, prev.
  - cbn [starLoop] in H.
    assert (Hstop : k prev s caps = Some x ->
                    exists letters s' prev',
                      s = letters ++ s' /\ allChars p letters = true
                      /\ k prev' s' caps = Some x)
      by (intros E; now exists "", s, prev).
    assert (Hmore :
              matchR (Chr p) prev s caps
                (fun prev' s' caps' =>
                   if Nat.ltb (String.length s') (String.length s)
                   then starLoop (matchR (Chr p)) greedy k fuel prev' s' caps'
                   else None)
              = Some x ->
              exists letters s' prev',
                s = letters ++ s' /\ allChars p letters = true
                /\ k prev' s' caps = Some x).
    { intros E. destruct s as [|c s]; [discriminate|].
      rewrite matchR_chr in E. destruct (p c) eqn:Ep; [|discriminate].
      destruct (Nat.ltb _ _); [|discriminate].
      apply IH in E. destruct E as (letters & s' & prev' & -> & Ha & E).
      exists (String c letters), s', prev'. cbn [append allChars].
      now rewrite Ep, Ha. }
    destruct greedy.
    + destruct (matchR (Chr p) prev s caps _) eqn:E;
        [injection H as ->; auto | auto].
    + destruct (k prev s caps) eqn:E; [injection H as ->; auto | auto].
Qed.

(** A match of the package pattern is a whole tag. *)
Lemma matchAt_package_shape (prev : option ascii) (s rest : string)
  (caps : captures) :
  matchAt packageRegex prev s = Some (rest, caps) ->
  exists name,
    s = "<package>" ++ name ++ "</package>" ++ rest
    /\ JS.includes "<" name = false.
Proof.
  unfold matchAt, packageRegex. cbn [seqs].
  rewrite matchR_seq, matchR_lit.
  destruct (JS.startsWith "<package>" s) eqn:Eo; [|discriminate].
  apply startsWith_split in Eo. revert Eo.
  generalize (JS.drop (String.length "<package>") s). intros s1 -> H.
  rewrite matchR_seq, matchR_group in H. unfold plus, noneOf in H.
  rewrite matchR_seq in H.
  destruct s1 as [|c s1]; [discriminate|].
  rewrite matchR_chr in H.
  destruct (negb (JS.includes (String c "") "<")) eqn:Ec; [|discriminate].
  rewrite matchR_star in H. apply starLoop_class in H.
  destruct H as (letters & s' & prev' & -> & Ha & H).
  cbv beta in H. rewrite matchR_lit in H.
  destruct (JS.startsWith "</package>" s') eqn:Ecl; [|discriminate].
  apply startsWith_split in Ecl. unfold accept in H. injection H as <- _.
  exists (String c letters). split.
  - cbn [append]. rewrite Ecl at 1. reflexivity.
  - apply includes_absent_chars. cbn [allChars]. now rewrite Ec, Ha.
Qed.

(** The tag of [name]. *)
Local Abbreviation tagOf name := ("<package>" ++ name ++ "</package>").

(** A match that starts before a tag ends before it. *)
Lemma match_before_tag (prev : option ascii) (u name v rest : string)
  (caps : captures) :
  u <> "" ->
  matchAt packageRegex prev (u ++ tagOf name ++ v) = Some (rest, caps) ->
  exists e, rest = e ++ tagOf name ++ v.
Proof.
  intros Hu H. apply matchAt_package_shape in H.
  destruct H as (found & H & Hf).
  assert (E : "<package>" ++ found ++ "</package>" ++ rest
              = (("<package>" ++ found) ++ "</package>") ++ rest)
    by now rewrite !append_assoc.
  rewrite E in H. clear E.
  apply append_eq_append in H as [(e & Hl & Hr) | (e & Hl & Hr)].
  - now exists e.
  - destruct e as [|c e]; [now exists ""|]. exfalso.
    cbn [append] in Hr. injection Hr as <- Hr.
    destruct u as [|c u]; [contradiction|].
    cbn [append] in Hl. injection Hl as _ Hl.
    destruct (first_char_cut "<" ("package>" ++ found) "/package>")
      with (u := u) (e := e) as [_ He].
    + now apply includes_char_append.
    + reflexivity.
    + symmetry. exact Hl.
    + subst e. discriminate.
Qed.

(** The scan reaches a tag, whatever stands before it. *)
Lemma execAllFrom_finds (name v : string) :
  name <> "" -> JS.includes "<" name = false ->
  forall u bef prev skip,
    skip <= String.length u ->
    exists m,
      In m (execAllFrom packageRegex bef prev (u ++ tagOf name ++ v) skip)
      /\ group 1 m = name.
Proof.
  intros Hn Hl. remember (tagOf name ++ v) as t eqn:Et.
  induction u as [|c u IH]; intros bef prev skip Hs.
  - destruct skip; [|cbn in Hs; lia].
    change ("" ++ t) with t. subst t.
    pose proof (matchAt_package name v prev Hn Hl) as M.
    assert (E : "<package>" ++ name ++ "</package>" ++ v = tagOf name ++ v)
      by now rewrite !append_assoc.
    rewrite E in M.
    assert (T : tagOf name <> "") by discriminate.
    rewrite (execAllFrom_match _ _ _ _ bef _ T M).
    eexists. split; [now left | reflexivity].
  - change (String c u ++ t) with (String c (u ++ t)).
    destruct skip as [|skip].
    + cbn [execAllFrom].
      destruct (matchAt packageRegex prev (String c (u ++ t)))
        as [[rest caps]|] eqn:M.
      * destruct (match_before_tag prev (String c u) name v rest caps)
          as (e & ->); [discriminate | now rewrite <- Et |].
        destruct (IH (bef ++ String c "") (Some c)
                    (String.length (String c (u ++ t))
                     - String.length (e ++ tagOf name ++ v) - 1))
          as (m & Hin & Hg).
        { rewrite <- Et. cbn [String.length]. rewrite !length_append. lia. }
        exists m. split; [apply in_cons; exact Hin | exact Hg].
      * destruct (IH (bef ++ String c "") (Some c) 0) as (m & Hin & Hg);
          [lia|]. now exists m.
    + cbn [execAllFrom]. apply IH. cbn in Hs. lia.
Qed.

Lemma offeredByTags_finds (u name v : string) :
  isTagName name = true ->
  In name (offeredByTags (u ++ tagOf name ++ v)).
Proof.
  unfold isTagName. intros H.
  apply andb_true_iff in H as [H H3]. apply andb_true_iff in H as [H1 H2].
  apply String.eqb_eq in H2. apply negb_true_iff in H3.
  assert (Hn : name <> "") by (intros ->; discriminate).
  destruct (execAllFrom_finds name v Hn H3 u "" None 0) as (m & Hin & Hg);
    [lia|].
  unfold offeredByTags. apply in_flat_map. exists m. split; [exact Hin|].
  cbv zeta. rewrite Hg, H2, H1. now left.
Qed.

(** *** What the look-back text keeps *)

(** A text that ends with the start of a tag: no close marker ends in that
    start. *)
Lemma close_before_tail (read rest w pending : string) :
  (forall c t, pending = String c t -> c = "<"%char) ->
  JS.includes "</package>" pending = false ->
  (read ++ "</package>") ++ rest = w ++ pending ->
  String.length (read ++ "</package>") <= String.length w.
Proof.
  intros Hhead Hclose H.
  apply append_eq_append in H as [(e & Hl & Hr) | (e & Hl & Hr)].
  - destruct e as [|c e].
    + rewrite Hl, append_nil_r. apply le_n.
    + exfalso. pose proof (Hhead c (e ++ rest) Hr) as ->.
      apply append_eq_append in Hl as [(e2 & _ & Hl) | (e3 & _ & Hl)].
      * rewrite Hr in Hclose.
        now rewrite Hl, append_assoc, includes_append in Hclose.
      * destruct (first_char_cut "<" "" "/package>" eq_refl eq_refl e3 e)
          as [_ ->]; [now symmetry|].
        rewrite Hr in Hclose.
        change ("</package>" ++ rest) with ("" ++ "</package>" ++ rest)
          in Hclose.
        now rewrite includes_append in Hclose.
  - rewrite Hl, (length_append (read ++ "</package>")). lia.
Qed.

Section Pending.
Variables (w pending : string).
Hypothesis head : forall c t, pending = String c t -> c = "<"%char.
Hypothesis unclosed : JS.includes "</package>" pending = false.

(** Every tag found in [w ++ pending] ends in [w]. *)
Lemma matches_end_before :
  forall s bef prev skip m,
    bef ++ s = w ++ pending ->
    In m (execAllFrom packageRegex bef prev s skip) ->
    index m + String.length (matched m) <= String.length w.
Proof.
  assert (Hm : forall s bef prev rest caps,
             bef ++ s = w ++ pending ->
             matchAt packageRegex prev s = Some (rest, caps) ->
             index (mkMatchAt bef s rest caps)
             + String.length (matched (mkMatchAt bef s rest caps))
             <= String.length w).
  { intros s bef prev rest caps H M.
    apply matchAt_package_shape in M. destruct M as (found & -> & _).
    assert (E : "<package>" ++ found ++ "</package>" ++ rest
                = (("<package>" ++ found) ++ "</package>") ++ rest)
      by now rewrite !append_assoc.
    rewrite E in H |- *. unfold mkMatchAt, index. cbn [before matched].
    rewrite take_length_diff, <- length_append, <- append_assoc.
    apply (close_before_tail _ rest w pending head unclosed).
    now rewrite <- H, !append_assoc. }
  induction s as [|c s IH]; intros bef prev skip m H Hin.
  - destruct skip; [|contradiction]. cbn [execAllFrom] in Hin.
    destruct (matchAt packageRegex prev "") as [[rest caps]|] eqn:M;
      [|contradiction].
    destruct Hin as [<- | []]. now apply (Hm "" bef prev).
  - assert (H' : (bef ++ String c "") ++ s = w ++ pending)
      by now rewrite append_snoc.
    destruct skip as [|skip]; cbn [execAllFrom] in Hin.
    + destruct (matchAt packageRegex prev (String c s)) as [[rest caps]|] eqn:M.
      * destruct Hin as [<- | Hin]; [now apply (Hm (String c s) bef prev)|].
        now apply (IH _ _ _ _ H' Hin).
      * now apply (IH _ _ _ _ H' Hin).
    + now apply (IH _ _ _ _ H' Hin).
Qed.

Lemma scanPackageTags_lastIndex (pkgs : list string) :
  snd (scanPackageTags (w ++ pending) pkgs) <= String.length w.
Proof.
  unfold scanPackageTags, execAll.
  assert (G : forall l acc,
             (forall m, In m l ->
                        index m + String.length (matched m) <= String.length w) ->
             snd acc <= String.length w ->
             snd (fold_left
                    (fun acc m =>
                       let packageName := JS.trim (group 1 m) in
                       (if JS.truthy packageName
                        then pushPackage "Package detected: " (fst acc) packageName
                        else fst acc,
                        index m + String.length (matched m)))
                    l acc)
             <= String.length w).
  { induction l as [|m l IH]; intros acc Hl Ha; [exact Ha|].
    cbn [fold_left]. apply IH.
    - intros m' Hm'. apply Hl. now right.
    - cbn [snd]. apply Hl. now left. }
  apply G; [|apply Nat.le_0_l].
  intros m Hm. now apply (matches_end_before (w ++ pending) "" None 0 m).
Qed.

End Pending.

Lemma drop_append_le :
  forall n w t,
    n <= String.length w -> JS.drop n (w ++ t) = JS.drop n w ++ t.
Proof.
  induction n as [|n IH]; intros w t H.
  - now destruct w, t.
  - destruct w as [|c w]; [cbn in H; lia|].
    cbn [append JS.drop]. apply IH. cbn in H. lia.
Qed.

(** The start of a tag at the end of a chunk stays in the look-back text. *)
Lemma ingest_keeps_pending (st : StreamState) (x pending : string) :
  (forall c t, pending = String c t -> c = "<"%char) ->
  JS.includes "</package>" pending = false ->
  exists kept, tagBuffer (fst (ingest true st (x ++ pending))) = kept ++ pending.
Proof.
  intros Hhead Hclose. unfold ingest. cbn [fst tagBuffer].
  rewrite <- append_assoc.
  exists (JS.drop (snd (scanPackageTags ((tagBuffer st ++ x) ++ pending)
                          (packagesToInstall st)) - 50)
            (tagBuffer st ++ x)).
  apply drop_append_le.
  pose proof (scanPackageTags_lastIndex (tagBuffer st ++ x) pending Hhead Hclose
                (packagesToInstall st)).
  lia.
Qed.

(** The start of a tag in the look-back text stays there when the next chunk
    continues the tag without closing it. *)
Lemma ingest_extends_pending (st : StreamState) (kept pending text : string) :
  tagBuffer st = kept ++ pending ->
  (forall c t, pending ++ text = String c t -> c = "<"%char) ->
  JS.includes "</package>" (pending ++ text) = false ->
  exists kept',
    tagBuffer (fst (ingest true st text)) = kept' ++ pending ++ text.
Proof.
  intros Hst Hhead Hclose. unfold ingest. cbn [fst tagBuffer].
  rewrite Hst, append_assoc.
  exists (JS.drop (snd (scanPackageTags (kept ++ pending ++ text)
                          (packagesToInstall st)) - 50)
            kept).
  apply drop_append_le.
  pose proof (scanPackageTags_lastIndex kept (pending ++ text) Hhead Hclose
                (packagesToInstall st)).
  lia.
Qed.

Lemma streamLoop_extends_pending (middle : list string) :
  forall (st : StreamState) (kept pending : string),
    tagBuffer st = kept ++ pending ->
    (forall c t, pending ++ JS.concat middle = String c t -> c = "<"%char) ->
    JS.includes "</package>" (pending ++ JS.concat middle) = false ->
    exists kept',
      tagBuffer (fst (streamLoop true middle st))
      = kept' ++ pending ++ JS.concat middle.
Proof.
  induction middle as [|text middle IH]; intros st kept pending Hst Hhead Hclose.
  - exists kept. cbn [streamLoop fst JS.concat]. now rewrite append_nil_r.
  - cbn [JS.concat] in Hhead, Hclose. rewrite <- append_assoc in Hhead, Hclose.
    destruct (ingest_extends_pending st kept pending text Hst) as [kept1 H1].
    + intros c t E. apply (Hhead c (t ++ JS.concat middle)).
      rewrite E. reflexivity.
    + now apply includes_app_false in Hclose as [Hclose _].
    + destruct (IH _ kept1 (pending ++ text) H1 Hhead Hclose) as [kept2 H2].
      exists kept2. cbn [streamLoop fst JS.concat].
      now rewrite H2, !append_assoc.
Qed.

Lemma offeredInStream_app (cs1 cs2 : list string) :
  forall st,
    offeredInStream (cs1 +++ cs2) st
    = offeredInStream cs1 st
      +++ offeredInStream cs2 (fst (streamLoop true cs1 st)).
Proof.
  induction cs1 as [|text cs1 IH]; intros st.
  - reflexivity.
  - cbn [app offeredInStream streamLoop fst]. now rewrite IH, app_assoc.
Qed.

End TagFacts.

(** ** The session, its events and its helpers *)
Module SessionProperties.
Import Regex Route Examples JSArray Views Inputs.
Import StringFacts RegexFacts CutFacts RepairFacts CollectFacts StreamFacts
  ParseFacts SessionFacts TextFacts EngineFacts EventFacts NameFacts
  LookBackFacts RecordFacts WrittenFacts TagFacts.

(** X1. The stream events of a session carry its chunks, each one once and
    in the order of arrival, however the session ends. *)
Theorem stream_events_are_the_chunks (ses : Session) :
  streamTexts (run ses) = chunks ses.
Proof.
  unfold run, streamed.
  assert (A : forall a b, streamTexts (a +++ b) = streamTexts a +++ streamTexts b)
    by (intros; apply flat_map_app).
  rewrite A, streamTexts_streamLoop, streamTexts_postStream.
  apply app_nil_r.
Qed.

(** X2. No conversation event carries an empty text or a text with white
    space around it. *)
Theorem conversation_texts_are_trimmed (ses : Session) :
  Forall Trimmed (conversationTexts (run ses)).
Proof.
  unfold run, streamed, conversationTexts. rewrite flat_map_app.
  apply Forall_app. split.
  - apply conversation_streamLoop.
  - apply conversation_postStream.
Qed.

(** X3. The component events of the streaming loop are numbered 1, 2, 3
    and so on in the order sent, up to the counter the loop ends with. *)
Theorem component_events_count_up (ses : Session) :
  componentIndices (snd (streamed ses))
  = seq 1 (componentCount (fst (streamed ses))).
Proof.
  unfold streamed.
  destruct (componentIndices_streamLoop (isEdit ses) (chunks ses) initialState)
    as [H _].
  rewrite H. cbn [initialState componentCount]. now rewrite Nat.sub_0_r.
Qed.

(** X4. A package tag cut by the ends of chunks, in two pieces or more, is
    found when its last piece arrives, whatever stands around it: in an edit
    session, with any chunks before and after those of the tag, any text
    before the tag in the chunk of its first piece and any text after it in
    the chunk of its last piece, the pieces before the last holding no
    complete close marker, one package event carries the name. *)
Theorem split_package_tag_is_detected
  (earlier middle later : list string)
  (before first last after name : string)
  (err : option string) (enable : bool) (completion : Completion) :
  first ++ JS.concat middle ++ last = "<package>" ++ name ++ "</package>" ->
  JS.includes "</package>" (first ++ JS.concat middle) = false ->
  isTagName name = true ->
  count_occ string_dec
    (packageNames
       (run (mkSession true
               (earlier +++ [before ++ first] +++ middle
                +++ [last ++ after] +++ later)
               err enable completion)))
    name
  = 1.
Proof.
  intros Hcut Hopen Hn.
  set (ses := mkSession true
                (earlier +++ [before ++ first] +++ middle
                 +++ [last ++ after] +++ later)
                err enable completion).
  destruct (run_packages ses) as [-> Hnd].
  apply NoDup_count_occ'; [exact Hnd|].
  apply (collected_members ses name eq_refl).
  unfold offered. cbn [ses chunks].
  apply in_or_app. left.
  rewrite offeredInStream_app. apply in_or_app. right.
  set (st0 := fst (streamLoop true earlier initialState)).
  change ([before ++ first] +++ middle +++ [last ++ after] +++ later)
    with ((before ++ first) :: (middle +++ (last ++ after) :: later)).
  cbn [offeredInStream]. apply in_or_app. right.
  rewrite offeredInStream_app. apply in_or_app. right.
  cbn [offeredInStream]. apply in_or_app. left.
  assert (Hhead : forall c t,
             first ++ JS.concat middle = String c t -> c = "<"%char).
  { intros c t E. rewrite <- append_assoc, E in Hcut.
    cbn [append] in Hcut. now injection Hcut as ->. }
  destruct (ingest_keeps_pending st0 before first) as [kept H1].
  - intros c t E. apply (Hhead c (t ++ JS.concat middle)). now rewrite E.
  - now apply includes_app_false in Hopen as [Hopen _].
  - destruct (streamLoop_extends_pending middle _ kept first H1 Hhead Hopen)
      as [kept' ->].
    rewrite !append_assoc, <- (append_assoc first), <- (append_assoc _ last).
    rewrite <- append_assoc in Hcut. rewrite Hcut.
    now apply offeredByTags_finds.
Qed.

(** Two whole tags come first, the second one in the chunk where the tag of
    axios starts; that tag comes in four pieces, and the look-back text is cut
    before its last piece arrives. *)
Lemma split_package_tag_is_detected_witness :
  count_occ string_dec
    (packageNames
       (run (mkSession true
               ([tagsBefore]
                +++ ["Then <package>lodash</package> and " ++ "<pack"]
                +++ ["age>ax"; "ios</pack"]
                +++ ["age>" ++ " for the requests."]
                +++ [" Done."])
               None true noAnswer)))
    "axios"
  = 1.
Proof.
  apply split_package_tag_is_detected; vm_compute; reflexivity.
Defined.

(** X5. A session whose stream does not end with the tool validation error
    sends exactly one terminal event, and sends it last. *)
Theorem one_terminal_event_ends_the_session (ses : Session) :
  (forall message,
      streamError ses = Some message ->
      JS.includes "tool call validation failed" message = false) ->
  exists evs e,
    run ses = evs +++ [e] /\ isTerminal e = true /\ filter isTerminal evs = [].
Proof.
  intros H. destruct (streamError ses) as [message|] eqn:E.
  - exists (snd (streamed ses)), (EError message).
    unfold run, postStream, onError. rewrite E, (H message eq_refl).
    repeat split. apply streamLoop_terminal.
  - destruct (run_ends_complete ses E) as [evs Hevs].
    eexists evs, _. split; [exact Hevs|]. split; [reflexivity|].
    pose proof (run_terminal ses) as T. rewrite E, Hevs, filter_app in T.
    cbn [filter completeEvent isTerminal] in T.
    now apply (app_inv_tail _ _ []) in T.
Qed.

Lemma one_terminal_event_ends_the_session_witness :
  exists evs e,
    run brokenStream = evs +++ [e]
    /\ isTerminal e = true /\ filter isTerminal evs = [].
Proof.
  apply one_terminal_event_ends_the_session.
  intros message H. injection H as <-. vm_compute. reflexivity.
Defined.

(** X6. From an answer made of well-formed file records, with any text
    between them that holds no open marker, the parse after the stream takes
    exactly these records, in order, each with its path and its trimmed body;
    the complete event counts them. *)
Theorem well_formed_records_are_extracted
  (ses : Session) (records : list Written) (tail : string) :
  streamError ses = None ->
  JS.concat (chunks ses) = document records tail ->
  Forall (fun r => wellFormed r = true) records ->
  JS.includes fileOpen tail = false ->
  extracted ses = map pairWritten records
  /\ exists evs code explanation components pkgs warnings,
      run ses
      = evs +++ [EComplete code explanation (List.length records) components
                   pkgs warnings].
Proof.
  intros E Hd Hr Ht.
  assert (X : extracted ses = map pairWritten records).
  { rewrite extracted_of_text, Hd. now apply execAll_document. }
  split; [exact X|].
  destruct (run_ends_complete ses E) as [evs ->].
  exists evs. unfold completeEvent. fold (extracted ses).
  rewrite X, length_map. now do 5 eexists.
Qed.

Lemma well_formed_records_are_extracted_witness :
  extracted written = map pairWritten twoWritten
  /\ exists evs code explanation components pkgs warnings,
      run written
      = evs +++ [EComplete code explanation (List.length twoWritten) components
                   pkgs warnings].
Proof.
  apply (well_formed_records_are_extracted written twoWritten " Done.");
    try (vm_compute; reflexivity).
  repeat constructor.
Defined.

(** X7. An answer that holds neither the open marker of a file nor a close
    marker ends without a fault: the complete event carries the text as it
    came, 0 files, 0 components and no warning, and no component or app event
    is sent. *)
Theorem plain_answer_has_no_fault (ses : Session) :
  streamError ses = None ->
  JS.includes fileOpen (JS.concat (chunks ses)) = false ->
  JS.includes "</file>" (JS.concat (chunks ses)) = false ->
  recordCompleted (run ses) = []
  /\ exists evs explanation pkgs,
      run ses
      = evs +++ [EComplete (JS.concat (chunks ses)) explanation 0 0 pkgs None].
Proof.
  intros E Ho Hc.
  destruct (streamLoop_outside (isEdit ses) (chunks ses) initialState Ho eq_refl)
    as [C R].
  assert (F : execAll fileRegex (JS.concat (chunks ses)) = []).
  { apply (execAll_absent _ fileOpen); [apply seq_starts | assumption]. }
  split.
  - unfold run, postStream. rewrite E, recordCompleted_app.
    unfold streamed. rewrite R, afterStream_completed.
    fold (streamed ses). now rewrite streamed_generatedCode, F.
  - destruct (run_ends_complete ses E) as [evs ->].
    exists evs. unfold completeEvent, recoveredOf, parsedOf.
    rewrite parseFiles_files, streamed_generatedCode, F.
    change (streamLoop (isEdit ses) (chunks ses) initialState)
      with (streamed ses) in C.
    rewrite C.
    assert (W : truncationWarningsOf (JS.concat (chunks ses)) = []).
    { unfold truncationWarningsOf, unclosedWarning, countMatches.
      rewrite (execAll_absent (lit fileOpen) fileOpen) by
        (apply lit_starts || assumption).
      rewrite (execAll_absent (lit "</file>") "</file>") by
        (apply lit_starts || assumption).
      rewrite (execAll_absent truncationCheckRegex fileOpen) by
        (apply seq_starts || assumption).
      reflexivity. }
    rewrite W. cbn [recover fst snd nonEmpty map List.length initialState
                      componentCount].
    now do 2 eexists.
Qed.

Lemma plain_answer_has_no_fault_witness :
  recordCompleted (run plainAnswer) = []
  /\ exists evs explanation pkgs,
      run plainAnswer
      = evs +++ [EComplete (JS.concat (chunks plainAnswer)) explanation 0 0
                   pkgs None].
Proof.
  apply plain_answer_has_no_fault; vm_compute; reflexivity.
Defined.

(** X8. The output the complete event carries is the streamed text itself
    unless a repair succeeds: it is so when recovery is disabled, when no
    fault is found, when no file is selected for repair, and when every
    follow-up call fails. *)
Theorem output_changes_only_by_a_successful_repair (ses : Session) :
  streamError ses = None ->
  enableTruncationRecovery ses = false
  \/ truncationWarningsOf (JS.concat (chunks ses)) = []
  \/ truncatedFilesOf (JS.concat (chunks ses)) = []
  \/ (forall k filePath, completion ses k filePath = None) ->
  exists evs explanation n components pkgs warnings,
    run ses
    = evs +++ [EComplete (JS.concat (chunks ses)) explanation n components
                 pkgs warnings].
Proof.
  intros E H. destruct (run_ends_complete ses E) as [evs ->].
  exists evs. unfold completeEvent. do 5 eexists. do 2 f_equal.
  f_equal. unfold recoveredOf. rewrite streamed_generatedCode.
  unfold recover.
  destruct (truncationWarningsOf (JS.concat (chunks ses))) as [|w ws];
    [reflexivity|].
  destruct (enableTruncationRecovery ses); [|reflexivity].
  destruct (truncatedFilesOf (JS.concat (chunks ses))) as [|f fs];
    [reflexivity|].
  destruct H as [H | [H | [H | H]]]; try discriminate.
  cbn [fst]. now apply repairLoop_all_fail.
Qed.

Lemma output_changes_only_by_a_successful_repair_witness :
  exists evs explanation n components pkgs warnings,
    run failingRepair
    = evs +++ [EComplete (JS.concat (chunks failingRepair)) explanation n
                 components pkgs warnings].
Proof.
  apply output_changes_only_by_a_successful_repair; [reflexivity|].
  right. right. right. reflexivity.
Defined.

(** X9. A recovery makes one attempt for each file selected for repair, in
    the order of the files in the output, and then reports its end: the info
    events of a session are one Completing message for each selected file and
    the closing message, and there is none when no recovery is made. *)
Theorem one_repair_attempt_for_each_selected_file (ses : Session) :
  streamError ses = None ->
  infoMessages (run ses)
  = if enableTruncationRecovery ses
       && negb (isNil (truncationWarningsOf (JS.concat (chunks ses))))
       && negb (isNil (truncatedFilesOf (JS.concat (chunks ses))))
    then map (fun filePath => "Completing " ++ filePath ++ "...")
           (truncatedFilesOf (JS.concat (chunks ses)))
         +++ ["Truncation recovery complete"]
    else [].
Proof.
  intros E. unfold run, postStream. rewrite E.
  assert (A : forall a b,
             infoMessages (a +++ b) = infoMessages a +++ infoMessages b)
    by (intros; apply flat_map_app).
  unfold streamed at 1. rewrite A, infoMessages_streamLoop. cbn [app].
  unfold afterStream. rewrite !A.
  unfold infoMessages at 2 3.
  rewrite (quiet_blocks _ infoMessages_quiet),
    (quiet_parsed _ infoMessages_quiet).
  replace (infoMessages (flushConversation (fst (streamed ses))))
    with (@nil string)
    by (unfold flushConversation;
        now destruct (JS.truthy (JS.trim (conversationalBuffer _)))).
  cbn [app infoMessages flat_map completeEvent]. rewrite app_nil_r.
  unfold recoveredOf. rewrite streamed_generatedCode. unfold recover.
  destruct (truncationWarningsOf (JS.concat (chunks ses))) as [|w ws];
    [now rewrite andb_false_r|].
  destruct (enableTruncationRecovery ses); [|reflexivity].
  destruct (truncatedFilesOf (JS.concat (chunks ses))) as [|f fs] eqn:F;
    [reflexivity|].
  cbn [snd isNil negb andb]. rewrite !A, infoMessages_repairLoop.
  reflexivity.
Qed.

(** The truncated b.js: one attempt, which fails, and the closing message. *)
Lemma one_repair_attempt_for_each_selected_file_witness :
  infoMessages (run failingRepair)
  = ["Completing b.js..."; "Truncation recovery complete"].
Proof.
  rewrite one_repair_attempt_for_each_selected_file by reflexivity.
  vm_compute. reflexivity.
Defined.

(** X10. When recovery is enabled and at least one file is selected for
    repair, the faults found are sent with the notice that opens the recovery
    and the complete event reports no warning, whether the repairs succeeded
    or not. *)
Theorem repair_attempt_clears_the_warnings (ses : Session) :
  streamError ses = None ->
  enableTruncationRecovery ses = true ->
  truncationWarningsOf (JS.concat (chunks ses)) <> [] ->
  truncatedFilesOf (JS.concat (chunks ses)) <> [] ->
  In (EWarning "Detected incomplete code generation. Attempting to complete..."
        (Some (truncationWarningsOf (JS.concat (chunks ses)))))
    (run ses)
  /\ exists evs code explanation n components pkgs,
      run ses = evs +++ [EComplete code explanation n components pkgs None].
Proof.
  intros E He Hw Hf.
  assert (R : exists code evs,
             recoveredOf true (completion ses) (fst (streamed ses))
             = (code, [],
                EWarning
                  "Detected incomplete code generation. Attempting to complete..."
                  (Some (truncationWarningsOf (JS.concat (chunks ses))))
                :: evs)).
  { unfold recoveredOf. rewrite streamed_generatedCode. unfold recover.
    destruct (truncationWarningsOf (JS.concat (chunks ses))) as [|w ws];
      [contradiction|].
    destruct (truncatedFilesOf (JS.concat (chunks ses))) as [|f fs];
      [contradiction|].
    do 2 eexists. reflexivity. }
  destruct R as (code & evs & R). split.
  - unfold run, postStream. rewrite E, He. unfold afterStream. rewrite R.
    cbn [snd]. rewrite !in_app_iff. cbn [In]. tauto.
  - destruct (run_ends_complete ses E) as [evs' ->].
    exists evs'. unfold completeEvent. rewrite He, R. cbn [fst snd nonEmpty].
    now do 5 eexists.
Qed.

Lemma repair_attempt_clears_the_warnings_witness :
  In (EWarning "Detected incomplete code generation. Attempting to complete..."
        (Some (truncationWarningsOf (JS.concat (chunks failingRepair)))))
    (run failingRepair)
  /\ exists evs code explanation n components pkgs,
      run failingRepair
      = evs +++ [EComplete code explanation n components pkgs None].
Proof.
  apply repair_attempt_clears_the_warnings;
    try (vm_compute; reflexivity); vm_compute; discriminate.
Defined.

(** X11. The output, the explanation, the number of files and the warnings
    of the complete event depend on the streamed text and not on its chunks:
    two sessions that join to the same text, with the same recovery setting
    and the same answers to the follow-up calls, agree on them. *)
Theorem faults_and_repair_are_chunk_invariant (ses1 ses2 : Session) :
  streamError ses1 = None -> streamError ses2 = None ->
  JS.concat (chunks ses1) = JS.concat (chunks ses2) ->
  enableTruncationRecovery ses1 = enableTruncationRecovery ses2 ->
  (forall k filePath, completion ses1 k filePath = completion ses2 k filePath) ->
  exists evs1 evs2 code explanation n c1 c2 p1 p2 warnings,
    run ses1 = evs1 +++ [EComplete code explanation n c1 p1 warnings]
    /\ run ses2 = evs2 +++ [EComplete code explanation n c2 p2 warnings].
Proof.
  intros E1 E2 Ht He Hc.
  destruct (run_ends_complete ses1 E1) as [evs1 ->].
  destruct (run_ends_complete ses2 E2) as [evs2 ->].
  exists evs1, evs2. unfold completeEvent, recoveredOf, parsedOf.
  rewrite !parseFiles_files, !streamed_generatedCode, <- Ht, <- He.
  rewrite (recover_ext (completion ses1) (completion ses2)) by assumption.
  do 8 eexists. split; reflexivity.
Qed.

Lemma faults_and_repair_are_chunk_invariant_witness :
  exists evs1 evs2 code explanation n c1 c2 p1 p2 warnings,
    run oneChunk = evs1 +++ [EComplete code explanation n c1 p1 warnings]
    /\ run twoChunks = evs2 +++ [EComplete code explanation n c2 p2 warnings].
Proof.
  apply faults_and_repair_are_chunk_invariant; vm_compute; reflexivity.
Defined.

(** X12. The replace statement of the repair, applied to a text made of
    well-formed records followed by a record of the path that is cut before
    its close marker, writes a text from which the extractor reads every
    earlier record as before and then the path with the new content, trimmed.
    The path and the content hold no dollar sign, which [replace] reads in the
    replacement string as the start of a pattern; the content and the cut body
    hold no close marker, and the first open marker of the path in the text is
    that of the cut record. *)
Theorem repaired_record_is_read_back
  (records : list Written) (filePath body cleanContent : string) :
  Forall (fun r => wellFormed r = true) records ->
  isPath filePath = true ->
  JS.includes "$" filePath = false ->
  JS.includes "$" cleanContent = false ->
  JS.includes "</file>" cleanContent = false ->
  JS.includes "</file>" body = false ->
  JS.indexOf (openMarker filePath)
    (document records "" ++ openMarker filePath ++ body)
  = Some (String.length (document records "")) ->
  map pairOf
    (execAll fileRegex
       (replaceFile filePath cleanContent
          (document records "" ++ openMarker filePath ++ body)))
  = map pairWritten records +++ [(filePath, JS.trim cleanContent)].
Proof.
  intros Hr Hp Hd1 Hd2 Hc Hb Hi.
  rewrite replaceFile_cut by assumption.
  rewrite expand_plain by now apply replacement_plain.
  rewrite replacement_written, <- document_snoc. unfold execAll.
  rewrite execAll_document; [| |reflexivity].
  - rewrite map_app. cbn [map]. unfold pairWritten at 2.
    cbn [writtenPath writtenBody]. now rewrite trim_between_lines.
  - apply Forall_app. split; [exact Hr|]. constructor; [|constructor].
    unfold wellFormed. cbn [leading writtenPath writtenBody].
    rewrite Hp. cbn [andb negb]. apply negb_true_iff.
    apply includes_cons_absent; [reflexivity|].
    now apply (includes_snoc_absent "</file>" newline eq_refl).
Qed.

(** Two records, then src/Hero.jsx cut inside a call. *)
Lemma repaired_record_is_read_back_witness :
  map pairOf
    (execAll fileRegex
       (replaceFile "src/Hero.jsx" fencedCode
          (document twoWritten "" ++ openMarker "src/Hero.jsx"
           ++ "function Hero( {")))
  = map pairWritten twoWritten +++ [("src/Hero.jsx", JS.trim fencedCode)].
Proof.
  apply repaired_record_is_read_back;
    try (vm_compute; reflexivity).
  repeat constructor.
Defined.

(** X13. From an answer that wraps the file in a fence, the first three
    backquotes being those of the fence, the repair takes what stands between
    the line of the opening fence and the next three backquotes. *)
Theorem cleanContentOf_unwraps_the_first_fence (pre lang code rest : string) :
  let answer := pre ++ "```" ++ lang ++ NL ++ code ++ "```" ++ rest in
  JS.indexOf "```" answer = Some (String.length pre) ->
  allChars isWord lang = true ->
  JS.indexOf "```" (code ++ "```" ++ rest) = Some (String.length code) ->
  cleanContentOf answer = code.
Proof.
  cbn zeta. intros Hp Hl Hc. unfold cleanContentOf.
  unfold JS.includes. rewrite Hp. unfold search.
  rewrite (searchFrom_skip fenceRegex "```" (seq_starts "```" _) pre _ "" None Hp).
  pose proof (matchAt_fence lang code rest (lastChar None pre) Hl Hc) as M.
  destruct ("```" ++ lang ++ NL ++ code ++ "```" ++ rest) eqn:S;
    cbn [searchFrom]; rewrite M; reflexivity.
Qed.

Lemma cleanContentOf_unwraps_the_first_fence_witness :
  cleanContentOf (fencedBefore ++ "```" ++ "jsx" ++ NL ++ fencedCode ++ "```" ++ "")
  = fencedCode.
Proof.
  apply cleanContentOf_unwraps_the_first_fence; vm_compute; reflexivity.
Defined.

(** X14. No match of the five patterns the route loops over with [exec] is
    empty: each of these loops moves on at every match. *)
Theorem exec_loops_advance (s : string) :
  Forall advances (execAll packageRegex s)
  /\ Forall advances (execAll packagesRegex s)
  /\ Forall advances (execAll importRegex s)
  /\ Forall advances (execAll fileRegex s)
  /\ Forall advances (execAll truncationCheckRegex s).
Proof.
  destruct route_patterns_consume as (H1 & H2 & H3 & H4 & H5 & _).
  repeat split; apply Forall_forall; intros m Hm;
    eapply execAll_nonempty; try exact Hm; assumption.
Qed.

(** X15. The packages read from the imports of a file are listed once each,
    and none is a relative or an absolute path: a name has no slash, or
    starts with a scope and has one. *)
Theorem imported_packages_are_names (content : string) :
  NoDup (extractPackagesFromCode content)
  /\ Forall (fun name => isInstallable name = true)
       (extractPackagesFromCode content).
Proof.
  unfold extractPackagesFromCode.
  apply (fold_left_invariant
           (fun packages =>
              NoDup packages
              /\ Forall (fun name => isInstallable name = true) packages)).
  - intros packages m [Hn Hf].
    destruct (isExternalImport (group 1 m)) eqn:E; [|now split].
    destruct (JS.arrayIncludes (packageNameOf (group 1 m)) packages) eqn:I;
      [now split|].
    split.
    + apply NoDup_snoc; [assumption | now apply arrayIncludes_false].
    + apply Forall_app. split; [assumption|].
      constructor; [now apply packageNameOf_shape | constructor].
  - split; constructor.
Qed.

(** X16. A packages block that lists names with one separator, a comma or
    a line break followed by blanks, is read back as these names. *)
Theorem packagesList_reads_the_names
  (names : list string) (c : ascii) (blank : string) :
  Forall (fun name => isPackageName name = true) names ->
  isListSeparator c = true ->
  isBlank blank = true ->
  packagesList (JS.join (String c blank) names) = names.
Proof.
  intros Hn Hc Hb. unfold packagesList.
  destruct names as [|n rest]; [reflexivity|].
  rewrite <- (filter_named (n :: rest) Hn) at 2. f_equal.
  exact (pieces_of_join c blank Hc Hb rest n "" false eq_refl Hn).
Qed.

Lemma packagesList_reads_the_names_witness :
  packagesList (JS.join (String "," " ") ["axios"; "react-router-dom"])
  = ["axios"; "react-router-dom"].
Proof.
  apply packagesList_reads_the_names; [|reflexivity|reflexivity].
  repeat constructor.
Defined.

(** X17. The name a component event carries is never empty; for a path that
    ends with a directory separator, a name without dot and the suffix .jsx,
    it is that name. *)
Theorem componentNameOf_is_the_file_name :
  (forall path, JS.truthy (componentNameOf path) = true)
  /\ (forall dir name,
         JS.truthy name = true ->
         JS.includes "/" name = false -> JS.includes "." name = false ->
         componentNameOf (dir ++ "/" ++ name ++ ".jsx") = name).
Proof.
  split.
  - intros path. unfold componentNameOf.
    now destruct (JS.truthy (JS.removeFirst ".jsx" _)) eqn:E.
  - apply componentNameOf_path.
Qed.

Lemma componentNameOf_is_the_file_name_witness :
  JS.truthy (componentNameOf "src/components/") = true
  /\ componentNameOf ("src/components" ++ "/" ++ "Hero" ++ ".jsx") = "Hero".
Proof.
  pose proof componentNameOf_is_the_file_name as [H1 H2]. split.
  - apply H1.
  - apply H2; vm_compute; reflexivity.
Defined.

(** X28. The replace statement of the repair hands the new record to
    [replace] as a string, and [replace] reads a string as a pattern: of two
    dollar signs in a row in the content, one is written. Stated for a text
    that ends with the cut record of the path, as in X12, the path and the
    rest of the content holding no dollar sign. *)
Theorem dollar_pair_is_written_once
  (filePath pre body head rest : string) :
  JS.indexOf (openMarker filePath) (pre ++ openMarker filePath ++ body)
  = Some (String.length pre) ->
  JS.includes "</file>" body = false ->
  JS.includes "$" filePath = false ->
  JS.includes "$" head = false ->
  JS.includes "$" rest = false ->
  replaceFile filePath (head ++ "$$" ++ rest)
    (pre ++ openMarker filePath ++ body)
  = pre ++ openMarker filePath ++ NL ++ head ++ "$" ++ rest ++ NL ++ "</file>".
Proof.
  intros Hi Hb Hp Hh Hr.
  rewrite replaceFile_cut by assumption. f_equal.
  unfold replacement. rewrite !append_assoc.
  rewrite expand_plain_prefix.
  2:{ unfold openMarker, fileOpen.
      repeat apply includes_char_append; try reflexivity; assumption. }
  rewrite (expand_plain_prefix NL) by reflexivity.
  rewrite (expand_plain_prefix head) by assumption.
  rewrite expand_dollar_pair, expand_plain; [reflexivity|].
  repeat apply includes_char_append; try reflexivity; assumption.
Qed.

(** The content x$$y, written over a cut record of a.js. *)
Lemma dollar_pair_is_written_once_witness :
  replaceFile "a.js" ("x" ++ "$$" ++ "y") ("" ++ openMarker "a.js" ++ "q(")
  = "" ++ openMarker "a.js" ++ NL ++ "x" ++ "$" ++ "y" ++ NL ++ "</file>".
Proof.
  apply dollar_pair_is_written_once; vm_compute; reflexivity.
Defined.

(** X29. The replace statement of the repair, applied to a text of
    well-formed records one of which, closed, is that of the path, writes a
    text from which the extractor reads the records before and after it as
    they were and, between them, the path with the new content, trimmed. The
    open marker of the path occurs in the text at that record only; the path
    and the content hold no dollar sign and the content no close marker. *)
Theorem replace_keeps_the_other_records
  (records later : list Written) (tail filePath body cleanContent : string) :
  let code :=
    document records ""
    ++ openMarker filePath ++ body ++ "</file>" ++ document later tail in
  Forall (fun r => wellFormed r = true) records ->
  Forall (fun r => wellFormed r = true) later ->
  JS.includes fileOpen tail = false ->
  isPath filePath = true ->
  JS.includes "$" filePath = false ->
  JS.includes "$" cleanContent = false ->
  JS.includes "</file>" cleanContent = false ->
  JS.includes "</file>" body = false ->
  JS.indexOf (openMarker filePath) code
  = Some (String.length (document records "")) ->
  JS.includes (openMarker filePath) (document later tail) = false ->
  map pairOf (execAll fileRegex (replaceFile filePath cleanContent code))
  = map pairWritten records +++ [(filePath, JS.trim cleanContent)]
    +++ map pairWritten later.
Proof.
  cbn zeta. intros Hr Hl Ht Hp Hd1 Hd2 Hc Hb Hi Hm.
  rewrite (replaceFile_frame filePath cleanContent (document records "")
             (body ++ "</file>" ++ document later tail) (document later tail)
             (openMarker filePath ++ body ++ "</file>")).
  - rewrite expand_plain by now apply replacement_plain.
    rewrite replacement_written.
    rewrite <- (document_tail [_] (document later tail)).
    rewrite <- (document_app [_] later), <- document_tail, <- document_app.
    unfold execAll. rewrite execAll_document; [|  |exact Ht].
    + rewrite !map_app. cbn [map]. unfold pairWritten at 2.
      cbn [writtenPath writtenBody]. now rewrite trim_between_lines.
    + apply Forall_app. split; [exact Hr|]. constructor; [|exact Hl].
      unfold wellFormed. cbn [leading writtenPath writtenBody].
      rewrite Hp. cbn [andb negb]. apply negb_true_iff.
      apply includes_cons_absent; [reflexivity|].
      now apply (includes_snoc_absent "</file>" newline eq_refl).
  - exact Hi.
  - apply afterClose_closed.
    now apply (indexOf_written "<" "/file>" _ eq_refl).
  - now rewrite !append_assoc.
  - exact Hm.
Qed.

(** src/Hero.jsx between the two records of [twoWritten]. *)
Lemma replace_keeps_the_other_records_witness :
  map pairOf
    (execAll fileRegex
       (replaceFile "src/Hero.jsx" fencedCode
          (document (firstn 1 twoWritten) ""
           ++ openMarker "src/Hero.jsx" ++ "function Hero( {" ++ "</file>"
           ++ document (skipn 1 twoWritten) " Done.")))
  = map pairWritten (firstn 1 twoWritten)
    +++ [("src/Hero.jsx", JS.trim fencedCode)]
    +++ map pairWritten (skipn 1 twoWritten).
Proof.
  apply replace_keeps_the_other_records;
    try (vm_compute; reflexivity); repeat constructor.
Defined.

End SessionProperties.

(** ** The history, the context, the keyword search and the provider *)
Module RequestProperties.
Import Regex Route Examples JSArray Conversation Fallback Provider Views Inputs.
Import StringFacts RegexFacts CollectFacts ArrayFacts ProviderFacts
  ConversationFacts WrittenFacts.

(** X18. The patterns [analyzeUserPreferences] returns are at most three, no
    label twice, each one of the five labels of the function; the edit style is
    one of the two words. *)
Theorem commonPatterns_are_three_distinct_labels
  (history : list ConversationMessage) :
  let prefs := analyzeUserPreferences history in
  List.length (commonPatterns prefs) <= 3
  /\ NoDup (commonPatterns prefs)
  /\ incl (commonPatterns prefs) patternLabels
  /\ (preferredEditStyle prefs = "targeted"
      \/ preferredEditStyle prefs = "comprehensive").
Proof.
  cbn zeta. unfold analyzeUserPreferences.
  cbn [commonPatterns preferredEditStyle].
  set (t := fold_left tally (filter isUser history) (mkTally 0 0 [])).
  destruct (unique_spec (patterns t)) as [Hnd Hin].
  split; [apply firstn_le_length|].
  split; [now apply firstn_NoDup|].
  split.
  - intros x Hx. apply firstn_incl in Hx. apply Hin in Hx.
    revert x Hx. apply tally_labels. intros x [].
  - destruct (Nat.ltb (comprehensiveEditCount t) (targetedEditCount t));
      [now left | now right].
Qed.

(** X19. [analyzeUserPreferences] reads of a message its role and its content
    in lower case: two histories that agree on these give the same result,
    whatever the letter case and the metadata. *)
Theorem preferences_read_role_and_lower_case
  (history history' : list ConversationMessage) :
  Forall2 (fun m m' => role m = role m'
                       /\ toLowerCase (content m) = toLowerCase (content m'))
    history history' ->
  analyzeUserPreferences history = analyzeUserPreferences history'.
Proof.
  intros H. unfold analyzeUserPreferences.
  now rewrite (tally_reads history history' H).
Qed.

Lemma preferences_read_role_and_lower_case_witness :
  analyzeUserPreferences shouting = analyzeUserPreferences lowerCased.
Proof.
  apply preferences_read_role_and_lower_case.
  constructor; [|constructor]. split; vm_compute; reflexivity.
Defined.

(** X20. Once a request is received the history holds at most 20 messages,
    the last of them being the message of this request, and at most 10 edits;
    what is kept is the end of what there was, and the major changes are as
    they were. *)
Theorem receive_bounds_the_history
  (state : option ConversationState) (prompt : string) :
  let before := match state with Some st => st | None => emptyConversation end in
  let st := receive state prompt in
  List.length (messages st) <= 20
  /\ (exists earlier, messages st = earlier +++ [userMessage prompt])
  /\ (exists dropped,
        messages before +++ [userMessage prompt] = dropped +++ messages st)
  /\ List.length (edits st) <= 10
  /\ (exists dropped, edits before = dropped +++ edits st)
  /\ majorChanges st = majorChanges before.
Proof.
  cbn zeta. unfold receive. cbn [messages edits majorChanges].
  set (before := match state with Some st => st | None => emptyConversation end).
  destruct (length_snoc_trim (messages before) (userMessage prompt))
    as (H1 & H2 & H3).
  destruct (length_edits_trim (edits before)) as (H4 & H5).
  repeat split; assumption.
Qed.

(** X21. After a request, whatever the state before it and however its
    session ends, the history holds at most 20 messages and at most 11 edits;
    the major changes are never trimmed: the request adds at most one at the
    end. *)
Theorem serve_bounds_the_edits
  (state : option ConversationState) (req : Request) :
  let before := match state with Some st => st | None => emptyConversation end in
  exists st,
    serve state req = Some st
    /\ List.length (messages st) <= 20
    /\ List.length (edits st) <= 11
    /\ exists added,
        majorChanges st = majorChanges before +++ added
        /\ List.length added <= 1.
Proof.
  cbn zeta. unfold serve.
  set (before := match state with Some st => st | None => emptyConversation end).
  set (st := receive state (prompt req)).
  assert (Hm : List.length (messages st) <= 20).
  { subst st. unfold receive. cbn [messages]. fold before.
    apply (length_snoc_trim (messages before) (userMessage (prompt req))). }
  assert (He : List.length (edits st) <= 10).
  { subst st. unfold receive. cbn [edits]. fold before.
    apply (length_edits_trim (edits before)). }
  assert (Hc : majorChanges st = majorChanges before) by reflexivity.
  assert (Hst : exists added,
             majorChanges st = majorChanges before +++ added
             /\ List.length added <= 1).
  { exists []. rewrite app_nil_r. split; [assumption | cbn; lia]. }
  assert (Hall : List.length (messages st) <= 20
                 /\ List.length (edits st) <= 11
                 /\ exists added,
                     majorChanges st = majorChanges before +++ added
                     /\ List.length added <= 1).
  { split; [assumption|]. split; [lia | assumption]. }
  destruct (JS.truthy (prompt req)); [|now exists st].
  destruct (streamError (session req)); [now exists st|].
  eexists. split; [reflexivity|]. unfold track.
  destruct (editContext req) as [ec|]; [|assumption].
  destruct (isEdit (session req)); [|assumption].
  cbn [messages edits majorChanges].
  split; [assumption|]. split; [rewrite length_app; cbn [List.length]; lia|].
  destruct (String.eqb (intentType ec) "ADD_FEATURE"
            || Nat.ltb 3 (List.length (extracted (session req)))).
  - eexists. rewrite Hc. split; [reflexivity | cbn [List.length]; lia].
  - assumption.
Qed.

(** X22. The conversation context is never longer than 2000 characters plus
    the note that it was cut. *)
Theorem context_is_capped (arrow sign : string) (st : ConversationState) :
  String.length (conversationContextOf arrow sign st)
  <= 2000 + String.length truncationNote.
Proof.
  unfold conversationContextOf.
  destruct (Nat.ltb 1 (List.length (messages st))); [|cbn [String.length]; lia].
  cbv zeta.
  match goal with
  | |- context [Nat.ltb 2000 (String.length ?c)] => generalize c
  end.
  intros c. destruct (Nat.ltb 2000 (String.length c)) eqn:E.
  - apply Nat.ltb_lt in E.
    rewrite length_append, length_take by lia. lia.
  - apply Nat.ltb_ge in E. lia.
Qed.

(** X23. The first request of a conversation gets no conversation context;
    every request that finds earlier messages in the history gets one, and it
    starts with the heading of the history. *)
Theorem context_comes_with_the_second_message
  (arrow sign : string) (state : option ConversationState) (prompt : string) :
  let earlier := match state with Some st => messages st | None => [] end in
  let context := conversationContextOf arrow sign (receive state prompt) in
  (earlier = [] -> context = "")
  /\ (earlier <> [] ->
      JS.startsWith (NL ++ NL ++ "## Conversation History (Recent)" ++ NL)
        context = true).
Proof.
  cbn zeta. split.
  - intros H. unfold conversationContextOf, receive. cbn [messages].
    destruct state as [st|]; cbn [messages emptyConversation] in *;
      [rewrite H|]; reflexivity.
  - intros H. unfold conversationContextOf.
    assert (L : Nat.ltb 1 (List.length (messages (receive state prompt))) = true).
    { apply Nat.ltb_lt. unfold receive. cbn [messages].
      destruct state as [st|]; [|contradiction].
      cbn [messages] in H.
      assert (2 <= List.length (messages st +++ [userMessage prompt])).
      { rewrite length_app. destruct (messages st); [contradiction|].
        cbn [List.length]. lia. }
      destruct (Nat.ltb 20 (List.length (messages st +++ [userMessage prompt])))
        eqn:E; [|lia].
      apply Nat.ltb_lt in E. rewrite sliceLast_length. lia. }
    rewrite L. cbv zeta.
    set (c0 := NL ++ NL ++ "## Conversation History (Recent)" ++ NL).
    assert (L0 : String.length c0 <= 2000).
    { apply Nat.leb_le. vm_compute. reflexivity. }
    match goal with
    | |- context [Nat.ltb 2000 (String.length ?c)] =>
        assert (S0 : JS.startsWith c0 c = true)
          by (repeat apply startsWith_if; apply startsWith_refl);
        destruct (Nat.ltb 2000 (String.length c));
        [apply startsWith_append_more; now apply startsWith_take
        | assumption]
    end.
Qed.

Lemma context_comes_with_the_second_message_witness :
  conversationContextOf "->" "!" (receive None "make a page") = ""
  /\ JS.startsWith (NL ++ NL ++ "## Conversation History (Recent)" ++ NL)
       (conversationContextOf "->" "!"
          (receive secondRequest "make the hero blue")) = true.
Proof.
  pose proof (context_comes_with_the_second_message "->" "!" None "make a page")
    as H1.
  pose proof (context_comes_with_the_second_message "->" "!" secondRequest
                "make the hero blue") as H2.
  split.
  - apply (proj1 H1). reflexivity.
  - apply (proj2 H2). discriminate.
Defined.

(** X24. The keyword search of an edit splits the paths of the manifest:
    each path is a file to edit or a context file and never both; the files to
    edit are none, or the paths that hold, in any letter case, one keyword of
    the chain that the prompt names. *)
Theorem keyword_search_splits_the_manifest
  (planHasTerms : bool) (prompt : string) (allFilePaths : list string) :
  let primary := targetFilesOf planHasTerms prompt allFilePaths in
  let context := contextFilesOf primary allFilePaths in
  (forall path, In path allFilePaths <-> In path primary \/ In path context)
  /\ (forall path, ~ (In path primary /\ In path context))
  /\ (primary = []
      \/ exists keyword,
          In keyword keywords
          /\ JS.includes keyword (toLowerCase prompt) = true
          /\ primary = pathsWith keyword allFilePaths).
Proof.
  cbn zeta.
  set (primary := targetFilesOf planHasTerms prompt allFilePaths).
  assert (I : incl primary allFilePaths).
  { destruct (targetFilesOf_cases planHasTerms prompt allFilePaths)
      as [E | (k & _ & _ & E)]; fold primary in E; rewrite E.
    - intros x [].
    - intros x Hx. unfold pathsWith in Hx. now apply filter_In in Hx. }
  split; [|split].
  - intros path. rewrite contextFilesOf_spec.
    destruct (in_dec string_dec path primary) as [Hin | Hout].
    + split; [tauto | intros _; now apply I].
    + tauto.
  - intros path [H1 H2]. apply contextFilesOf_spec in H2. tauto.
  - apply targetFilesOf_cases.
Qed.

(** X25. A model named with the prefix anthropic/ or google/ is served by
    that provider under its name without the prefix. *)
Theorem provider_prefix_is_stripped (name : string) :
  modelProvider ("anthropic/" ++ name) = Anthropic
  /\ actualModel ("anthropic/" ++ name) = name
  /\ modelProvider ("google/" ++ name) = Google
  /\ actualModel ("google/" ++ name) = name.
Proof.
  unfold modelProvider, actualModel, isAnthropic, isGoogle, isOpenAI.
  rewrite (startsWith_append "anthropic/" name).
  rewrite (removeFirst_prefix "anthropic/" name).
  rewrite (startsWith_append "google/" name).
  rewrite (removeFirst_prefix "google/" name).
  repeat split; reflexivity.
Qed.

(** X26. Only the name openai/gpt-5 itself is shortened: any longer name
    that starts with openai/gpt-5 goes to the OpenAI client with its prefix. *)
Theorem gpt5_variant_keeps_its_prefix (suffix : string) :
  suffix <> "" ->
  modelProvider ("openai/gpt-5" ++ suffix) = OpenAI
  /\ actualModel ("openai/gpt-5" ++ suffix) = "openai/gpt-5" ++ suffix.
Proof.
  intros H. destruct suffix as [|c suffix]; [contradiction|].
  split; reflexivity.
Qed.

Lemma gpt5_variant_keeps_its_prefix_witness :
  modelProvider ("openai/gpt-5" ++ "-mini") = OpenAI
  /\ actualModel ("openai/gpt-5" ++ "-mini") = "openai/gpt-5" ++ "-mini".
Proof. apply gpt5_variant_keeps_its_prefix. discriminate. Defined.

(** X27. The client of a repair is chosen by another test than the client
    of the generation: a model named openai/ and not gpt-5 is generated by
    Groq, and its repair is sent to the OpenAI client. *)
Theorem repair_client_differs_from_generation (name : string) :
  JS.startsWith "gpt-5" name = false ->
  modelProvider ("openai/" ++ name) = Groq
  /\ completionClient ("openai/" ++ name) = OpenAI.
Proof.
  intros H. split.
  - unfold modelProvider, isAnthropic, isOpenAI, isGoogle.
    change (JS.startsWith "anthropic/" ("openai/" ++ name)) with false.
    change (JS.startsWith "openai/gpt-5" ("openai/" ++ name))
      with (JS.startsWith "gpt-5" name).
    rewrite H. reflexivity.
  - unfold completionClient.
    change ("openai/" ++ name) with ("openai" ++ "/" ++ name).
    rewrite (includes_prefix "openai"), orb_true_r. reflexivity.
Qed.

(** The default model of the route. *)
Lemma repair_client_differs_from_generation_witness :
  modelProvider ("openai/" ++ "gpt-oss-20b") = Groq
  /\ completionClient ("openai/" ++ "gpt-oss-20b") = OpenAI.
Proof. apply repair_client_differs_from_generation. reflexivity. Defined.

End RequestProperties.
